(** * Indian startup funding dashboard: the data-cleaning pipeline of
    [dashboard.py] and the filter and aggregations run on its output.

    The development embeds [load_data] (with its helpers [clean_amount] and
    [clean_date]), the row filter of [main], and the tables computed by
    [plot_funding_trend] and [plot_top_cities]; then the page itself:
    [display_kpis], [plot_investment_pie] and [main] with the Streamlit
    calls they make, and the statements of the module run as a script.

    Conventions.
    - Text is a list of code points.  The file is read with
      [encoding="ISO-8859-1"], so every code point of a cell is below 256;
      the character tables below are those of Python for that range, and a
      code point at or above 256 is treated as an uncased, non-space symbol.
    - Floating-point values are IEEE binary64 values ([spec_float] at
      precision 53, maximal exponent 1024).
    - A data frame is a list of rows; the stages of [load_data] are list
      transformations in the order of the source.
    - A call of [load_data] ends with the frame it returns or with the
      exception that leaves it; what it shows with [st.error] on the way is
      kept.
    - The grouped sum of [plot_funding_trend] adds the amounts of a month
      as the library's [group_sum] does, with compensation (Kahan).
    - A parsed date is the [datetime] that [strptime] returns.  The frame
      stores it as a nanosecond timestamp, which reaches from 1677 to 2262;
      what the library does with a date outside that range depends on its
      version and is not part of the embedding. *)

From Stdlib Require Import ZArith NArith List String Ascii Bool Lia.
From Stdlib Require Import Permutation Sorted.
From Stdlib Require Import Floats.SpecFloat.
Import ListNotations.

Local Open Scope Z_scope.

(* ================================================================== *)
(** * Python text *)
(* ================================================================== *)

Module PyStr.

(** A character is its code point, a [str] a list of them. *)
Definition pychar := N.
Definition pystr := list pychar.

(** A literal of the source, written as a Rocq string. *)
Definition py (s : string) : pystr :=
  List.map N_of_ascii (list_ascii_of_string s).

Definition str_eqb (a b : pystr) : bool :=
  if list_eq_dec N.eq_dec a b then true else false.

Definition in_range (lo hi c : N) : bool := ((lo <=? c) && (c <=? hi))%N.

(** [str.isspace] on one character (tab .. carriage return, the four
    separators 0x1c .. 0x1f, space, NEL and the no-break space). *)
Definition isspace (c : pychar) : bool :=
  (in_range 9 13 c || in_range 28 32 c || (c =? 133) || (c =? 160))%N.

Definition isdigit (c : pychar) : bool := in_range 48 57 c.

(** Upper-case letters: A..Z and the accented capitals except the
    multiplication sign 0xd7. *)
Definition isupper (c : pychar) : bool :=
  (in_range 65 90 c || (in_range 192 222 c && negb (c =? 215)))%N.

(** Characters with the Unicode property Lowercase, below 256. *)
Definition islower (c : pychar) : bool :=
  (in_range 97 122 c || (c =? 170) || (c =? 181) || (c =? 186)
   || (in_range 223 255 c && negb (c =? 247)))%N.

(** [_PyUnicode_IsCased]. *)
Definition iscased (c : pychar) : bool := isupper c || islower c.

(** [str.lower] on one character. *)
Definition lower_char (c : pychar) : pychar :=
  if isupper c then (c + 32)%N else c.

(** Title-case mapping of one character ([_PyUnicode_ToTitleFull]): the
    upper-case letter, which for the micro sign and y-diaeresis lies outside
    Latin-1 and for sharp s is the two letters "Ss". *)
Definition title_char (c : pychar) : pystr :=
  if in_range 97 122 c then [(c - 32)%N]
  else if (c =? 181)%N then [924%N]
  else if (c =? 223)%N then [83%N; 115%N]
  else if (c =? 255)%N then [376%N]
  else if (in_range 224 254 c && negb (c =? 247))%N then [(c - 32)%N]
  else [c].

(** [str.lower]. *)
Definition lower (s : pystr) : pystr := List.map lower_char s.

(** [str.title]: the loop of [do_title], which carries whether the previous
    character was cased. *)
Fixpoint title_from (previous_is_cased : bool) (s : pystr) : pystr :=
  match s with
  | [] => []
  | c :: rest =>
      (if previous_is_cased then [lower_char c] else title_char c)
        ++ title_from (iscased c) rest
  end.

Definition title (s : pystr) : pystr := title_from false s.

(** [str.strip()] with no argument. *)
Fixpoint lstrip (s : pystr) : pystr :=
  match s with
  | [] => []
  | c :: rest => if isspace c then lstrip rest else s
  end.

Definition rstrip (s : pystr) : pystr := rev (lstrip (rev s)).

Definition strip (s : pystr) : pystr := rstrip (lstrip s).

(** [s.replace(c, '')] for a one-character [c]. *)
Definition remove_char (c : pychar) (s : pystr) : pystr :=
  List.filter (fun x => negb (x =? c)%N) s.

(** [s.startswith(u)]. *)
Fixpoint startswith (u s : pystr) : bool :=
  match u, s with
  | [], _ => true
  | _ :: _, [] => false
  | a :: u', b :: s' => (a =? b)%N && startswith u' s'
  end.

(** [u in s]: [u] occurs in [s] as a contiguous run. *)
Fixpoint contains (u s : pystr) : bool :=
  startswith u s ||
  match s with
  | [] => false
  | _ :: s' => contains u s'
  end.

(** [Series.replace({...})] on one value: the first key equal to the whole
    value gives its replacement, no key leaves the value as it is. *)
Fixpoint replace_exact (table : list (pystr * pystr)) (s : pystr) : pystr :=
  match table with
  | [] => s
  | (k, v) :: rest => if str_eqb s k then v else replace_exact rest s
  end.

End PyStr.
Export PyStr.

(* ================================================================== *)
(** * Python floats *)
(* ================================================================== *)

Module PyFloat.

(** A Python [float] is an IEEE binary64 value. *)
Definition float := spec_float.
Definition prec : Z := 53.
Definition emax : Z := 1024.

Definition fdiv : float -> float -> float := SFdiv prec emax.
Definition fadd : float -> float -> float := SFadd prec emax.
Definition fsub : float -> float -> float := SFsub prec emax.
Definition flt : float -> float -> bool := SFltb.
Definition fle : float -> float -> bool := SFleb.

Definition isnan (x : float) : bool :=
  match x with S754_nan => true | _ => false end.

(** [float(n)] for an integer [n]: the nearest double, ties to even. *)
Definition float_of_Z (n : Z) : float := binary_normalize prec emax n 0 false.

Definition nan : float := S754_nan.
Definition fzero : float := S754_zero false.

(** The double nearest to [(-1)^neg * m * 10^e], ties to even; a magnitude
    too large for the format gives an infinity. *)
Definition float_of_decimal (neg : bool) (m : N) (e : Z) : float :=
  match m with
  | N0 => S754_zero neg
  | Npos p =>
      if 0 <=? e then
        binary_normalize prec emax ((if neg then Zneg p else Zpos p) * 10 ^ e) 0 false
      else
        let '(q, e', l) :=
          SFdiv_core_binary prec emax (Zpos p) 0 (10 ^ (- e)) 0 in
        binary_round_aux prec emax neg q e' l
  end.

(** ** [float(str)] *)

Definition digit_val (c : pychar) : N := (c - 48)%N.

(** The longest run of decimal digits at the front, and the rest. *)
Fixpoint span_digits (s : pystr) : pystr * pystr :=
  match s with
  | c :: rest =>
      if isdigit c then let '(ds, r) := span_digits rest in (c :: ds, r)
      else ([], s)
  | [] => ([], [])
  end.

Definition N_of_digits (ds : pystr) : N :=
  fold_left (fun acc c => (10 * acc + digit_val c)%N) ds 0%N.

(** An optional sign: whether it is a minus, and the rest. *)
Definition parse_sign (s : pystr) : bool * pystr :=
  match s with
  | 45%N :: rest => (true, rest)
  | 43%N :: rest => (false, rest)
  | _ => (false, s)
  end.

(** ASCII lower-casing, as [Py_TOLOWER]. *)
Definition ascii_lower (c : pychar) : pychar :=
  if in_range 65 90 c then (c + 32)%N else c.

Definition case_insensitive_match (s : pystr) (t : string) : option pystr :=
  let u := py t in
  if startswith u (List.map ascii_lower (firstn (List.length u) s))
  then Some (skipn (List.length u) s) else None.

(** [_Py_parse_inf_or_nan]: the value and the unread rest. *)
Definition parse_inf_or_nan (s : pystr) : option (float * pystr) :=
  let '(neg, s1) := parse_sign s in
  match case_insensitive_match s1 "inf" with
  | Some s2 =>
      match case_insensitive_match s2 "inity" with
      | Some s3 => Some (S754_infinity neg, s3)
      | None => Some (S754_infinity neg, s2)
      end
  | None =>
      match case_insensitive_match s1 "nan" with
      | Some s2 => Some (S754_nan, s2)
      | None => None
      end
  end.

(** The exponent part: read only when a digit follows the mark and the
    optional sign. *)
Definition parse_exponent (s : pystr) : Z * pystr :=
  match s with
  | c :: rest =>
      if ((c =? 101) || (c =? 69))%N then
        let '(eneg, s1) := parse_sign rest in
        let '(ds, s2) := span_digits s1 in
        match ds with
        | [] => (0, s)
        | _ => ((if eneg then - Z.of_N (N_of_digits ds) else Z.of_N (N_of_digits ds)), s2)
        end
      else (0, s)
  | [] => (0, s)
  end.

(** [_Py_dg_strtod]: sign, digits with an optional point (at least one
    digit), optional exponent; the value and the unread rest. *)
Definition parse_decimal (s : pystr) : option (float * pystr) :=
  let '(neg, s1) := parse_sign s in
  let '(ip, s2) := span_digits s1 in
  let '(fp, s3) :=
    match s2 with
    | 46%N :: rest => span_digits rest
    | _ => ([], s2)
    end in
  match ip ++ fp with
  | [] => None
  | ds =>
      let '(ex, s4) := parse_exponent s3 in
      Some (float_of_decimal neg (N_of_digits ds) (ex - Z.of_nat (List.length fp)), s4)
  end.

(** Underscores may only stand between two digits; they are removed. *)
Fixpoint strip_underscores (prev : pychar) (s : pystr) : option pystr :=
  match s with
  | [] => if (prev =? 95)%N then None else Some []
  | c :: rest =>
      if (c =? 95)%N then
        if isdigit prev then strip_underscores c rest else None
      else if ((prev =? 95) && negb (isdigit c))%N then None
      else option_map (cons c) (strip_underscores c rest)
  end.

(** Non-ASCII characters before parsing: a space character becomes a
    blank, anything else a question mark. *)
Definition to_ascii (c : pychar) : pychar :=
  if (c <? 127)%N then c else if isspace c then 32%N else 63%N.

Definition c_isspace (c : pychar) : bool := (in_range 9 13 c || (c =? 32))%N.

Fixpoint c_lstrip (s : pystr) : pystr :=
  match s with
  | c :: rest => if c_isspace c then c_lstrip rest else s
  | [] => []
  end.

(** [float(s)] for a string: [None] is [ValueError]. *)
Definition float_of_str (s : pystr) : option float :=
  match strip_underscores 0%N (List.map to_ascii s) with
  | None => None
  | Some s1 =>
      let s2 := rev (c_lstrip (rev (c_lstrip s1))) in
      match parse_inf_or_nan s2 with
      | Some (x, []) => Some x
      | Some (_, _ :: _) => None
      | None =>
          match parse_decimal s2 with
          | Some (x, []) => Some x
          | _ => None
          end
      end
  end.

End PyFloat.
Export PyFloat.

(* ================================================================== *)
(** * Dates: [datetime.strptime] with the format of the source *)
(* ================================================================== *)

Module PyDate.

Record date := mkdate { year : Z; month : Z; day : Z }.

Definition is_leap (y : Z) : bool :=
  (y mod 4 =? 0) && (negb (y mod 100 =? 0) || (y mod 400 =? 0)).

Definition days_in_month (y m : Z) : Z :=
  if m =? 2 then (if is_leap y then 29 else 28)
  else if (m =? 4) || (m =? 6) || (m =? 9) || (m =? 11) then 30
  else 31.

(** The range checks of the [datetime] constructor ([MINYEAR] is 1,
    [MAXYEAR] is 9999). *)
Definition valid_date (d : date) : bool :=
  (1 <=? year d) && (year d <=? 9999) &&
  (1 <=? month d) && (month d <=? 12) &&
  (1 <=? day d) && (day d <=? days_in_month (year d) (month d)).

Definition mk_datetime (y m d : Z) : option date :=
  let r := mkdate y m d in if valid_date r then Some r else None.

(** ** The regular expression compiled from a format

    One character class per position; a directive is an ordered list of
    alternatives, tried in turn with backtracking into what follows. *)
Inductive cls :=
| Range (lo hi : string)
| Digit
| Lit (c : string).

Definition code (c : string) : N :=
  match c with
  | String a _ => N_of_ascii a
  | EmptyString => 0%N
  end.

Definition cls_match (k : cls) (c : pychar) : bool :=
  match k with
  | Range lo hi => in_range (code lo) (code hi) c
  | Digit => isdigit c
  | Lit x => (c =? code x)%N
  end.

(** Match a sequence of classes at the front: the text matched and the rest. *)
Fixpoint match_seq (p : list cls) (s : pystr) : option (pystr * pystr) :=
  match p, s with
  | [], _ => Some ([], s)
  | _ :: _, [] => None
  | k :: p', c :: s' =>
      if cls_match k c then
        match match_seq p' s' with
        | Some (m, r) => Some (c :: m, r)
        | None => None
        end
      else None
  end.

(** The first alternative after which the continuation succeeds. *)
Fixpoint first_alt {R : Type} (alts : list (list cls))
    (k : pystr -> pystr -> option R) (s : pystr) : option R :=
  match alts with
  | [] => None
  | p :: more =>
      match match_seq p s with
      | Some (m, r) =>
          match k m r with
          | Some res => Some res
          | None => first_alt more k s
          end
      | None => first_alt more k s
      end
  end.

Local Open Scope string_scope.

(** [%d]: [3[0-1]|[1-2]\d|0[1-9]|[1-9]| [1-9]]. *)
Definition re_d : list (list cls) :=
  [ [Lit "3"; Range "0" "1"]; [Range "1" "2"; Digit]; [Lit "0"; Range "1" "9"];
    [Range "1" "9"]; [Lit " "; Range "1" "9"] ].

(** [%m]: [1[0-2]|0[1-9]|[1-9]]. *)
Definition re_m : list (list cls) :=
  [ [Lit "1"; Range "0" "2"]; [Lit "0"; Range "1" "9"]; [Range "1" "9"] ].

(** [%Y]: four digits. *)
Definition re_Y : list (list cls) := [ [Digit; Digit; Digit; Digit] ].

Definition re_slash : list (list cls) := [ [Lit "/"] ].

Local Close Scope string_scope.

(** [int(text)] for a matched group: a run of digits, possibly after one
    blank. *)
Definition int_of_group (g : pystr) : Z :=
  Z.of_N (N_of_digits (List.filter isdigit g)).

(** [re.match] of the pattern for ['%d/%m/%Y']: the three groups and the
    text left after the match. *)
Definition match_dmY (s : pystr) : option (pystr * pystr * pystr * pystr) :=
  first_alt re_d (fun d r1 =>
  first_alt re_slash (fun _ r2 =>
  first_alt re_m (fun m r3 =>
  first_alt re_slash (fun _ r4 =>
  first_alt re_Y (fun y r5 => Some (d, m, y, r5)) r4) r3) r2) r1) s.

(** [datetime.strptime(s, '%d/%m/%Y')]; [None] is [ValueError]: no match,
    unconverted data after the match, or a day the month does not have. *)
Definition strptime_dmY (s : pystr) : option date :=
  match match_dmY s with
  | Some (d, m, y, []) =>
      mk_datetime (int_of_group y) (int_of_group m) (int_of_group d)
  | _ => None
  end.

(** ** Periods *)

(** Decimal digits of [n], zero padded to [width] places. *)
Fixpoint pad_digits (width : nat) (n : N) : pystr :=
  match width with
  | O => []
  | S w => pad_digits w (n / 10) ++ [(48 + n mod 10)%N]
  end.

(** [str(Period(d, 'M'))]: the text ["YYYY-MM"]. *)
Definition period_str (d : date) : pystr :=
  pad_digits 4 (Z.to_N (year d)) ++ [45%N] ++ pad_digits 2 (Z.to_N (month d)).

(** [pd.to_datetime(s, errors='coerce')] on the texts of the [Month]
    column, which [period_str] wrote: the first day of that month.  Other
    texts do not occur there; they are given [None] (NaT). *)
Definition to_datetime (s : pystr) : option date :=
  match s with
  | [y1; y2; y3; y4; dash; m1; m2] =>
      if forallb isdigit [y1; y2; y3; y4; m1; m2] && (dash =? 45)%N
      then mk_datetime (Z.of_N (N_of_digits [y1; y2; y3; y4]))
                       (Z.of_N (N_of_digits [m1; m2])) 1
      else None
  | _ => None
  end.

(** Order of timestamps. *)
Definition date_compare (a b : date) : comparison :=
  match year a ?= year b with
  | Eq => match month a ?= month b with
          | Eq => day a ?= day b
          | c => c
          end
  | c => c
  end.

End PyDate.
Export PyDate.

(* ================================================================== *)
(** * The data frame and [load_data] *)
(* ================================================================== *)

(** A cell of the frame read from the file, by the type [read_csv] gave its
    column: text, a double (a missing value is NaN), an integer or a
    Boolean. *)
Inductive cell :=
| CStr (s : pystr)
| CFloat (x : float)
| CInt (n : Z)
| CBool (b : bool).

(** The frame as read: its number of columns and its rows. *)
Record frame := mkframe { width : nat; rows : list (list cell) }.

(** Every row has one cell per column. *)
Definition rectangular (data : frame) : Prop :=
  Forall (fun r => List.length r = width data) (rows data).

(** [repr] of a double that is not NaN (the shortest text that reads back
    as the same double) is taken as given. *)
Class FloatRepr := float_repr : float -> pystr.

(** Decimal digits of a natural number, most significant first. *)
Fixpoint digits_fuel (fuel : nat) (n : N) (acc : pystr) : pystr :=
  match fuel with
  | O => acc
  | S f =>
      let acc' := ((48 + n mod 10)%N :: acc) in
      if (n <? 10)%N then acc' else digits_fuel f (n / 10)%N acc'
  end.

Definition str_of_N (n : N) : pystr := digits_fuel (S (N.to_nat (N.log2 n))) n [].

Definition str_of_Z (n : Z) : pystr :=
  match n with
  | Zneg p => 45%N :: str_of_N (Npos p)
  | _ => str_of_N (Z.to_N n)
  end.

(** The columns of the frame through the stages of [load_data]; a column
    not yet present has type [unit]. *)
Record Row (D T A Y M : Type) := mkRow {
  Date : D;
  Startup_Name : T;
  Sector : T;
  City : T;
  Investment_Type : T;
  Amount : A;
  Year : Y;
  Month : M
}.
Arguments mkRow {D T A Y M}.
Arguments Date {D T A Y M}.
Arguments Startup_Name {D T A Y M}.
Arguments Sector {D T A Y M}.
Arguments City {D T A Y M}.
Arguments Investment_Type {D T A Y M}.
Arguments Amount {D T A Y M}.
Arguments Year {D T A Y M}.
Arguments Month {D T A Y M}.

(** A row of the cleaned frame. *)
Definition record := Row date pystr float Z pystr.

(** The exceptions of [load_data].  It catches what [pd.read_csv] raised
    and the [IndexError] of a positional selection outside the frame; the
    [AttributeError] of the accessor [.dt] on a column that holds no
    timestamps leaves it. *)
Inductive exn :=
| ReadError
| IndexError
| AttributeError.

(** What [st.error] shows: the text of the f-string (without the warning
    sign that opens the first one), followed by the text of the caught
    exception. *)
Inductive st_event :=
| st_error (msg : string) (e : exn).

(** How a call of [load_data] ends: with the frame it returns, or with an
    exception that nothing in it catches. *)
Inductive loaded :=
| returns (df : list record)
| raises (e : exn).

Section LoadData.

Context {R : FloatRepr}.

(** [str(x)] of a cell, also [astype(str)]. *)
Definition str_of_cell (c : cell) : pystr :=
  match c with
  | CStr s => s
  | CFloat S754_nan => py "nan"
  | CFloat x => float_repr x
  | CInt n => str_of_Z n
  | CBool b => if b then py "True" else py "False"
  end.

(** [data.iloc[:, [13, 14, 15, 17, 19, 20]]] with the six names assigned:
    [None] when a position is outside the frame ([IndexError]). *)
Definition missing : cell := CFloat nan.

Definition iloc_columns (data : frame)
  : option (list (Row cell cell cell unit unit)) :=
  if forallb (fun i => (i <? width data)%nat) [13; 14; 15; 17; 19; 20]%nat then
    Some (List.map (fun r =>
            mkRow (nth 13 r missing) (nth 14 r missing) (nth 15 r missing)
                  (nth 17 r missing) (nth 19 r missing) (nth 20 r missing)
                  tt tt) (rows data))
  else None.

(** ** Clean amount *)

Definition tokens : list pystr :=
  [py "lac"; py "lakh"; py "cr"; py "unknown"; py "n/a"].

Definition million : float := float_of_Z 1000000.

(** The text [clean_amount] inspects and parses. *)
Definition amount_text (s : pystr) : pystr :=
  lower (strip (remove_char (code "$") (remove_char (code ",") s))).

Definition clean_amount (x : cell) : float :=
  match x with
  | CStr s =>
      let x := amount_text s in
      if existsb (fun u => contains u x) tokens then nan
      else match float_of_str x with
           | Some v => fdiv v million
           | None => nan
           end
  | CFloat v => fdiv v million
  | CInt n =>
      (* [float] of an integer too large for a double raises
         [OverflowError], which the bare [except] catches *)
      match float_of_Z n with
      | S754_infinity _ => nan
      | v => fdiv v million
      end
  | CBool b => fdiv (float_of_Z (if b then 1 else 0)) million
  end.

(** ** Parse date *)

Definition clean_date (d : cell) : option date :=
  strptime_dmY (strip (str_of_cell d)).

(** ** Clean text *)

Definition other_table : list (pystr * pystr) :=
  [(py "Nan", py "Other"); (py "N/A", py "Other")].

Definition clean_text (c : cell) : pystr :=
  replace_exact other_table (title (strip (str_of_cell c))).

Definition city_table : list (pystr * pystr) :=
  [(py "Bengaluru", py "Bangalore"); (py "New Delhi", py "Delhi");
   (py "Gurugram", py "Gurgaon"); (py "Hydrabad", py "Hyderabad")].

Definition investment_table : list (pystr * pystr) :=
  [(py "Seed/ Angel Funding", py "Seed/Angel Funding")].

(** ** Column operations *)

Definition apply_Amount {D T A A' Y M} (f : A -> A') (r : Row D T A Y M)
  : Row D T A' Y M :=
  mkRow (Date r) (Startup_Name r) (Sector r) (City r) (Investment_Type r)
        (f (Amount r)) (Year r) (Month r).

Definition apply_Date {D D' T A Y M} (f : D -> D') (r : Row D T A Y M)
  : Row D' T A Y M :=
  mkRow (f (Date r)) (Startup_Name r) (Sector r) (City r) (Investment_Type r)
        (Amount r) (Year r) (Month r).

(** [dropna(subset=['Date'])]: the rows whose date is not NaT. *)
Definition dropna_Date {T A Y M} (df : list (Row (option date) T A Y M))
  : list (Row date T A Y M) :=
  flat_map (fun r => match Date r with
                     | Some d => [apply_Date (fun _ => d) r]
                     | None => []
                     end) df.

(** [df['Year'] = ...; df['Month'] = ...]. *)
Definition set_Year_Month {T A} (r : Row date T A unit unit)
  : Row date T A Z pystr :=
  mkRow (Date r) (Startup_Name r) (Sector r) (City r) (Investment_Type r)
        (Amount r) (year (Date r)) (period_str (Date r)).

(** The loop over the four text columns. *)
Definition apply_text {D T T' A Y M} (f : T -> T') (r : Row D T A Y M)
  : Row D T' A Y M :=
  mkRow (Date r) (f (Startup_Name r)) (f (Sector r)) (f (City r))
        (f (Investment_Type r)) (Amount r) (Year r) (Month r).

Definition apply_City {D T A Y M} (f : T -> T) (r : Row D T A Y M)
  : Row D T A Y M :=
  mkRow (Date r) (Startup_Name r) (Sector r) (f (City r)) (Investment_Type r)
        (Amount r) (Year r) (Month r).

Definition apply_Investment_Type {D T A Y M} (f : T -> T) (r : Row D T A Y M)
  : Row D T A Y M :=
  mkRow (Date r) (Startup_Name r) (Sector r) (City r) (f (Investment_Type r))
        (Amount r) (Year r) (Month r).

(** ** [load_data]

    The argument is what [pd.read_csv] gave, [None] when it raised.  The
    result is what was shown with [st.error] and how the call ends.

    [df['Date'].dt.year] needs a column of timestamps.  [apply] over rows
    gives one, whether the dates parsed or not; over no row at all it gives
    a column of type object, and [.dt] raises [AttributeError].  So it is
    when no row is left after the amounts were cleaned. *)
Definition load_data (read_csv : option frame) : list st_event * loaded :=
  match read_csv with
  | None =>
      ([st_error "Couldn't load 'merged.csv.csv'. " ReadError], returns [])
  | Some data =>
      match iloc_columns data with
      | None =>
          ([st_error "Column mismatch. Please check your CSV format. "
                     IndexError], returns [])
      | Some df =>
          (* Clean amount *)
          let df := List.map (apply_Amount clean_amount) df in
          let df := List.filter (fun r => negb (isnan (Amount r))) df in
          let df := List.filter (fun r => flt (float_of_Z 0) (Amount r)) df in
          (* Parse date *)
          let df := List.map (apply_Date clean_date) df in
          match df with
          | [] => ([], raises AttributeError)
          | _ :: _ =>
          let df := dropna_Date df in
          let df := List.map set_Year_Month df in
          (* Clean text *)
          let df := List.map (apply_text clean_text) df in
          let df := List.map (apply_City (replace_exact city_table)) df in
          let df := List.map (apply_Investment_Type
                                (replace_exact investment_table)) df in
          let df := List.filter (fun r => flt (Amount r) (float_of_Z 1000)) df in
          ([], returns df)
          end
      end
  end.

End LoadData.

(* ================================================================== *)
(** * The filter of [main] *)
(* ================================================================== *)

(** [Series.between(lo, hi)], both ends included. *)
Definition between (x lo hi : float) : bool := fle lo x && fle x hi.

(** [Series.isin(values)]. *)
Definition isin (x : pystr) (values : list pystr) : bool :=
  existsb (str_eqb x) values.

(** [filtered_df]: the rows passing the three sidebar selections. *)
Definition filtered_df (df : list record) (year_range : Z * Z)
    (selected_cities : list pystr) (funding_range : float * float)
  : list record :=
  List.filter (fun r =>
      (fst year_range <=? Year r) &&
      (Year r <=? snd year_range) &&
      isin (City r) selected_cities &&
      between (Amount r) (fst funding_range) (snd funding_range)) df.

(** [Series.min()] and [Series.max()] of a column without missing values;
    the frame is not empty where [main] calls them. *)
Definition min_Z (xs : list Z) : Z :=
  match xs with [] => 0 | x :: rest => fold_left Z.min rest x end.

Definition max_Z (xs : list Z) : Z :=
  match xs with [] => 0 | x :: rest => fold_left Z.max rest x end.

Definition fmin (a b : float) : float := if flt b a then b else a.
Definition fmax (a b : float) : float := if flt a b then b else a.

Definition min_float (xs : list float) : float :=
  match xs with [] => nan | x :: rest => fold_left fmin rest x end.

Definition max_float (xs : list float) : float :=
  match xs with [] => nan | x :: rest => fold_left fmax rest x end.

(** The values the three widgets of [main] start from when every city is
    selected. *)
Definition full_year_range (df : list record) : Z * Z :=
  (min_Z (List.map Year df), max_Z (List.map Year df)).

Definition full_funding_range (df : list record) : float * float :=
  (min_float (List.map Amount df), max_float (List.map Amount df)).

(* ================================================================== *)
(** * [plot_funding_trend]: the monthly totals *)
(* ================================================================== *)

(** The running total of one group in the library's [group_sum]: the sum
    so far and the compensation of compensated (Kahan) summation. *)
Record kahan := mk_kahan { sumx : float; compensation : float }.

Definition kahan_zero : kahan := mk_kahan fzero fzero.

(** One value added to a running total.  A missing value is passed over;
    a compensation that is not a number starts again from zero. *)
Definition kahan_add (acc : kahan) (val : float) : kahan :=
  if isnan val then acc
  else
    let y := fsub val (compensation acc) in
    let t := fadd (sumx acc) y in
    let c := fsub (fsub t (sumx acc)) y in
    mk_kahan t (if isnan c then fzero else c).

(** The total of the values of one group, taken in row order. *)
Definition kahan_sum (xs : list float) : float :=
  sumx (fold_left kahan_add xs kahan_zero).

(** One row of the grouped sum: the running total of key [k] takes in
    [v]; keys are kept in increasing order. *)
Fixpoint group_add (k : date) (v : float) (acc : list (date * kahan))
  : list (date * kahan) :=
  match acc with
  | [] => [(k, kahan_add kahan_zero v)]
  | (k', t) :: rest =>
      match date_compare k k' with
      | Lt => (k, kahan_add kahan_zero v) :: acc
      | Eq => (k', kahan_add t v) :: rest
      | Gt => (k', t) :: group_add k v rest
      end
  end.

(** The running totals after all rows; rows with a missing key are left
    out. *)
Definition group_sum (rows : list (option date * float))
  : list (date * kahan) :=
  fold_left (fun acc kv =>
               match fst kv with
               | Some k => group_add k (snd kv) acc
               | None => acc
               end) rows [].

(** [groupby(key, as_index=False)[col].sum()]: one row for each key, sorted
    by key, with the total of its group. *)
Definition groupby_sum (rows : list (option date * float))
  : list (date * float) :=
  List.map (fun g => (fst g, sumx (snd g))) (group_sum rows).

(** [time_df] of [plot_funding_trend]: the columns [Month_dt] and
    [Amount]. *)
Definition time_df (df : list record) : list (date * float) :=
  groupby_sum (List.map (fun r => (to_datetime (Month r), Amount r)) df).

(* ================================================================== *)
(** * [plot_top_cities]: the deal counts *)
(* ================================================================== *)

(** Counting in order of first appearance. *)
Fixpoint count_add (c : pystr) (t : list (pystr * nat)) : list (pystr * nat) :=
  match t with
  | [] => [(c, 1%nat)]
  | (k, n) :: rest =>
      if str_eqb c k then (k, S n) :: rest else (k, n) :: count_add c rest
  end.

Definition count_table (xs : list pystr) : list (pystr * nat) :=
  fold_left (fun t c => count_add c t) xs [].

Definition count_ge (a b : pystr * nat) : Prop := (snd b <= snd a)%nat.

(** [sort_values(ascending=False)] with the default sorting method.  The
    method is the library's and is taken as given. *)
Class SortValues := sort_values : list (pystr * nat) -> list (pystr * nat).

(** What is known of it: the entries come out by decreasing count.  How
    entries of equal count are ordered is left open. *)
Definition sorts_by_count (f : list (pystr * nat) -> list (pystr * nat))
  : Prop :=
  (forall t, Permutation t (f t)) /\
  (forall t, StronglySorted count_ge (f t)).

(** A stable sort by decreasing count (the merge sort inside [nlargest]):
    entries of equal count keep their order. *)
Fixpoint insert_desc (x : pystr * nat) (t : list (pystr * nat))
  : list (pystr * nat) :=
  match t with
  | [] => [x]
  | y :: rest =>
      if (snd x <? snd y)%nat then y :: insert_desc x rest else x :: t
  end.

Definition stable_sort_desc (t : list (pystr * nat)) : list (pystr * nat) :=
  fold_right insert_desc [] t.

Section TopCities.

Context {S : SortValues}.

(** [Series.value_counts()]. *)
Definition value_counts (xs : list pystr) : list (pystr * nat) :=
  sort_values (count_table xs).

(** [Series.nlargest(n)] with [keep='first']: when [n] covers the whole
    series it is sorted again and cut; otherwise the [n] largest are taken,
    the first occurrences winning among equals. *)
Definition nlargest (n : nat) (t : list (pystr * nat)) : list (pystr * nat) :=
  if (List.length t <=? n)%nat then firstn n (sort_values t)
  else firstn n (stable_sort_desc t).

(** [city_df] of [plot_top_cities]: the columns [City] and [Deal Count]. *)
Definition city_df (df : list record) : list (pystr * nat) :=
  nlargest 10 (value_counts (List.map City df)).

End TopCities.

(* ================================================================== *)
(** * The page: [display_kpis], [plot_investment_pie] and [main] *)
(* ================================================================== *)

(** ** Python and pandas helpers of the page *)

(** Order of [str] values: code point by code point, a proper prefix
    first. *)
Fixpoint str_compare (a b : pystr) : comparison :=
  match a, b with
  | [], [] => Eq
  | [], _ :: _ => Lt
  | _ :: _, [] => Gt
  | x :: a', y :: b' =>
      match (x ?= y)%N with
      | Eq => str_compare a' b'
      | c => c
      end
  end.

(** [Series.unique()]: the values in order of first appearance. *)
Definition unique (xs : list pystr) : list pystr :=
  fold_left (fun seen x => if isin x seen then seen else seen ++ [x]) xs [].

(** [Series.nunique()] of a column of text. *)
Definition nunique (xs : list pystr) : nat := List.length (unique xs).

(** [sorted(...)] of a list of [str]: equal texts cannot be told apart, so
    the sorted list does not depend on the sorting method. *)
Fixpoint insort (x : pystr) (l : list pystr) : list pystr :=
  match l with
  | [] => [x]
  | y :: rest =>
      match str_compare x y with
      | Gt => y :: insort x rest
      | _ => x :: l
      end
  end.

Definition sorted (xs : list pystr) : list pystr := fold_right insort [] xs.

(** [df.empty]. *)
Definition empty {A} (df : list A) : bool :=
  match df with [] => true | _ :: _ => false end.

(** The floating-point reductions and the sort by amount are the
    library's: the order in which it adds the values of a column or of a
    group, and the order it gives to equal amounts, are not fixed by the
    source.  They are taken as given. *)
Class Pandas := {
  (** [Series.sum()] *)
  Series_sum : list float -> float;
  (** [Series.mean()] *)
  Series_mean : list float -> float;
  (** the total of one group of [groupby(...)[...].sum()], from the
      values of the group in row order *)
  GroupBy_sum : list float -> float;
  (** [sort_values('Amount', ascending=False)] *)
  sort_values_Amount : list (pystr * float) -> list (pystr * float)
}.

(** ** What the page shows *)

(** A figure handed to [st.plotly_chart], by the table it is drawn from;
    colours, fonts and axis titles are left out. *)
Inductive figure :=
| line (time_df : list (date * float))
| bar (city_df : list (pystr * nat))
| pie (pie_df : list (pystr * float)) (pull : list float).

(** The Streamlit calls of the page, in the order they are made.  The
    markup of a [st.markdown] call is named by what it shows; the widgets
    carry their arguments. *)
Inductive element :=
| markdown_title
| markdown_subtitle
| markdown_hr
| error (e : st_event)
| sidebar_header
| sidebar_slider_year (min_value max_value : Z) (value : Z * Z)
| sidebar_multiselect (options default : list pystr)
| sidebar_slider_funding (min_value max_value : float) (value : float * float)
| markdown_showing_results (startups : nat)
| warning_no_data
| columns (n : nat)
| markdown_total_funding (total_funding : float)
| markdown_total_startups (total_startups : nat)
| markdown_avg_investment (avg_funding : float)
| subheader (title : string)
| plotly_chart (fig : figure)
| markdown_footer.

(** What the three sidebar widgets return: the selection of the user, or
    nothing when the call raises.  Streamlit decides both. *)
Class Sidebar := {
  slider_year : Z -> Z -> Z * Z -> option (Z * Z);
  multiselect : list pystr -> list pystr -> option (list pystr);
  slider_funding : float -> float -> float * float -> option (float * float)
}.

(** ** A run of the page

    A computation draws elements and then goes on with a value, returns
    from [main], or raises. *)
Inductive flow (A : Type) :=
| Go (a : A)
| Return
| Raise.
Arguments Go {A}.
Arguments Return {A}.
Arguments Raise {A}.

Definition page (A : Type) : Type := list element * flow A.

Definition ret {A} (a : A) : page A := ([], Go a).

Definition bind {A B} (m : page A) (f : A -> page B) : page B :=
  match m with
  | (es, Go a) => let '(es', r) := f a in (es ++ es', r)
  | (es, Return) => (es, Return)
  | (es, Raise) => (es, Raise)
  end.

Notation "x <- m ;; k" := (bind m (fun x => k))
  (at level 61, m at next level, right associativity).
Notation "m ;; k" := (bind m (fun _ => k))
  (at level 61, right associativity).

(** One Streamlit call. *)
Definition st (e : element) : page unit := ([e], Go tt).

(** A widget call: the widget is drawn and gives its value, or the call
    raises. *)
Definition widget {A} (e : element) (answer : option A) : page A :=
  match answer with
  | Some a => ([e], Go a)
  | None => ([], Raise)
  end.

(** The [return] statement of [main]. *)
Definition return_ : page unit := ([], Return).

(** The double written [0.05]. *)
Definition pull_each : float := float_of_decimal false 5 (-2).

Section Page.

Context {R : FloatRepr} {S : SortValues} {P : Pandas} {W : Sidebar}.

(** ** [display_kpis] *)

Definition display_kpis (df : list record) : page unit :=
  let total_funding := Series_sum (List.map Amount df) in
  let total_startups := nunique (List.map Startup_Name df) in
  let avg_funding := Series_mean (List.map Amount df) in
  st (columns 3) ;;
  st (markdown_total_funding total_funding) ;;
  st (markdown_total_startups total_startups) ;;
  st (markdown_avg_investment avg_funding).

(** ** [plot_funding_trend] and [plot_top_cities]

    The tables are [time_df] and [city_df] above.  The column [Month_dt]
    that [plot_funding_trend] adds to the frame it is given is read by no
    later function. *)
Definition plot_funding_trend (df : list record) : page unit :=
  st (subheader "Funding Trend Over Time") ;;
  st (plotly_chart (line (time_df df))).

Definition plot_top_cities (df : list record) : page unit :=
  st (subheader "Top 10 Cities by Deal Count") ;;
  st (plotly_chart (bar (city_df df))).

(** ** [plot_investment_pie] *)

(** One row filed under its key; keys are kept in increasing order, the
    values of a key in row order. *)
Fixpoint group_append (k : pystr) (v : float)
    (acc : list (pystr * list float)) : list (pystr * list float) :=
  match acc with
  | [] => [(k, [v])]
  | (k', vs) :: rest =>
      match str_compare k k' with
      | Lt => (k, [v]) :: acc
      | Eq => (k', vs ++ [v]) :: rest
      | Gt => (k', vs) :: group_append k v rest
      end
  end.

(** [df.groupby('Investment Type')['Amount']]: the groups, sorted by
    key. *)
Definition groupby_Investment_Type (df : list record)
  : list (pystr * list float) :=
  fold_left (fun acc r => group_append (Investment_Type r) (Amount r) acc)
            df [].

(** [pie_df]: one row per investment type with its total, by decreasing
    total. *)
Definition pie_df (df : list record) : list (pystr * float) :=
  sort_values_Amount
    (List.map (fun g => (fst g, GroupBy_sum (snd g)))
              (groupby_Investment_Type df)).

Definition plot_investment_pie (df : list record) : page unit :=
  st (subheader "Funding Distribution by Investment Type") ;;
  let t := pie_df df in
  st (plotly_chart (pie t (repeat pull_each (List.length t)))).

(** ** [main] *)

(** The call of [load_data]: what it shows is shown on the page (the
    cache of [st.cache_data] replays it when it answers in its place). *)
Definition call_load_data (read_csv : option frame) : page (list record) :=
  let '(shown, l) := load_data read_csv in
  match l with
  | returns df => (List.map error shown, Go df)
  | raises _ => (List.map error shown, Raise)
  end.

Definition main (read_csv : option frame) : page unit :=
  st markdown_title ;;
  st markdown_subtitle ;;
  st markdown_hr ;;
  df <- call_load_data read_csv ;;
  if empty df then return_ else
  (* Sidebar filters *)
  st sidebar_header ;;
  let min_year := min_Z (List.map Year df) in
  let max_year := max_Z (List.map Year df) in
  year_range <-
    widget (sidebar_slider_year min_year max_year (min_year, max_year))
           (slider_year min_year max_year (min_year, max_year)) ;;
  let all_cities := sorted (unique (List.map City df)) in
  let default := [py "Bangalore"; py "Mumbai"; py "Delhi"] in
  selected_cities <-
    widget (sidebar_multiselect all_cities default)
           (multiselect all_cities default) ;;
  let min_amt := min_float (List.map Amount df) in
  let max_amt := max_float (List.map Amount df) in
  funding_range <-
    widget (sidebar_slider_funding min_amt max_amt (min_amt, max_amt))
           (slider_funding min_amt max_amt (min_amt, max_amt)) ;;
  let filtered := filtered_df df year_range selected_cities funding_range in
  st (markdown_showing_results (nunique (List.map Startup_Name filtered))) ;;
  st markdown_hr ;;
  if empty filtered then st warning_no_data ;; return_ else
  display_kpis filtered ;;
  st markdown_hr ;;
  (* Charts *)
  plot_funding_trend filtered ;;
  st markdown_hr ;;
  plot_top_cities filtered ;;
  st markdown_hr ;;
  plot_investment_pie filtered ;;
  st markdown_footer.

End Page.

(* ================================================================== *)
(** * The module as a script *)
(* ================================================================== *)

(** The statements at the top level of [dashboard.py], by the names they
    read and bind.  Arguments of the two calls are literals. *)
Inductive statement :=
| import_as (name : string)
| call_attr (obj attr : string)
| def (decorator : option (string * string)) (name : string)
| if_eq_call (name literal callee : string).

Inductive value :=
| Str (s : string)
| Module
| Function (name : string).

(** How a run of the script ends. *)
Inductive ending :=
| Finished
| NameError (name : string).

(** The calls made so far and the global names bound so far. *)
Record interpreter := mk_interpreter {
  calls : list string;
  globals : list (string * value)
}.

Fixpoint assoc (name : string) (env : list (string * value)) : option value :=
  match env with
  | [] => None
  | (k, v) :: rest => if String.eqb name k then Some v else assoc name rest
  end.

Definition is_Str (v : value) (s : string) : bool :=
  match v with Str t => String.eqb t s | _ => false end.

Section Script.

(** The names of the [builtins] module. *)
Variable builtins : list string.

(** Loading a name: the globals, then the builtins. *)
Definition load_name (name : string) (i : interpreter) : option value :=
  match assoc name (globals i) with
  | Some v => Some v
  | None => if existsb (String.eqb name) builtins then Some Module else None
  end.

Definition bind_name (name : string) (v : value) (i : interpreter)
  : interpreter :=
  mk_interpreter (calls i) ((name, v) :: globals i).

Definition log_call (callee : string) (i : interpreter) : interpreter :=
  mk_interpreter (calls i ++ [callee]) (globals i).

(** One statement: the interpreter after it, or the name that could not
    be loaded. *)
Definition exec (s : statement) (i : interpreter) : interpreter + string :=
  match s with
  | import_as name => inl (bind_name name Module i)
  | call_attr obj attr =>
      match load_name obj i with
      | Some _ => inl (log_call (obj ++ "." ++ attr) i)
      | None => inr obj
      end
  | def None name => inl (bind_name name (Function name) i)
  | def (Some (obj, attr)) name =>
      match load_name obj i with
      | Some _ => inl (bind_name name (Function name) i)
      | None => inr obj
      end
  | if_eq_call name literal callee =>
      match load_name name i with
      | None => inr name
      | Some v =>
          if is_Str v literal then
            match load_name callee i with
            | Some _ => inl (log_call callee i)
            | None => inr callee
            end
          else inl i
      end
  end.

Fixpoint run (body : list statement) (i : interpreter)
  : list string * ending :=
  match body with
  | [] => (calls i, Finished)
  | s :: rest =>
      match exec s i with
      | inl i' => run rest i'
      | inr name => (calls i, NameError name)
      end
  end.

End Script.

(** The body of [dashboard.py]. *)
Definition dashboard : list statement :=
  [ import_as "st"; import_as "pd"; import_as "np"; import_as "px";
    import_as "datetime";
    call_attr "st" "set_page_config";
    call_attr "st" "markdown";
    def (Some ("st", "cache_data")) "load_data";
    def None "display_kpis";
    def None "plot_funding_trend";
    def None "plot_top_cities";
    def None "plot_investment_pie";
    def None "main";
    if_eq_call "_name_" "_main_" "main" ]%string.

(** The interpreter when the script starts: [__name__] is ["__main__"]. *)
Definition at_start : interpreter :=
  mk_interpreter [] [("__name__", Str "__main__")]%string.

(* ================================================================== *)
(** * Notions used to state the properties *)
(* ================================================================== *)

(** ** The cleaned frame, row by row *)

Definition olist {A} (o : option A) : list A :=
  match o with Some x => [x] | None => [] end.

(** A rendering of doubles for frames whose cells are text or missing:
    [str_of_cell] then never asks for it. *)
Definition no_numeric_text : FloatRepr := fun _ => [].

Section CleanedFrameNotions.

Context {R : FloatRepr}.

(** The records of the frame that a call gave: none when it raised. *)
Definition frame_of (l : loaded) : list record :=
  match l with
  | returns df => df
  | raises _ => []
  end.

(** The records that [load_data] returns for a frame that was read; none
    when it raises. *)
Definition dataset (data : frame) : list record :=
  frame_of (snd (load_data (Some data))).

(** A row passes the Amount stage when its cleaned amount is a number
    above 0. *)
Definition amount_kept (r : list cell) : bool :=
  let a := clean_amount (nth 20 r missing) in
  negb (isnan a) && flt (float_of_Z 0) a.

(** The way of one row through the stages of [load_data]: what it
    contributes to the cleaned frame. *)
Definition clean_row (r : list cell) : option record :=
  let a := clean_amount (nth 20 r missing) in
  if negb (isnan a) && flt (float_of_Z 0) a then
    match clean_date (nth 13 r missing) with
    | Some d =>
        if flt a (float_of_Z 1000) then
          Some (mkRow d (clean_text (nth 14 r missing))
                        (clean_text (nth 15 r missing))
                        (replace_exact city_table (clean_text (nth 17 r missing)))
                        (replace_exact investment_table (clean_text (nth 19 r missing)))
                        a (year d) (period_str d))
        else None
    | None => None
    end
  else None.

End CleanedFrameNotions.

(** ** Amounts *)

(** [u] occurs in [s] when case is ignored: some run of [s] lower-cases
    to [u]. *)
Definition occurs_ci (u s : pystr) : Prop :=
  exists l t r, s = l ++ t ++ r /\ lower t = u.

(** The characters the tokens are written with. *)
Definition token_char (x : pychar) : bool := in_range 97 122 x || (x =? 47)%N.

(** ** The order of doubles, read off their representation *)

Definition frank (x : float) : Z * Z * Z :=
  match x with
  | S754_infinity true => (-2, 0, 0)
  | S754_finite true m e => (-1, - e, Zneg m)
  | S754_zero _ => (0, 0, 0)
  | S754_nan => (0, 0, 0)
  | S754_finite false m e => (1, e, Zpos m)
  | S754_infinity false => (2, 0, 0)
  end.

Definition lex_le (a b : Z * Z * Z) : Prop :=
  let '(a1, a2, a3) := a in
  let '(b1, b2, b3) := b in
  a1 < b1 \/ (a1 = b1 /\ (a2 < b2 \/ (a2 = b2 /\ a3 <= b3))).

Definition lex_lt (a b : Z * Z * Z) : Prop :=
  let '(a1, a2, a3) := a in
  let '(b1, b2, b3) := b in
  a1 < b1 \/ (a1 = b1 /\ (a2 < b2 \/ (a2 = b2 /\ a3 < b3))).

(** ** Date texts *)

(** The text cut at each occurrence of a separator. *)
Fixpoint split_on (sep : pychar) (s : pystr) : list pystr :=
  match s with
  | [] => [[]]
  | c :: rest =>
      if (c =? sep)%N then [] :: split_on sep rest
      else match split_on sep rest with
           | w :: ws => (c :: w) :: ws
           | [] => [[c]]
           end
  end.

Definition int_of_digits (g : pystr) : Z := Z.of_N (N_of_digits g).

(** Exactly two digits, a slash, two digits, a slash, four digits. *)
Definition is_DD_MM_YYYY (s : pystr) : bool :=
  match s with
  | [d1; d2; s1; m1; m2; s2; y1; y2; y3; y4] =>
      forallb isdigit [d1; d2; m1; m2; y1; y2; y3; y4]
      && (s1 =? code "/")%N && (s2 =? code "/")%N
  | _ => false
  end.

(** One or two digits. *)
Definition short_number (g : pystr) : bool :=
  ((List.length g =? 1)%nat || (List.length g =? 2)%nat) && forallb isdigit g.

(** A day and a month of one or two digits and a year of four, separated
    by slashes, naming a day of the calendar. *)
Definition parse_D_M_YYYY (s : pystr) : option date :=
  match split_on (code "/") s with
  | [d; m; y] =>
      if short_number d && short_number m
         && (List.length y =? 4)%nat && forallb isdigit y
      then mk_datetime (int_of_digits y) (int_of_digits m) (int_of_digits d)
      else None
  | _ => None
  end.

(** The year written in a period text: the number before the dash. *)
Definition year_of_period (s : pystr) : Z :=
  match split_on (code "-") s with
  | y :: _ => int_of_digits y
  | [] => 0
  end.

Definition no_leading_blank (s : pystr) : Prop :=
  match s with c :: _ => isspace c = false | [] => True end.

(** The first day of the month of a date. *)
Definition month_start (d : date) : date := mkdate (year d) (month d) 1.

Definition date_eqb (a b : date) : bool :=
  match date_compare a b with Eq => true | _ => false end.

Definition date_lt (a b : date) : Prop := date_compare a b = Lt.

(** ** The shape of what [strip] and [title] return *)

(** [strip] takes the characters of [isspace] off both ends. *)
Definition strip_spec (s t : pystr) : Prop :=
  exists l r, s = l ++ t ++ r /\
              forallb isspace l = true /\ forallb isspace r = true /\
              no_leading_blank t /\ no_leading_blank (rev t).

(** [title] walks through the runs of cased characters. *)
Inductive title_spec : pystr -> pystr -> Prop :=
| TS_nil : title_spec [] []
| TS_other c s t :
    iscased c = false -> title_spec s t -> title_spec (c :: s) (c :: t)
| TS_word c w s t :
    iscased c = true -> forallb iscased w = true ->
    match s with x :: _ => iscased x = false | [] => True end ->
    title_spec s t ->
    title_spec (c :: w ++ s) (title_char c ++ List.map lower_char w ++ t).

(** ** The text rules, in words *)

(** The blanks of Latin-1: tab, line feed, vertical tab, form feed,
    carriage return, the four separators, the space, next line and the
    no-break space. *)
Definition blanks : list pychar :=
  [9; 10; 11; 12; 13; 28; 29; 30; 31; 32; 133; 160]%N.

Definition blank (c : pychar) : bool := existsb (N.eqb c) blanks.

Definition starts_clear (s : pystr) : Prop :=
  match s with c :: _ => blank c = false | [] => True end.

(** [t] is [s] without the blanks around it. *)
Definition Trimmed (s t : pystr) : Prop :=
  exists l r, s = l ++ t ++ r /\
              forallb blank l = true /\ forallb blank r = true /\
              starts_clear t /\ starts_clear (rev t).

(** The letters of Latin-1 that come in two cases, the small letter
    first: a to z, and the accented letters from a-grave to thorn. *)
Definition letter_pairs : list (pychar * pychar) :=
  Eval cbv in
    (combine (py "abcdefghijklmnopqrstuvwxyz")
             (py "ABCDEFGHIJKLMNOPQRSTUVWXYZ") ++
     [(224, 192); (225, 193); (226, 194); (227, 195); (228, 196);
     (229, 197); (230, 198); (231, 199); (232, 200); (233, 201);
     (234, 202); (235, 203); (236, 204); (237, 205); (238, 206);
     (239, 207); (240, 208); (241, 209); (242, 210); (243, 211);
     (244, 212); (245, 213); (246, 214); (248, 216); (249, 217);
     (250, 218); (251, 219); (252, 220); (253, 221); (254, 222)]%N).

(** The small letters without a capital in Latin-1: the two ordinal
    indicators, the micro sign, sharp s and y-diaeresis. *)
Definition lone_letters : list pychar := [170; 181; 186; 223; 255]%N.

Definition letter (c : pychar) : bool :=
  existsb (fun p => (c =? fst p)%N || (c =? snd p)%N) letter_pairs
  || existsb (N.eqb c) lone_letters.

(** The capital of a letter as a title has it: the capital of the pair;
    the Greek capital Mu for the micro sign and the capital y-diaeresis,
    both beyond Latin-1; "Ss" for sharp s.  Any other character is
    kept. *)
Definition capital (c : pychar) : pystr :=
  match find (fun p => (c =? fst p)%N) letter_pairs with
  | Some p => [snd p]
  | None =>
      if (c =? 181)%N then [924%N]
      else if (c =? 223)%N then [83%N; 115%N]
      else if (c =? 255)%N then [376%N]
      else [c]
  end.

(** The small letter of a capital; any other character is kept. *)
Definition small (c : pychar) : pychar :=
  match find (fun p => (c =? snd p)%N) letter_pairs with
  | Some p => fst p
  | None => c
  end.

(** Title case: a word is a run of letters that no letter precedes or
    follows; its first letter is turned into its capital and the others
    into small letters, and what is no letter is kept.  So a letter after
    an apostrophe, a digit or a hyphen begins a word. *)
Inductive TitleCased : pystr -> pystr -> Prop :=
| TC_nil : TitleCased [] []
| TC_other c s t :
    letter c = false -> TitleCased s t -> TitleCased (c :: s) (c :: t)
| TC_word c w s t :
    letter c = true -> forallb letter w = true ->
    match s with x :: _ => letter x = false | [] => True end ->
    TitleCased s t ->
    TitleCased (c :: w ++ s) (capital c ++ List.map small w ++ t).






(** "Nan" and "N/A" become "Other". *)
Definition nan_to_other (t : pystr) : pystr :=
  if str_eqb t (py "Nan") || str_eqb t (py "N/A") then py "Other" else t.


Section TextNotions.

Context {R : FloatRepr}.

(** The normalised text of a cell: trimmed, title-cased, "Nan" and "N/A"
    turned into "Other". *)
Definition Normalized (c : cell) (out : pystr) : Prop :=
  exists t u, Trimmed (str_of_cell c) t /\ TitleCased t u /\
              out = nan_to_other u.


End TextNotions.


(** ** Monthly totals *)

(** The amounts filed under key [k], in row order. *)
Definition group_values (k : date) (rows : list (option date * float))
  : list float :=
  List.map snd
    (List.filter (fun kv => match fst kv with
                            | Some k' => date_eqb k k'
                            | None => false
                            end) rows).

(** Accumulation from 0.0 in row order. *)
Definition fsum (xs : list float) : float := fold_left fadd xs fzero.

Fixpoint lookup {V} (k : date) (acc : list (date * V)) : option V :=
  match acc with
  | [] => None
  | (k', t) :: rest => if date_eqb k k' then Some t else lookup k rest
  end.

Definition keys_increasing {V} (acc : list (date * V)) : Prop :=
  StronglySorted (fun a b => date_lt (fst a) (fst b)) acc.

(** The row's [Month_dt] is [k]. *)
Definition in_group (k : date) (r : record) : bool :=
  match to_datetime (Month r) with
  | Some k' => date_eqb k k'
  | None => false
  end.

(** The row's period text is that of [k]. *)
Definition in_period (k : date) (r : record) : bool :=
  str_eqb (Month r) (period_str k).

(** [time_df] with each key written as its period text. *)
Definition period_totals (S : list record) : list (pystr * float) :=
  List.map (fun kt => (period_str (fst kt), snd kt)) (time_df S).

(** ** Deal counts *)

(** The number of rows of a city. *)
Definition deal_count (c : pystr) (xs : list pystr) : nat :=
  List.length (List.filter (str_eqb c) xs).

Fixpoint clookup (c : pystr) (t : list (pystr * nat)) : option nat :=
  match t with
  | [] => None
  | (k, n) :: rest => if str_eqb c k then Some n else clookup c rest
  end.

(** The stable sort taken as the sorting method. *)
Definition stable_sort : SortValues := stable_sort_desc.

Definition Bangalore : pystr := py "Bangalore".
Definition Mumbai : pystr := py "Mumbai".
Definition Delhi : pystr := py "Delhi".

(** ** Sample frames *)

Definition text (s : string) : cell := CStr (py s).

(** A row of 21 cells with the six columns of interest filled in. *)
Definition raw_row (date name sector city kind amount : cell) : list cell :=
  repeat missing 13 ++ [date; name; sector; missing; city; missing; kind; amount].

(** Two deals in January 2015, of one and two million dollars, and one in
    February of three. *)
Definition three_deals : frame :=
  mkframe 21
    [ raw_row (text "04/01/2015") (text "ABC Tech") (text "Tech")
              (text "Bengaluru") (text "Seed/ Angel Funding") (text "1000000");
      raw_row (text "20/01/2015") (text "flipkart") (text "e-commerce")
              (text " new delhi ") (text "private equity") (text "2,000,000");
      raw_row (text "10/02/2015") missing (text "n/a ")
              (text "Mumbai") (text "Seed Funding") (text "$3000000") ].

(** The record that the first row of [three_deals] gives. *)
Definition first_deal : record :=
  {| Date := mkdate 2015 1 4; Startup_Name := py "Abc Tech";
     Sector := py "Tech"; City := py "Bangalore";
     Investment_Type := py "Seed/Angel Funding"; Amount := float_of_Z 1;
     Year := 2015; Month := py "2015-01" |}.

(** Thirteen deals: five in Bangalore, five in Mumbai, three in Delhi. *)
Definition city_deal (city : string) : list cell :=
  raw_row (text "04/01/2015") (text "Acme") (text "Tech") (text city)
          (text "Seed Funding") (text "1000000").

Definition thirteen_deals : frame :=
  mkframe 21
    (List.map city_deal
       ["Delhi"; "Mumbai"; "Bangalore"; "Bangalore"; "Mumbai"; "Delhi";
        "Bangalore"; "Mumbai"; "Mumbai"; "Bangalore"; "Delhi"; "Bangalore";
        "Mumbai"]%string).

(** ** Texts, distinct values and counts *)

(** Text of ASCII characters only. *)
Definition is_ascii (s : pystr) : bool := forallb (fun c => (c <? 128)%N) s.

(** One step of [unique]. *)
Definition unique_step (seen : list pystr) (x : pystr) : list pystr :=
  if isin x seen then seen else seen ++ [x].

(** Not after, in the order of texts. *)
Definition str_le (a b : pystr) : Prop := str_compare a b <> Gt.

(** The deals of a table of deal counts, all together. *)
Definition deal_total (t : list (pystr * nat)) : nat :=
  fold_right (fun kn acc => (snd kn + acc)%nat) 0%nat t.

(** ** The pie of investment types *)

(** The values filed under a key. *)
Fixpoint glookup (k : pystr) (acc : list (pystr * list float))
  : option (list float) :=
  match acc with
  | [] => None
  | (k', vs) :: rest => if str_eqb k k' then Some vs else glookup k rest
  end.

Definition gkeys_increasing (acc : list (pystr * list float)) : Prop :=
  StronglySorted (fun a b => str_compare (fst a) (fst b) = Lt) acc.

(** The amounts of the rows of one investment type, in row order. *)
Definition amounts_of (k : pystr) (df : list record) : list float :=
  List.map Amount (List.filter (fun r => str_eqb (Investment_Type r) k) df).

(** A sample of the library's methods: the sum of a column from 0.0 in
    row order, the mean as the sum over the count, the total of a group
    with the compensation of the grouped sum, and a stable sort by
    decreasing amount. *)
Fixpoint insert_amount (x : pystr * float) (t : list (pystr * float))
  : list (pystr * float) :=
  match t with
  | [] => [x]
  | y :: rest =>
      if flt (snd x) (snd y) then y :: insert_amount x rest else x :: t
  end.

Definition row_order_sums : Pandas := {|
  Series_sum := fsum;
  Series_mean := fun xs =>
    fdiv (fsum xs) (float_of_Z (Z.of_nat (List.length xs)));
  GroupBy_sum := kahan_sum;
  sort_values_Amount := fold_right insert_amount []
|}.

(** ** The page of [main] *)

(** The elements every run starts with. *)
Definition header : list element :=
  [markdown_title; markdown_subtitle; markdown_hr].

(** The cities selected before the user changes the selection. *)
Definition default_cities : list pystr :=
  [py "Bangalore"; py "Mumbai"; py "Delhi"].

(** The sidebar over a frame: its heading and its three widgets. *)
Definition sidebar_of (df : list record) : list element :=
  [ sidebar_header;
    sidebar_slider_year (min_Z (List.map Year df)) (max_Z (List.map Year df))
                        (full_year_range df);
    sidebar_multiselect (sorted (unique (List.map City df))) default_cities;
    sidebar_slider_funding (min_float (List.map Amount df))
                           (max_float (List.map Amount df))
                           (full_funding_range df) ].

(** A metric or a chart that has something to show. *)
Definition well_filled (e : element) : Prop :=
  match e with
  | markdown_total_startups n => (1 <= n)%nat
  | plotly_chart (line t) => t <> []
  | plotly_chart (bar t) => t <> []
  | plotly_chart (pie t pull) => t <> [] /\ List.length pull = List.length t
  | _ => True
  end.

(** A sidebar in which the user has removed every city.  Streamlit
    refuses a slider whose least value is not below its greatest. *)
Definition no_city_selected : Sidebar := {|
  slider_year := fun min_value max_value value =>
    if min_value <? max_value then Some value else None;
  multiselect := fun _ _ => Some [];
  slider_funding := fun min_value max_value value =>
    if flt min_value max_value then Some value else None
|}.

(** A sidebar on the first run: every widget gives its default.
    Streamlit refuses a slider whose least value is not below its
    greatest, and a default city that is not among the options. *)
Definition first_run : Sidebar := {|
  slider_year := fun min_value max_value value =>
    if min_value <? max_value then Some value else None;
  multiselect := fun options default =>
    if forallb (fun c => isin c options) default then Some default else None;
  slider_funding := fun min_value max_value value =>
    if flt min_value max_value then Some value else None
|}.

Section PageNotions.

Context {R : FloatRepr} {S : SortValues} {P : Pandas}.

(** What [main] shows below the sidebar for the rows selected. *)
Definition results (filtered : list record) : page unit :=
  st (markdown_showing_results (nunique (List.map Startup_Name filtered))) ;;
  st markdown_hr ;;
  if empty filtered then st warning_no_data ;; return_ else
  display_kpis filtered ;;
  st markdown_hr ;;
  plot_funding_trend filtered ;;
  st markdown_hr ;;
  plot_top_cities filtered ;;
  st markdown_hr ;;
  plot_investment_pie filtered ;;
  st markdown_footer.

End PageNotions.

(** Two rows with the same cells in the six columns that [load_data]
    reads. *)
Definition same_six_columns (r r' : list cell) : Prop :=
  Forall (fun i => nth i r missing = nth i r' missing)
         [13; 14; 15; 17; 19; 20]%nat.

(** A frame with one deal, in a city that is not among the default
    cities. *)
Definition one_city_frame : frame := mkframe 21 [city_deal "Pune"].

(** Four deals in four cities, over three years, of one to four million
    dollars. *)
Definition four_cities : frame :=
  mkframe 21
    [ raw_row (text "04/01/2015") (text "Acme") (text "Tech")
              (text "Bangalore") (text "Seed Funding") (text "1000000");
      raw_row (text "20/03/2016") (text "Bolt") (text "Tech")
              (text "Mumbai") (text "Seed Funding") (text "2000000");
      raw_row (text "10/02/2016") (text "Cargo") (text "Logistics")
              (text "Delhi") (text "Private Equity") (text "3000000");
      raw_row (text "05/07/2017") (text "Dune") (text "Tech")
              (text "Pune") (text "Seed Funding") (text "4000000") ].

(** Two deals in Pune, in two years, of one and two million dollars. *)
Definition two_in_pune : frame :=
  mkframe 21
    [ raw_row (text "04/01/2015") (text "Acme") (text "Tech")
              (text "Pune") (text "Seed Funding") (text "1000000");
      raw_row (text "20/03/2016") (text "Bolt") (text "Tech")
              (text "Pune") (text "Seed Funding") (text "2000000") ].

(** Two deals in Pune of one million dollars each, in two years. *)
Definition one_amount : frame :=
  mkframe 21
    [ raw_row (text "04/01/2015") (text "Acme") (text "Tech")
              (text "Pune") (text "Seed Funding") (text "1000000");
      raw_row (text "20/03/2016") (text "Bolt") (text "Tech")
              (text "Pune") (text "Seed Funding") (text "1000000") ].

(** A frame of 21 columns whose only row has no amount to read. *)
Definition no_amount : frame :=
  mkframe 21
    [ raw_row (text "04/01/2015") (text "Acme") (text "Tech")
              (text "Pune") (text "Seed Funding") (text "undisclosed") ].

(** A frame of 21 columns whose only row has no date to read. *)
Definition no_date : frame :=
  mkframe 21
    [ raw_row (text "2015") (text "Acme") (text "Tech")
              (text "Pune") (text "Seed Funding") (text "1000000") ].

(* ================================================================== *)
(** * Properties *)
(* ================================================================== *)

(** ** Text *)

Example title_abc_tech : title (py "abc tech") = py "Abc Tech".
Proof. reflexivity. Qed.

Example title_inner_words :
  title (py "it's 3d e-commerce") = py "It'S 3D E-Commerce".
Proof. reflexivity. Qed.

Example strip_blanks : strip (py "  a b  ") = py "a b".
Proof. reflexivity. Qed.

(** Boolean tests on code points as arithmetic facts. *)
Ltac bprop :=
  unfold in_range in *;
  repeat (rewrite ?orb_true_iff, ?andb_true_iff, ?negb_true_iff,
            ?orb_false_iff, ?andb_false_iff, ?negb_false_iff,
            ?N.leb_le, ?N.leb_gt, ?N.eqb_eq, ?N.eqb_neq,
            ?N.ltb_lt, ?N.ltb_ge in *).

Lemma startswith_app u s : startswith u (u ++ s) = true.
Proof.
  induction u as [|a u IH]; [reflexivity|].
  simpl. rewrite N.eqb_refl. exact IH.
Qed.

Lemma startswith_inv u s : startswith u s = true -> exists r, s = u ++ r.
Proof.
  revert s. induction u as [|a u IH]; intros s H.
  - exists s. reflexivity.
  - destruct s as [|b s]; [discriminate|]. simpl in H.
    apply andb_true_iff in H. destruct H as [Hab H].
    apply N.eqb_eq in Hab. subst b.
    destruct (IH _ H) as [r ->]. exists r. reflexivity.
Qed.

Lemma contains_infix u l r : contains u (l ++ u ++ r) = true.
Proof.
  induction l as [|c l IH].
  - simpl. destruct (u ++ r) eqn:E; simpl;
      rewrite <- E, startswith_app; reflexivity.
  - simpl app. simpl. rewrite IH. apply orb_true_r.
Qed.

Lemma contains_inv u s :
  contains u s = true -> exists l r, s = l ++ u ++ r.
Proof.
  induction s as [|c s IH]; simpl; intros H.
  - rewrite orb_false_r in H. apply startswith_inv in H.
    destruct H as [r ->]. exists [], r. reflexivity.
  - apply orb_true_iff in H. destruct H as [H|H].
    + apply startswith_inv in H. destruct H as [r ->]. exists [], r. reflexivity.
    + destruct (IH H) as (l & r & ->). exists (c :: l), r. reflexivity.
Qed.

Lemma remove_char_app c a b :
  remove_char c (a ++ b) = remove_char c a ++ remove_char c b.
Proof. apply filter_app. Qed.

Lemma remove_char_absent c t :
  Forall (fun x => x <> c) t -> remove_char c t = t.
Proof.
  induction 1 as [|x t Hx _ IH]; [reflexivity|].
  unfold remove_char in *. simpl.
  destruct (N.eqb_spec x c); [contradiction|]. simpl. now rewrite IH.
Qed.

Lemma lstrip_keeps l c x :
  isspace c = false -> exists l', lstrip (l ++ c :: x) = l' ++ c :: x.
Proof.
  intros Hc. induction l as [|a l IH]; simpl.
  - rewrite Hc. exists []. reflexivity.
  - destruct (isspace a).
    + exact IH.
    + exists (a :: l). reflexivity.
Qed.

Lemma strip_keeps l t r :
  t <> [] -> Forall (fun c => isspace c = false) t ->
  exists l' r', strip (l ++ t ++ r) = l' ++ t ++ r'.
Proof.
  intros Hne Ht. unfold strip, rstrip.
  destruct t as [|c t]; [contradiction|].
  destruct (lstrip_keeps l c (t ++ r)) as [l' El].
  { now inversion Ht. }
  simpl app in *. rewrite El.
  (* the last character of the kept part *)
  destruct (@exists_last _ (c :: t)) as (t0 & z & Et); [discriminate|].
  assert (Hz : isspace z = false).
  { rewrite Et in Ht. apply Forall_app in Ht. destruct Ht as [_ Hz].
    now inversion Hz. }
  replace (l' ++ c :: t ++ r) with ((l' ++ t0) ++ z :: r).
  2:{ change (c :: t ++ r) with ((c :: t) ++ r). rewrite Et.
      repeat rewrite <- app_assoc. reflexivity. }
  rewrite rev_app_distr. simpl rev. rewrite <- app_assoc. simpl app.
  destruct (lstrip_keeps (rev r) z (rev (l' ++ t0)) Hz) as [r' Er].
  rewrite Er. rewrite rev_app_distr. simpl rev. rewrite rev_involutive.
  exists l', (rev r').
  change (c :: t ++ rev r') with ((c :: t) ++ rev r'). rewrite Et.
  repeat rewrite <- app_assoc. reflexivity.
Qed.

Lemma lower_app a b : lower (a ++ b) = lower a ++ lower b.
Proof. apply map_app. Qed.

Lemma token_char_source c :
  token_char (lower_char c) = true ->
  c <> code "," /\ c <> code "$" /\ isspace c = false.
Proof.
  unfold token_char, lower_char, code. simpl N_of_ascii.
  intros H.
  assert (Hc : (65 <= c <= 122 \/ c = 47 \/ 192 <= c <= 222)%N).
  { destruct (isupper c) eqn:Eu; unfold isupper in Eu; bprop; lia. }
  clear H. repeat split; try lia.
  unfold isspace. bprop. lia.
Qed.

Lemma tokens_chars u : In u tokens -> forallb token_char u = true /\ u <> [].
Proof.
  intros H. unfold tokens in H. simpl in H.
  repeat (destruct H as [<-|H]; [split; [reflexivity|discriminate]|]).
  contradiction.
Qed.

Lemma token_found u s :
  In u tokens -> occurs_ci u s -> contains u (amount_text s) = true.
Proof.
  intros Hu (l & t & r & -> & Ht).
  destruct (tokens_chars u Hu) as [Hchars Hne].
  assert (Hsrc : Forall (fun c => c <> code "," /\ c <> code "$" /\ isspace c = false) t).
  { subst u. clear -Hchars. induction t as [|c t IH]; constructor.
    - simpl in Hchars. apply andb_true_iff in Hchars.
      apply token_char_source. tauto.
    - apply IH. simpl in Hchars. apply andb_true_iff in Hchars. tauto. }
  unfold amount_text.
  repeat rewrite remove_char_app.
  rewrite (remove_char_absent (code ",") t).
  2:{ eapply Forall_impl; [|exact Hsrc]. simpl. tauto. }
  rewrite (remove_char_absent (code "$") t).
  2:{ eapply Forall_impl; [|exact Hsrc]. simpl. tauto. }
  destruct (strip_keeps (remove_char (code "$") (remove_char (code ",") l)) t
              (remove_char (code "$") (remove_char (code ",") r)))
    as (l' & r' & E).
  { intros ->. apply Hne. now subst u. }
  { eapply Forall_impl; [|exact Hsrc]. simpl. tauto. }
  rewrite E. repeat rewrite lower_app. rewrite Ht. apply contains_infix.
Qed.

(** ** The order of doubles *)

(** Case analysis on two doubles and on the comparisons of their
    exponents and mantissas. *)
Ltac float_cases x y :=
  destruct x as [[|]|[|]| |[|] ? ?], y as [[|]|[|]| |[|] ? ?];
  unfold fle, flt, SFleb, SFltb, SFcompare, frank, lex_le, lex_lt, isnan;
  try change (Pos.compare_cont Eq ?a ?b) with (Pos.compare a b);
  repeat match goal with
  | |- context [Z.compare ?a ?b] => destruct (Z.compare_spec a b)
  | |- context [Pos.compare ?a ?b] => destruct (Pos.compare_spec a b)
  end; simpl.

Lemma fle_rank x y :
  fle x y = true <->
  isnan x = false /\ isnan y = false /\ lex_le (frank x) (frank y).
Proof.
  float_cases x y; split; intros Hyp; try discriminate;
    try (repeat split; try reflexivity; lia);
    try (destruct Hyp as (Hx & Hy & Hr); try discriminate; lia).
Qed.

Lemma flt_rank x y :
  flt x y = true <->
  isnan x = false /\ isnan y = false /\ lex_lt (frank x) (frank y).
Proof.
  float_cases x y; split; intros Hyp; try discriminate;
    try (repeat split; try reflexivity; lia);
    try (destruct Hyp as (Hx & Hy & Hr); try discriminate; lia).
Qed.

Lemma fle_refl x : isnan x = false -> fle x x = true.
Proof.
  intros Hx. apply fle_rank. repeat split; try assumption.
  destruct (frank x) as [[a b] c]. simpl. lia.
Qed.

Lemma fle_trans x y z : fle x y = true -> fle y z = true -> fle x z = true.
Proof.
  rewrite !fle_rank. intros (Hx & Hy & Hxy) (_ & Hz & Hyz).
  repeat split; try assumption.
  destruct (frank x) as [[a1 a2] a3], (frank y) as [[b1 b2] b3],
           (frank z) as [[c1 c2] c3]. simpl in *. lia.
Qed.

Lemma flt_fle x y : flt x y = true -> fle x y = true.
Proof.
  rewrite flt_rank, fle_rank. intros (Hx & Hy & Hxy).
  repeat split; try assumption.
  destruct (frank x) as [[a1 a2] a3], (frank y) as [[b1 b2] b3].
  simpl in *. lia.
Qed.

Lemma flt_false_fle x y :
  isnan x = false -> isnan y = false -> flt y x = false -> fle x y = true.
Proof.
  intros Hx Hy H. apply fle_rank. repeat split; try assumption.
  assert (Hn : ~ lex_lt (frank y) (frank x)).
  { intros Hlt. assert (flt y x = true) by (apply flt_rank; tauto). congruence. }
  destruct (frank x) as [[a1 a2] a3], (frank y) as [[b1 b2] b3].
  simpl in *. lia.
Qed.

Lemma flt_not_nan x y : flt x y = true -> isnan x = false /\ isnan y = false.
Proof. rewrite flt_rank. tauto. Qed.

Lemma fmin_spec a b :
  isnan a = false -> isnan b = false ->
  isnan (fmin a b) = false /\ fle (fmin a b) a = true /\ fle (fmin a b) b = true.
Proof.
  intros Ha Hb. unfold fmin. destruct (flt b a) eqn:E.
  - repeat split; auto using flt_fle, fle_refl.
  - repeat split; auto using flt_false_fle, fle_refl.
Qed.

Lemma fmax_spec a b :
  isnan a = false -> isnan b = false ->
  isnan (fmax a b) = false /\ fle a (fmax a b) = true /\ fle b (fmax a b) = true.
Proof.
  intros Ha Hb. unfold fmax. destruct (flt a b) eqn:E.
  - repeat split; auto using flt_fle, fle_refl.
  - repeat split; auto using flt_false_fle, fle_refl.
Qed.

Lemma fold_fmin_spec rest : forall m,
  isnan m = false -> Forall (fun x => isnan x = false) rest ->
  isnan (fold_left fmin rest m) = false /\
  fle (fold_left fmin rest m) m = true /\
  (forall x, In x rest -> fle (fold_left fmin rest m) x = true).
Proof.
  induction rest as [|y rest IH]; intros m Hm Hrest; simpl.
  - repeat split; auto using fle_refl; try contradiction.
  - inversion Hrest as [|? ? Hy Hrest']; subst.
    destruct (fmin_spec m y Hm Hy) as (Hn & H1 & H2).
    destruct (IH (fmin m y) Hn Hrest') as (Hn' & H3 & H4).
    repeat split; [assumption|eauto using fle_trans|].
    intros x [<-|Hx]; eauto using fle_trans.
Qed.

Lemma fold_fmax_spec rest : forall m,
  isnan m = false -> Forall (fun x => isnan x = false) rest ->
  isnan (fold_left fmax rest m) = false /\
  fle m (fold_left fmax rest m) = true /\
  (forall x, In x rest -> fle x (fold_left fmax rest m) = true).
Proof.
  induction rest as [|y rest IH]; intros m Hm Hrest; simpl.
  - repeat split; auto using fle_refl; try contradiction.
  - inversion Hrest as [|? ? Hy Hrest']; subst.
    destruct (fmax_spec m y Hm Hy) as (Hn & H1 & H2).
    destruct (IH (fmax m y) Hn Hrest') as (Hn' & H3 & H4).
    repeat split; [assumption|eauto using fle_trans|].
    intros x [<-|Hx]; eauto using fle_trans.
Qed.

Lemma min_float_le xs x :
  Forall (fun x => isnan x = false) xs -> In x xs ->
  fle (min_float xs) x = true.
Proof.
  intros Hxs Hx. destruct xs as [|m rest]; [contradiction|].
  inversion Hxs as [|? ? Hm Hrest]; subst. simpl.
  destruct (fold_fmin_spec rest m Hm Hrest) as (_ & Hle & Hall).
  destruct Hx as [<-|Hx]; auto.
Qed.

Lemma max_float_ge xs x :
  Forall (fun x => isnan x = false) xs -> In x xs ->
  fle x (max_float xs) = true.
Proof.
  intros Hxs Hx. destruct xs as [|m rest]; [contradiction|].
  inversion Hxs as [|? ? Hm Hrest]; subst. simpl.
  destruct (fold_fmax_spec rest m Hm Hrest) as (_ & Hle & Hall).
  destruct Hx as [<-|Hx]; auto.
Qed.

Lemma fold_min_Z_le rest : forall m x,
  x = m \/ In x rest -> fold_left Z.min rest m <= x.
Proof.
  induction rest as [|y rest IH]; intros m x H; simpl.
  - destruct H as [->|[]]. lia.
  - destruct H as [->|[<-|H]].
    + transitivity (Z.min m y); [apply IH; auto | lia].
    + transitivity (Z.min m y); [apply IH; auto | lia].
    + apply IH; auto.
Qed.

Lemma fold_max_Z_ge rest : forall m x,
  x = m \/ In x rest -> x <= fold_left Z.max rest m.
Proof.
  induction rest as [|y rest IH]; intros m x H; simpl.
  - destruct H as [->|[]]. lia.
  - destruct H as [->|[<-|H]].
    + transitivity (Z.max m y); [lia | apply IH; auto].
    + transitivity (Z.max m y); [lia | apply IH; auto].
    + apply IH; auto.
Qed.

Lemma min_Z_le xs x : In x xs -> min_Z xs <= x.
Proof.
  destruct xs as [|m rest]; [contradiction|].
  intros [<-|H]; apply fold_min_Z_le; auto.
Qed.

Lemma max_Z_ge xs x : In x xs -> x <= max_Z xs.
Proof.
  destruct xs as [|m rest]; [contradiction|].
  intros [<-|H]; apply fold_max_Z_ge; auto.
Qed.

Lemma str_eqb_eq a b : str_eqb a b = true <-> a = b.
Proof.
  unfold str_eqb. destruct (list_eq_dec N.eq_dec a b); split; congruence.
Qed.

Lemma str_eqb_refl a : str_eqb a a = true.
Proof. now apply str_eqb_eq. Qed.

Lemma isin_In x values : isin x values = true <-> In x values.
Proof.
  unfold isin. rewrite existsb_exists. split.
  - intros (y & Hy & E). apply str_eqb_eq in E. now subst.
  - intros H. exists x. split; [assumption|apply str_eqb_refl].
Qed.

Lemma filter_all {A} (f : A -> bool) l :
  (forall x, In x l -> f x = true) -> List.filter f l = l.
Proof.
  induction l as [|a l IH]; intros H; [reflexivity|].
  simpl. rewrite (H a (or_introl eq_refl)). f_equal. apply IH.
  intros x Hx. apply H. now right.
Qed.

(** The filter keeps everything when each row passes the three tests. *)
Lemma filtered_df_all df yr cities fr :
  (forall r, In r df ->
     fst yr <= Year r <= snd yr /\ In (City r) cities /\
     fle (fst fr) (Amount r) = true /\ fle (Amount r) (snd fr) = true) ->
  filtered_df df yr cities fr = df.
Proof.
  intros H. unfold filtered_df. apply filter_all. intros r Hr.
  destruct (H r Hr) as ((Hlo & Hhi) & Hc & Ha & Hb).
  unfold between. rewrite Ha, Hb.
  apply isin_In in Hc. rewrite Hc.
  apply Z.leb_le in Hlo, Hhi. rewrite Hlo, Hhi. reflexivity.
Qed.

(** ** Dates: what [strptime] accepts *)

Lemma match_seq_inv p : forall s m r,
  match_seq p s = Some (m, r) ->
  s = m ++ r /\ Forall2 (fun k c => cls_match k c = true) p m.
Proof.
  induction p as [|k p IH]; intros s m r H.
  - simpl in H. injection H as <- <-. split; [reflexivity|constructor].
  - destruct s as [|c s]; [discriminate|]. simpl in H.
    destruct (cls_match k c) eqn:Ek; [|discriminate].
    destruct (match_seq p s) as [[m' r']|] eqn:Em; [|discriminate].
    injection H as <- <-. destruct (IH _ _ _ Em) as [-> HF].
    split; [reflexivity|constructor; assumption].
Qed.

Lemma first_alt_inv {R} alts (k : pystr -> pystr -> option R) s res :
  first_alt alts k s = Some res ->
  exists p m r, In p alts /\ match_seq p s = Some (m, r) /\ k m r = Some res.
Proof.
  induction alts as [|p alts IH]; [discriminate|]. simpl.
  destruct (match_seq p s) as [[m r]|] eqn:Em.
  - destruct (k m r) as [x|] eqn:Ek.
    + intros [= <-]. exists p, m, r. auto.
    + intros H. destruct (IH H) as (p' & m' & r' & Hin & Hm & Hk).
      exists p', m', r'. auto.
  - intros H. destruct (IH H) as (p' & m' & r' & Hin & Hm & Hk).
    exists p', m', r'. auto.
Qed.

Lemma isdigit_not_sep c sep :
  isdigit c = true -> (sep < 48 \/ 57 < sep)%N -> (c =? sep)%N = false.
Proof. unfold isdigit. intros H Hs. bprop. lia. Qed.

Lemma split_on_digits sep g :
  (sep < 48 \/ 57 < sep)%N -> forallb isdigit g = true ->
  split_on sep g = [g].
Proof.
  intros Hs. induction g as [|c g IH]; intros H; [reflexivity|].
  simpl in H. apply andb_true_iff in H. destruct H as [Hc Hg].
  simpl. rewrite (isdigit_not_sep c sep Hc Hs), (IH Hg). reflexivity.
Qed.

Lemma split_on_digits_sep sep g rest :
  (sep < 48 \/ 57 < sep)%N -> forallb isdigit g = true ->
  split_on sep (g ++ sep :: rest) = g :: split_on sep rest.
Proof.
  intros Hs. induction g as [|c g IH]; intros H.
  - simpl. rewrite N.eqb_refl. reflexivity.
  - simpl in H. apply andb_true_iff in H. destruct H as [Hc Hg].
    simpl. rewrite (isdigit_not_sep c sep Hc Hs), (IH Hg). reflexivity.
Qed.

Lemma filter_digits g : forallb isdigit g = true -> List.filter isdigit g = g.
Proof.
  intros H. apply filter_all. now apply forallb_forall.
Qed.

(** What a group of the day or month directive can be. *)
Lemma re_d_group p g :
  In p re_d -> Forall2 (fun k c => cls_match k c = true) p g ->
  short_number g = true \/ exists c, g = [32%N; c].
Proof.
  intros Hp HF. unfold re_d in Hp. simpl in Hp.
  repeat (destruct Hp as [<-|Hp];
    [ repeat match goal with
             | H : Forall2 _ (_ :: _) _ |- _ => inversion H; clear H; subst
             | H : Forall2 _ [] _ |- _ => inversion H; clear H; subst
             end;
      unfold cls_match, code in *; simpl N_of_ascii in *
    | ]); try contradiction.
  1-4: left; unfold short_number, isdigit in *; simpl; rewrite ?andb_true_r;
    bprop; lia.
  right. eexists. f_equal. bprop. assumption.
Qed.

Lemma re_m_group p g :
  In p re_m -> Forall2 (fun k c => cls_match k c = true) p g ->
  short_number g = true.
Proof.
  intros Hp HF. unfold re_m in Hp. simpl in Hp.
  repeat (destruct Hp as [<-|Hp];
    [ repeat match goal with
             | H : Forall2 _ (_ :: _) _ |- _ => inversion H; clear H; subst
             | H : Forall2 _ [] _ |- _ => inversion H; clear H; subst
             end;
      unfold cls_match, code in *; simpl N_of_ascii in *
    | ]); try contradiction.
  all: unfold short_number, isdigit in *; simpl; rewrite ?andb_true_r;
    bprop; lia.
Qed.

Lemma re_Y_group p g :
  In p re_Y -> Forall2 (fun k c => cls_match k c = true) p g ->
  List.length g = 4%nat /\ forallb isdigit g = true.
Proof.
  intros Hp HF. unfold re_Y in Hp. simpl in Hp.
  destruct Hp as [<-|[]].
  repeat match goal with
         | H : Forall2 _ (_ :: _) _ |- _ => inversion H; clear H; subst
         | H : Forall2 _ [] _ |- _ => inversion H; clear H; subst
         end.
  unfold cls_match in *. split; [reflexivity|].
  simpl. repeat match goal with H : isdigit _ = true |- _ => rewrite H; clear H end.
  reflexivity.
Qed.

Lemma re_slash_group p g :
  In p re_slash -> Forall2 (fun k c => cls_match k c = true) p g ->
  g = [code "/"].
Proof.
  intros Hp HF. unfold re_slash in Hp. simpl in Hp.
  destruct Hp as [<-|[]].
  repeat match goal with
         | H : Forall2 _ (_ :: _) _ |- _ => inversion H; clear H; subst
         | H : Forall2 _ [] _ |- _ => inversion H; clear H; subst
         end.
  unfold cls_match in *. f_equal. now apply N.eqb_eq.
Qed.

(** The shape of a text the pattern matches. *)
Lemma match_dmY_shape s d m y r :
  match_dmY s = Some (d, m, y, r) ->
  s = d ++ code "/" :: m ++ code "/" :: y ++ r /\
  (short_number d = true \/ exists c, d = [32%N; c]) /\
  short_number m = true /\
  List.length y = 4%nat /\ forallb isdigit y = true.
Proof.
  unfold match_dmY. intros H.
  apply first_alt_inv in H. destruct H as (pd & gd & r1 & Hpd & Hmd & H).
  apply first_alt_inv in H. destruct H as (p1 & g1 & r2 & Hp1 & Hm1 & H).
  apply first_alt_inv in H. destruct H as (pm & gm & r3 & Hpm & Hmm & H).
  apply first_alt_inv in H. destruct H as (p2 & g2 & r4 & Hp2 & Hm2 & H).
  apply first_alt_inv in H. destruct H as (pY & gY & r5 & HpY & HmY & H).
  injection H as -> -> -> ->.
  apply match_seq_inv in Hmd, Hm1, Hmm, Hm2, HmY.
  destruct Hmd as [-> Fd], Hm1 as [-> F1], Hmm as [-> Fm], Hm2 as [-> F2],
           HmY as [-> FY].
  rewrite (re_slash_group _ _ Hp1 F1), (re_slash_group _ _ Hp2 F2).
  destruct (re_Y_group _ _ HpY FY) as [Hl Hy].
  repeat split; eauto using re_d_group, re_m_group.
Qed.

Lemma short_number_digits g : short_number g = true -> forallb isdigit g = true.
Proof. unfold short_number. intros H. apply andb_true_iff in H. tauto. Qed.

(** What [strptime] accepts is a day/month/year text. *)
Lemma strptime_dmY_sound s dt :
  no_leading_blank s ->
  strptime_dmY s = Some dt -> parse_D_M_YYYY s = Some dt.
Proof.
  unfold strptime_dmY. intros Hs H.
  destruct (match_dmY s) as [[[[d m] y] r]|] eqn:Em; [|discriminate].
  destruct r; [|discriminate].
  apply match_dmY_shape in Em.
  destruct Em as (-> & Hd & Hm & Hl & Hy).
  destruct Hd as [Hd|[c ->]]; [|simpl in Hs; discriminate].
  unfold parse_D_M_YYYY.
  pose proof (short_number_digits _ Hd) as Hdd.
  pose proof (short_number_digits _ Hm) as Hmd.
  assert (Hsep : (code "/" < 48 \/ 57 < code "/")%N) by (left; reflexivity).
  rewrite (split_on_digits_sep _ d _ Hsep Hdd).
  rewrite (split_on_digits_sep _ m _ Hsep Hmd).
  rewrite app_nil_r.
  rewrite (split_on_digits _ y Hsep Hy).
  rewrite Hd, Hm, Hy, Hl. simpl andb. cbv iota.
  unfold int_of_group in H. rewrite !filter_digits in H by assumption.
  exact H.
Qed.

Lemma isdigit_cases c :
  isdigit c = true ->
  (c = 48 \/ c = 49 \/ c = 50 \/ c = 51 \/ c = 52 \/
   c = 53 \/ c = 54 \/ c = 55 \/ c = 56 \/ c = 57)%N.
Proof. unfold isdigit. intros H. bprop. lia. Qed.

Lemma first_alt_single {R} p (k : pystr -> pystr -> option R) s :
  first_alt [p] k s =
  match match_seq p s with Some (m, r) => k m r | None => None end.
Proof.
  simpl. destruct (match_seq p s) as [[m r]|]; [|reflexivity].
  destruct (k m r); reflexivity.
Qed.

Lemma first_alt_slash {R} (k : pystr -> pystr -> option R) c r :
  first_alt re_slash k (c :: r) =
  if (c =? code "/")%N then k [c] r else None.
Proof.
  unfold re_slash. rewrite first_alt_single. simpl.
  destruct (c =? 47)%N; reflexivity.
Qed.

(** Each digit at hand by its ten cases. *)
Ltac enum_digits :=
  repeat match goal with
  | H : isdigit ?c = true |- _ =>
      apply isdigit_cases in H;
      repeat (destruct H as [H|H]); subst c
  end.

(** Run the alternatives of a directive on a text whose characters are
    known, the continuation [K] failing where no slash follows. *)
Ltac run_alts K HK :=
  cbn [first_alt match_seq cls_match re_d re_m code N_of_ascii app];
  cbn; unfold pystr, pychar in *;
  repeat match goal with
  | |- context [K ?m (?c :: ?r)] =>
      let E := fresh "E" in
      assert (E : K m (c :: r) = None)
        by (apply HK; vm_compute; intros E'; discriminate E');
      rewrite E; clear E
  end;
  match goal with
  | |- context [match ?K ?a ?b with _ => _ end] => destruct (K a b); reflexivity
  | |- _ => reflexivity
  end.

Lemma re_d_complete {R} (K : pystr -> pystr -> option R) g rest :
  short_number g = true -> 1 <= int_of_digits g <= 31 ->
  (forall m c r, c <> code "/" -> K m (c :: r) = None) ->
  first_alt re_d K (g ++ code "/" :: rest) = K g (code "/" :: rest).
Proof.
  unfold short_number. intros Hg Hv HK.
  apply andb_true_iff in Hg. destruct Hg as [Hlen Hdig].
  destruct Hv as [Hlo Hhi]. apply Z.leb_le in Hlo, Hhi.
  destruct g as [|c1 [|c2 [|c3 g]]]; try discriminate.
  - simpl in Hdig. rewrite andb_true_r in Hdig.
    enum_digits; vm_compute in Hlo, Hhi; try discriminate; run_alts K HK.
  - simpl in Hdig. rewrite andb_true_r in Hdig.
    apply andb_true_iff in Hdig. destruct Hdig as [H1 H2].
    enum_digits; vm_compute in Hlo, Hhi; try discriminate; run_alts K HK.
Qed.

Lemma re_m_complete {R} (K : pystr -> pystr -> option R) g rest :
  short_number g = true -> 1 <= int_of_digits g <= 12 ->
  (forall m c r, c <> code "/" -> K m (c :: r) = None) ->
  first_alt re_m K (g ++ code "/" :: rest) = K g (code "/" :: rest).
Proof.
  unfold short_number. intros Hg Hv HK.
  apply andb_true_iff in Hg. destruct Hg as [Hlen Hdig].
  destruct Hv as [Hlo Hhi]. apply Z.leb_le in Hlo, Hhi.
  destruct g as [|c1 [|c2 [|c3 g]]]; try discriminate.
  - simpl in Hdig. rewrite andb_true_r in Hdig.
    enum_digits; vm_compute in Hlo, Hhi; try discriminate; run_alts K HK.
  - simpl in Hdig. rewrite andb_true_r in Hdig.
    apply andb_true_iff in Hdig. destruct Hdig as [H1 H2].
    enum_digits; vm_compute in Hlo, Hhi; try discriminate; run_alts K HK.
Qed.

Lemma split_on_nonempty sep s : split_on sep s <> [].
Proof.
  destruct s as [|c s]; simpl; [discriminate|].
  destruct (c =? sep)%N; [discriminate|].
  destruct (split_on sep s); discriminate.
Qed.

Lemma split_on_one sep s w : split_on sep s = [w] -> s = w.
Proof.
  revert w. induction s as [|c s IH]; simpl; intros w H.
  - now injection H as <-.
  - destruct (c =? sep)%N.
    + injection H as <- H. now apply split_on_nonempty in H.
    + destruct (split_on sep s) as [|w0 ws] eqn:E.
      * now apply split_on_nonempty in E.
      * injection H as <- ->. f_equal. now apply IH.
Qed.

Lemma split_on_more sep s w w' ws :
  split_on sep s = w :: w' :: ws ->
  exists rest, s = w ++ sep :: rest /\ split_on sep rest = w' :: ws.
Proof.
  revert w. induction s as [|c s IH]; simpl; intros w H; [discriminate|].
  destruct (N.eqb_spec c sep) as [->|Hne].
  - injection H as <- H. exists s. split; [reflexivity|assumption].
  - destruct (split_on sep s) as [|w0 ws0] eqn:E.
    + discriminate.
    + injection H as <- ->.
      destruct (IH w0 eq_refl) as (rest & -> & Hr).
      exists rest. split; [reflexivity|assumption].
Qed.

Lemma days_in_month_le y m : 28 <= days_in_month y m <= 31.
Proof.
  unfold days_in_month.
  destruct (m =? 2); [destruct (is_leap y); lia|].
  destruct ((m =? 4) || (m =? 6) || (m =? 9) || (m =? 11)); lia.
Qed.

Lemma mk_datetime_valid y m d dt :
  mk_datetime y m d = Some dt -> dt = mkdate y m d /\ valid_date dt = true.
Proof.
  unfold mk_datetime. destruct (valid_date (mkdate y m d)) eqn:E; [|discriminate].
  intros [= <-]. auto.
Qed.

Lemma valid_date_bounds dt :
  valid_date dt = true ->
  1 <= year dt <= 9999 /\ 1 <= month dt <= 12 /\
  1 <= day dt <= days_in_month (year dt) (month dt).
Proof.
  unfold valid_date. rewrite !andb_true_iff, !Z.leb_le. tauto.
Qed.

(** A day/month/year text is accepted by [strptime]. *)
Lemma strptime_dmY_complete s dt :
  parse_D_M_YYYY s = Some dt -> strptime_dmY s = Some dt.
Proof.
  unfold parse_D_M_YYYY. intros H.
  destruct (split_on (code "/") s) as [|d [|m [|y [|? ?]]]] eqn:Es;
    try discriminate.
  destruct (short_number d) eqn:Hd; [|discriminate].
  destruct (short_number m) eqn:Hm; [|discriminate].
  destruct (List.length y =? 4)%nat eqn:Hl; [|discriminate].
  destruct (forallb isdigit y) eqn:Hy; [|discriminate].
  simpl in H.
  apply split_on_more in Es. destruct Es as (r1 & -> & Es).
  apply split_on_more in Es. destruct Es as (r2 & -> & Es).
  apply split_on_one in Es. subst r2.
  pose proof (mk_datetime_valid _ _ _ _ H) as [Edt Hv].
  apply valid_date_bounds in Hv. rewrite Edt in Hv. simpl in Hv.
  pose proof (days_in_month_le (int_of_digits y) (int_of_digits m)) as Hdim.
  unfold strptime_dmY, match_dmY.
  rewrite re_d_complete; [|assumption|lia|].
  2:{ intros g c r Hc. rewrite first_alt_slash.
      apply N.eqb_neq in Hc. now rewrite Hc. }
  rewrite first_alt_slash, N.eqb_refl.
  rewrite re_m_complete; [|assumption|lia|].
  2:{ intros g c r Hc. rewrite first_alt_slash.
      apply N.eqb_neq in Hc. now rewrite Hc. }
  rewrite first_alt_slash, N.eqb_refl.
  apply Nat.eqb_eq in Hl.
  destruct y as [|y1 [|y2 [|y3 [|y4 [|? ?]]]]]; try discriminate.
  unfold re_Y. rewrite first_alt_single.
  simpl in Hy. rewrite andb_true_r in Hy.
  apply andb_true_iff in Hy. destruct Hy as [Hy1 Hy].
  apply andb_true_iff in Hy. destruct Hy as [Hy2 Hy].
  apply andb_true_iff in Hy. destruct Hy as [Hy3 Hy4].
  cbn [match_seq cls_match]. rewrite Hy1, Hy2, Hy3, Hy4.
  unfold int_of_group.
  rewrite !filter_digits.
  - exact H.
  - now apply short_number_digits.
  - now apply short_number_digits.
  - simpl. now rewrite Hy1, Hy2, Hy3, Hy4.
Qed.

Lemma lstrip_no_leading_blank s : no_leading_blank (lstrip s).
Proof.
  induction s as [|c s IH]; simpl; [exact I|].
  destruct (isspace c) eqn:E; [exact IH|]. simpl. exact E.
Qed.

Lemma lstrip_suffix s : exists l, s = l ++ lstrip s /\ forallb isspace l = true.
Proof.
  induction s as [|c s IH]; simpl.
  - exists []. auto.
  - destruct (isspace c) eqn:E.
    + destruct IH as (l & Hl & Hs). exists (c :: l). split.
      * simpl. now f_equal.
      * simpl. now rewrite E.
    + exists []. auto.
Qed.

Lemma rstrip_prefix s : exists r, s = rstrip s ++ r /\ forallb isspace r = true.
Proof.
  unfold rstrip. destruct (lstrip_suffix (rev s)) as (l & Hl & Hs).
  exists (rev l). split.
  - rewrite <- rev_app_distr, <- Hl. now rewrite rev_involutive.
  - rewrite forallb_forall in *. intros x Hx. apply Hs. now apply in_rev.
Qed.

Lemma rstrip_no_leading_blank s : no_leading_blank s -> no_leading_blank (rstrip s).
Proof.
  intros Hs. destruct (rstrip_prefix s) as (r & Hr & _).
  destruct (rstrip s) as [|c t]; [exact I|].
  rewrite Hr in Hs. exact Hs.
Qed.

Lemma strip_no_leading_blank s : no_leading_blank (strip s).
Proof. apply rstrip_no_leading_blank, lstrip_no_leading_blank. Qed.

(** [strptime] on a trimmed text is the day/month/year reading. *)
Lemma strptime_dmY_strip s :
  strptime_dmY (strip s) = parse_D_M_YYYY (strip s).
Proof.
  destruct (strptime_dmY (strip s)) as [dt|] eqn:E.
  - symmetry. apply strptime_dmY_sound; [apply strip_no_leading_blank|exact E].
  - destruct (parse_D_M_YYYY (strip s)) as [dt|] eqn:E'; [|reflexivity].
    apply strptime_dmY_complete in E'. congruence.
Qed.

(** ** Period texts *)

Lemma N_of_digits_snoc l c :
  N_of_digits (l ++ [c]) = (10 * N_of_digits l + digit_val c)%N.
Proof. unfold N_of_digits. now rewrite fold_left_app. Qed.

Lemma pad_digits_value w : forall n,
  N_of_digits (pad_digits w n) = (n mod 10 ^ N.of_nat w)%N.
Proof.
  induction w as [|w IH]; intros n.
  - simpl. now rewrite N.mod_1_r.
  - cbn [pad_digits]. rewrite N_of_digits_snoc, IH.
    unfold digit_val. rewrite (N.add_comm 48), N.add_sub.
    rewrite Nat2N.inj_succ, N.pow_succ_r'.
    rewrite N.Div0.mod_mul_r. apply N.add_comm.
Qed.

Lemma pad_digits_isdigit w : forall n, forallb isdigit (pad_digits w n) = true.
Proof.
  induction w as [|w IH]; intros n; [reflexivity|].
  cbn [pad_digits]. rewrite forallb_app, IH. cbn [forallb andb].
  rewrite andb_true_r. unfold isdigit.
  assert (Hb : (n mod 10 < 10)%N) by (apply N.mod_upper_bound; discriminate).
  revert Hb. generalize (n mod 10)%N. intros x Hb. bprop. lia.
Qed.

Lemma pad_digits_length w : forall n, List.length (pad_digits w n) = w.
Proof.
  induction w as [|w IH]; intros n; [reflexivity|].
  cbn [pad_digits]. rewrite length_app, IH. simpl. lia.
Qed.

Lemma year_of_period_str d :
  0 <= year d <= 9999 -> year_of_period (period_str d) = year d.
Proof.
  intros Hy. unfold year_of_period, period_str.
  change ([45%N] ++ pad_digits 2 (Z.to_N (month d)))
    with (code "-" :: pad_digits 2 (Z.to_N (month d))).
  rewrite split_on_digits_sep.
  - unfold int_of_digits. rewrite pad_digits_value.
    change (10 ^ N.of_nat 4)%N with 10000%N.
    rewrite N.mod_small by lia. lia.
  - left. reflexivity.
  - apply pad_digits_isdigit.
Qed.

Lemma pad_digits_4 n : exists a b c e,
  pad_digits 4 n = [a; b; c; e].
Proof.
  pose proof (pad_digits_length 4 n) as H.
  destruct (pad_digits 4 n) as [|a [|b [|c [|e [|? ?]]]]]; try discriminate.
  eauto.
Qed.

Lemma pad_digits_2 n : exists a b, pad_digits 2 n = [a; b].
Proof.
  pose proof (pad_digits_length 2 n) as H.
  destruct (pad_digits 2 n) as [|a [|b [|? ?]]]; try discriminate.
  eauto.
Qed.

(** Reading back the period text of a date gives the first day of its
    month. *)
Lemma to_datetime_period_str d :
  valid_date d = true ->
  to_datetime (period_str d) = Some (mkdate (year d) (month d) 1).
Proof.
  intros Hv. pose proof (valid_date_bounds d Hv) as (Hy & Hm & Hd).
  unfold period_str.
  pose proof (pad_digits_isdigit 4 (Z.to_N (year d))) as D4.
  pose proof (pad_digits_isdigit 2 (Z.to_N (month d))) as D2.
  pose proof (pad_digits_value 4 (Z.to_N (year d))) as V4.
  pose proof (pad_digits_value 2 (Z.to_N (month d))) as V2.
  destruct (pad_digits_4 (Z.to_N (year d))) as (a & b & c & e & E4).
  destruct (pad_digits_2 (Z.to_N (month d))) as (f & g & E2).
  rewrite E4, E2 in *. cbn [app to_datetime].
  replace (forallb isdigit [a; b; c; e; f; g]) with true.
  2:{ symmetry. change [a; b; c; e; f; g] with ([a; b; c; e] ++ [f; g]).
      rewrite forallb_app, D4, D2. reflexivity. }
  rewrite N.eqb_refl. cbn [andb]. rewrite V4, V2.
  change (10 ^ N.of_nat 4)%N with 10000%N.
  change (10 ^ N.of_nat 2)%N with 100%N.
  rewrite !N.mod_small by lia. rewrite !Z2N.id by lia.
  unfold mk_datetime.
  replace (valid_date (mkdate (year d) (month d) 1)) with true; [reflexivity|].
  symmetry. unfold valid_date. cbn [year month day].
  pose proof (days_in_month_le (year d) (month d)).
  rewrite !andb_true_iff, !Z.leb_le. lia.
Qed.

Lemma strptime_valid s dt : strptime_dmY s = Some dt -> valid_date dt = true.
Proof.
  unfold strptime_dmY.
  destruct (match_dmY s) as [[[[d m] y] [|? ?]]|]; try discriminate.
  intros H. now apply mk_datetime_valid in H.
Qed.

(** ** [load_data], row by row *)

(** One stage of [load_data] on the rows at hand. *)
Ltac stage :=
  cbn -[clean_amount clean_date clean_text replace_exact flt isnan
        float_of_Z period_str nth].

Section PipelineFacts.

Context {R : FloatRepr}.

Lemma iloc_columns_wide data :
  (21 <= width data)%nat ->
  iloc_columns data =
  Some (List.map (fun r =>
            mkRow (nth 13 r missing) (nth 14 r missing) (nth 15 r missing)
                  (nth 17 r missing) (nth 19 r missing) (nth 20 r missing)
                  tt tt) (rows data)).
Proof.
  intros Hw. unfold iloc_columns.
  replace (forallb _ _) with true; [reflexivity|].
  symmetry. simpl. repeat rewrite andb_true_iff.
  repeat split; apply Nat.ltb_lt; lia.
Qed.

(** A frame of 21 columns or more: [load_data] shows nothing; it raises
    when no row passes the Amount stage, and returns the records of the
    rows, each cleaned by itself, otherwise. *)
Lemma load_data_wide data :
  (21 <= width data)%nat ->
  load_data (Some data) =
  ([], if existsb amount_kept (rows data)
       then returns (flat_map (fun r => olist (clean_row r)) (rows data))
       else raises AttributeError).
Proof.
  intros Hw. unfold load_data. rewrite (iloc_columns_wide _ Hw).
  match goal with
  | |- match ?l with
       | [] => _
       | _ :: _ => ([], returns ?t)
       end = _ =>
      assert (He : existsb amount_kept (rows data) =
                   match l with [] => false | _ :: _ => true end);
      [|assert (Ht : t = flat_map (fun r => olist (clean_row r))
                                  (rows data));
        [|rewrite He; destruct l; [reflexivity|now rewrite <- Ht]]]
  end.
  { induction (rows data) as [|r rs IH]; [reflexivity|].
    cbn [List.map existsb]. rewrite IH. clear IH.
    unfold amount_kept. stage.
    destruct (isnan (clean_amount (nth 20 r missing))); stage;
      [reflexivity|].
    destruct (flt (float_of_Z 0) (clean_amount (nth 20 r missing)));
      reflexivity. }
  clear He. induction (rows data) as [|r rs IH]; [reflexivity|].
  cbn [List.map flat_map]. rewrite <- IH. clear IH.
  unfold clean_row.
  stage.
  destruct (isnan (clean_amount (nth 20 r missing))) eqn:En; stage;
    [reflexivity|].
  destruct (flt (float_of_Z 0) (clean_amount (nth 20 r missing))) eqn:Ep;
    stage; [|reflexivity].
  destruct (clean_date (nth 13 r missing)) as [d|] eqn:Ed; stage;
    [|reflexivity].
  destruct (flt (clean_amount (nth 20 r missing)) (float_of_Z 1000));
    reflexivity.
Qed.

Lemma dataset_rows data :
  (21 <= width data)%nat ->
  dataset data = flat_map (fun r => olist (clean_row r)) (rows data).
Proof.
  intros Hw. unfold dataset. rewrite (load_data_wide _ Hw). cbn [snd].
  destruct (existsb amount_kept (rows data)) eqn:E; [reflexivity|].
  cbn [frame_of]. symmetry.
  induction (rows data) as [|r rs IH]; [reflexivity|].
  cbn [existsb] in E. apply orb_false_iff in E. destruct E as [Er E].
  cbn [flat_map]. rewrite <- (IH E).
  unfold clean_row. fold (amount_kept r). now rewrite Er.
Qed.

End PipelineFacts.

Section DatasetFacts.

Context {R : FloatRepr}.

Lemma load_data_narrow data :
  (width data < 21)%nat ->
  load_data (Some data) =
  ([st_error "Column mismatch. Please check your CSV format. " IndexError],
   returns []).
Proof.
  intros Hw. unfold load_data, iloc_columns.
  replace (forallb _ _) with false; [reflexivity|].
  symmetry. apply not_true_is_false. intros H.
  rewrite forallb_forall in H.
  specialize (H 20%nat). apply Nat.ltb_lt in H; [lia|].
  simpl. tauto.
Qed.

Lemma dataset_narrow data : (width data < 21)%nat -> dataset data = [].
Proof. intros Hw. unfold dataset. now rewrite load_data_narrow. Qed.

Lemma In_dataset data rec :
  In rec (dataset data) ->
  exists r, In r (rows data) /\ clean_row r = Some rec.
Proof.
  destruct (Nat.lt_ge_cases (width data) 21) as [Hw|Hw].
  - rewrite dataset_narrow by assumption. contradiction.
  - rewrite dataset_rows by assumption. rewrite in_flat_map.
    intros (r & Hr & Hin). exists r. split; [assumption|].
    destruct (clean_row r); simpl in Hin; [|contradiction].
    destruct Hin as [->|[]]. reflexivity.
Qed.

Lemma dataset_insert w pre r post :
  (21 <= w)%nat ->
  dataset (mkframe w (pre ++ r :: post)) =
  dataset (mkframe w pre) ++ olist (clean_row r) ++ dataset (mkframe w post).
Proof.
  intros Hw. rewrite !dataset_rows by assumption. simpl rows.
  rewrite flat_map_app. reflexivity.
Qed.

Lemma dataset_app w pre post :
  (21 <= w)%nat ->
  dataset (mkframe w (pre ++ post)) =
  dataset (mkframe w pre) ++ dataset (mkframe w post).
Proof.
  intros Hw. rewrite !dataset_rows by assumption. simpl rows.
  apply flat_map_app.
Qed.

Lemma dataset_drop w pre r post :
  (21 <= w)%nat -> clean_row r = None ->
  dataset (mkframe w (pre ++ r :: post)) = dataset (mkframe w (pre ++ post)).
Proof.
  intros Hw Hr. rewrite dataset_insert, dataset_app by assumption.
  rewrite Hr. reflexivity.
Qed.

Lemma dataset_keep w pre r post rec :
  (21 <= w)%nat -> clean_row r = Some rec ->
  dataset (mkframe w (pre ++ r :: post)) =
  dataset (mkframe w pre) ++ rec :: dataset (mkframe w post).
Proof.
  intros Hw Hr. rewrite dataset_insert by assumption. rewrite Hr. reflexivity.
Qed.

Lemma flt_isnan_r x y : flt x y = true -> isnan y = false.
Proof. intros H. now apply flt_not_nan in H. Qed.

(** What a row that reaches the cleaned frame went through. *)
Lemma clean_row_Some r rec :
  clean_row r = Some rec ->
  exists d,
    clean_date (nth 13 r missing) = Some d /\
    flt (float_of_Z 0) (clean_amount (nth 20 r missing)) = true /\
    flt (clean_amount (nth 20 r missing)) (float_of_Z 1000) = true /\
    rec = mkRow d (clean_text (nth 14 r missing))
                  (clean_text (nth 15 r missing))
                  (replace_exact city_table (clean_text (nth 17 r missing)))
                  (replace_exact investment_table (clean_text (nth 19 r missing)))
                  (clean_amount (nth 20 r missing)) (year d) (period_str d).
Proof.
  unfold clean_row.
  destruct (isnan (clean_amount (nth 20 r missing))); [discriminate|].
  destruct (flt (float_of_Z 0) (clean_amount (nth 20 r missing))) eqn:Ep;
    [|discriminate].
  cbn [negb andb].
  destruct (clean_date (nth 13 r missing)) as [d|]; [|discriminate].
  destruct (flt (clean_amount (nth 20 r missing)) (float_of_Z 1000)) eqn:Eq;
    [|discriminate].
  intros [= <-]. exists d. auto.
Qed.

Lemma clean_row_pass r d :
  clean_date (nth 13 r missing) = Some d ->
  flt (float_of_Z 0) (clean_amount (nth 20 r missing)) = true ->
  flt (clean_amount (nth 20 r missing)) (float_of_Z 1000) = true ->
  exists rec, clean_row r = Some rec /\
              Amount rec = clean_amount (nth 20 r missing) /\ Date rec = d.
Proof.
  intros Hd Hp Hq. unfold clean_row.
  rewrite (flt_isnan_r _ _ Hp), Hp, Hd, Hq. cbn [negb andb].
  eexists. split; [reflexivity|]. split; reflexivity.
Qed.

Lemma clean_row_fail r :
  ~ (flt (float_of_Z 0) (clean_amount (nth 20 r missing)) = true /\
     flt (clean_amount (nth 20 r missing)) (float_of_Z 1000) = true /\
     clean_date (nth 13 r missing) <> None) ->
  clean_row r = None.
Proof.
  intros H. destruct (clean_row r) as [rec|] eqn:E; [|reflexivity].
  apply clean_row_Some in E. destruct E as (d & Hd & Hp & Hq & _).
  exfalso. apply H. repeat split; congruence.
Qed.

Lemma clean_amount_token s u :
  In u tokens -> occurs_ci u s -> clean_amount (CStr s) = nan.
Proof.
  intros Hu Ho. unfold clean_amount.
  replace (existsb _ tokens) with true; [reflexivity|].
  symmetry. apply existsb_exists. exists u. split; [assumption|].
  now apply token_found.
Qed.

Lemma clean_row_nan r :
  clean_amount (nth 20 r missing) = nan -> clean_row r = None.
Proof. intros H. unfold clean_row. rewrite H. reflexivity. Qed.

Lemma clean_row_no_date r :
  clean_date (nth 13 r missing) = None -> clean_row r = None.
Proof.
  intros H. unfold clean_row. rewrite H.
  destruct (negb _ && _); reflexivity.
Qed.

(** C3.  A row whose Amount cell is text in which one of the tokens lac,
    lakh, cr, unknown, n/a occurs, in any letter case and at any place, is
    dropped: the cleaned frame is that of the input without the row.
    What stands before the token, a number or anything else, plays no
    part. *)
Theorem token_amount_dropped w pre r post s u :
  (21 <= w)%nat ->
  nth 20 r missing = CStr s ->
  In u tokens -> occurs_ci u s ->
  dataset (mkframe w (pre ++ r :: post)) = dataset (mkframe w (pre ++ post)).
Proof.
  intros Hw Hs Hu Ho. apply dataset_drop; [assumption|].
  apply clean_row_nan. rewrite Hs. now apply clean_amount_token with u.
Qed.

(** C1, as amended.  Take a row whose Amount cell is text that, with
    commas, dollar signs and outer blanks removed and in lower case, holds
    no token and reads as the number [v].  Its cleaned amount is
    [v / 1_000_000]; the row gives a record of the cleaned frame, with that
    amount, exactly when the amount is above 0 and below 1000 and the Date
    cell of the row parses; in every other case the row is dropped. *)
Theorem plain_amount_kept_iff w pre r post s v :
  (21 <= w)%nat ->
  nth 20 r missing = CStr s ->
  existsb (fun u => contains u (amount_text s)) tokens = false ->
  float_of_str (amount_text s) = Some v ->
  clean_amount (CStr s) = fdiv v million /\
  ((exists rec,
      dataset (mkframe w (pre ++ r :: post)) =
      dataset (mkframe w pre) ++ rec :: dataset (mkframe w post) /\
      Amount rec = fdiv v million) <->
   (flt (float_of_Z 0) (fdiv v million) = true /\
    flt (fdiv v million) (float_of_Z 1000) = true /\
    clean_date (nth 13 r missing) <> None)) /\
  (~ (flt (float_of_Z 0) (fdiv v million) = true /\
      flt (fdiv v million) (float_of_Z 1000) = true /\
      clean_date (nth 13 r missing) <> None) ->
   dataset (mkframe w (pre ++ r :: post)) = dataset (mkframe w (pre ++ post))).
Proof.
  intros Hw Hs Htok Hv.
  assert (Ha : clean_amount (CStr s) = fdiv v million).
  { unfold clean_amount. rewrite Htok, Hv. reflexivity. }
  split; [exact Ha|]. split; [split|].
  - intros (rec & Hrec & _).
    destruct (clean_row r) as [rec0|] eqn:E.
    + apply clean_row_Some in E. destruct E as (d & Hd & Hp & Hq & _).
      rewrite Hs, Ha in Hp, Hq. repeat split; congruence.
    + exfalso. rewrite dataset_insert, E in Hrec by assumption.
      apply app_inv_head in Hrec. simpl in Hrec.
      apply (f_equal (@List.length record)) in Hrec. simpl in Hrec. lia.
  - intros (Hp & Hq & Hd).
    destruct (clean_date (nth 13 r missing)) as [d|] eqn:Ed; [|congruence].
    destruct (clean_row_pass r d Ed) as (rec & Hrec & Hamt & _).
    + rewrite Hs, Ha. exact Hp.
    + rewrite Hs, Ha. exact Hq.
    + exists rec. split.
      * now apply dataset_keep.
      * rewrite Hamt, Hs. exact Ha.
  - intros Hn. apply dataset_drop; [assumption|].
    apply clean_row_fail. rewrite Hs, Ha. exact Hn.
Qed.

(** C2, as amended.  [clean_date] reads the trimmed text of the cell as a
    day and a month of one or two digits and a year of four, with slashes
    between, naming a day of the calendar.  A row whose Date cell is
    anything else is dropped, and "04/01/2015" is the fourth of January
    2015. *)
Theorem date_outside_format_dropped :
  (forall c, clean_date c = parse_D_M_YYYY (strip (str_of_cell c))) /\
  (forall w pre r post,
     (21 <= w)%nat ->
     parse_D_M_YYYY (strip (str_of_cell (nth 13 r missing))) = None ->
     dataset (mkframe w (pre ++ r :: post)) = dataset (mkframe w (pre ++ post)))
  /\ clean_date (CStr (py "04/01/2015")) = Some (mkdate 2015 1 4).
Proof.
  split; [|split; [|reflexivity]].
  - intros c. unfold clean_date. apply strptime_dmY_strip.
  - intros w pre r post Hw Hbad. apply dataset_drop; [assumption|].
    apply clean_row_no_date. unfold clean_date.
    rewrite strptime_dmY_strip. exact Hbad.
Qed.

(** C9.  When the frame read has fewer than 21 columns, the selection of
    the six columns raises [IndexError]: [load_data] shows the
    column-mismatch error with it and returns the empty frame, whatever
    the rows hold.  No record of that input is returned. *)
Theorem schema_mismatch_aborts data :
  (width data < 21)%nat ->
  load_data (Some data) =
  ([st_error "Column mismatch. Please check your CSV format. " IndexError],
   returns []).
Proof.
  intros Hw. unfold load_data.
  destruct (iloc_columns data) as [df|] eqn:E; [|reflexivity].
  exfalso. unfold iloc_columns in E.
  destruct (forallb _ _) eqn:Ew in E; [|discriminate].
  rewrite forallb_forall in Ew. specialize (Ew 20%nat).
  apply Nat.ltb_lt in Ew; [lia|]. simpl. tauto.
Qed.

(** C10.  For every record of the cleaned frame, [Year] and [Month] come
    from the record's date, and the year written in the period text
    [Month] is the integer [Year]. *)
Theorem year_matches_period data rec :
  In rec (dataset data) ->
  Year rec = year (Date rec) /\
  Month rec = period_str (Date rec) /\
  year_of_period (Month rec) = Year rec.
Proof.
  intros Hin. apply In_dataset in Hin. destruct Hin as (r & _ & Hr).
  apply clean_row_Some in Hr. destruct Hr as (d & Hd & _ & _ & ->).
  cbn [Month Year Date]. split; [reflexivity|]. split; [reflexivity|].
  apply year_of_period_str.
  unfold clean_date in Hd. apply strptime_valid, valid_date_bounds in Hd. lia.
Qed.

End DatasetFacts.

Lemma token_amount_dropped_witness :
  occurs_ci (py "lakh") (py "5 Lakh") /\
  dataset (R := no_numeric_text)
    (mkframe 21 (rows three_deals ++
       raw_row (text "04/01/2015") (text "Acme") (text "Tech") (text "Pune")
               (text "Seed Funding") (text "5 Lakh") :: [])) =
  dataset (R := no_numeric_text) (mkframe 21 (rows three_deals ++ [])).
Proof.
  assert (Ho : occurs_ci (py "lakh") (py "5 Lakh")).
  { exists (py "5 "), (py "Lakh"), []. split; reflexivity. }
  split; [exact Ho|].
  apply (token_amount_dropped (R := no_numeric_text) 21 (rows three_deals) _ []
           (py "5 Lakh") (py "lakh")).
  - lia.
  - reflexivity.
  - simpl. tauto.
  - exact Ho.
Defined.

Lemma plain_amount_kept_iff_witness :
  exists rec,
    dataset (R := no_numeric_text)
      (mkframe 21 ([] ++ raw_row (text "04/01/2015") (text "Acme") (text "Tech")
                           (text "Pune") (text "Seed Funding") (text "1000000")
                      :: rows three_deals)) =
    dataset (R := no_numeric_text) (mkframe 21 []) ++
    rec :: dataset (R := no_numeric_text) (mkframe 21 (rows three_deals)) /\
    Amount rec = fdiv (float_of_Z 1000000) million.
Proof.
  destruct (plain_amount_kept_iff (R := no_numeric_text) 21 []
              (raw_row (text "04/01/2015") (text "Acme") (text "Tech")
                       (text "Pune") (text "Seed Funding") (text "1000000"))
              (rows three_deals) (py "1000000") (float_of_Z 1000000))
    as (_ & Hiff & _).
  - lia.
  - reflexivity.
  - vm_compute. reflexivity.
  - vm_compute. reflexivity.
  - apply Hiff. split; [vm_compute; reflexivity|].
    split; [vm_compute; reflexivity|]. vm_compute. discriminate.
Defined.

(** C1, the sentence as it stands: an amount of five million dollars is
    plain and gives 5.0, between 0 and 1000, and yet the row is not in the
    cleaned frame, because its Date cell does not parse. *)
Lemma plain_amount_with_bad_date_dropped :
  clean_amount (text "5000000") = float_of_Z 5 /\
  flt (float_of_Z 0) (float_of_Z 5) = true /\
  flt (float_of_Z 5) (float_of_Z 1000) = true /\
  dataset (R := no_numeric_text)
    (mkframe 21 [raw_row (text "not a date") (text "Acme") (text "Tech")
                         (text "Pune") (text "Seed Funding") (text "5000000")])
  = [].
Proof. repeat split; vm_compute; reflexivity. Qed.

Lemma date_outside_format_dropped_witness :
  dataset (R := no_numeric_text)
    (mkframe 21 (rows three_deals ++
       raw_row (text "2015-01-04") (text "Acme") (text "Tech") (text "Pune")
               (text "Seed Funding") (text "1000000") :: [])) =
  dataset (R := no_numeric_text) (mkframe 21 (rows three_deals ++ [])).
Proof.
  apply (proj1 (proj2 (date_outside_format_dropped (R := no_numeric_text)))).
  - lia.
  - vm_compute. reflexivity.
Defined.

(** C2, the sentence as it stands: "4/1/2015" is not two digits, a slash,
    two digits, a slash and four digits, and its row is kept, dated the
    fourth of January 2015; so is a date with blanks around it. *)
Lemma single_digit_date_kept :
  is_DD_MM_YYYY (py "4/1/2015") = false /\
  List.map Date
    (dataset (R := no_numeric_text)
       (mkframe 21 [raw_row (text "4/1/2015") (text "Acme") (text "Tech")
                            (text "Pune") (text "Seed Funding")
                            (text "1000000")]))
  = [mkdate 2015 1 4] /\
  is_DD_MM_YYYY (py " 04/01/2015 ") = false /\
  clean_date (R := no_numeric_text) (text " 04/01/2015 ")
  = Some (mkdate 2015 1 4).
Proof. repeat split; vm_compute; reflexivity. Qed.

Lemma schema_mismatch_aborts_witness :
  load_data (R := no_numeric_text)
    (Some (mkframe 20 [repeat (text "1000000") 20])) =
  ([st_error "Column mismatch. Please check your CSV format. " IndexError],
   returns []).
Proof.
  apply (schema_mismatch_aborts (R := no_numeric_text)). simpl. lia.
Defined.

Lemma year_matches_period_witness :
  In first_deal (dataset (R := no_numeric_text) three_deals) /\
  Year first_deal = year (Date first_deal) /\
  Month first_deal = period_str (Date first_deal) /\
  year_of_period (Month first_deal) = Year first_deal.
Proof.
  assert (Hin : In first_deal (dataset (R := no_numeric_text) three_deals)).
  { vm_compute. left. reflexivity. }
  split; [exact Hin|].
  exact (year_matches_period (R := no_numeric_text) three_deals first_deal Hin).
Defined.

(** ** The text rules *)

Lemma strip_shape s : strip_spec s (strip s).
Proof.
  unfold strip.
  destruct (lstrip_suffix s) as (l & Hl & Hls).
  destruct (rstrip_prefix (lstrip s)) as (r & Hr & Hrs).
  exists l, r. repeat split; try assumption.
  - rewrite <- Hr. exact Hl.
  - apply rstrip_no_leading_blank, lstrip_no_leading_blank.
  - unfold rstrip. rewrite rev_involutive. apply lstrip_no_leading_blank.
Qed.









Lemma run_split_unique w1 : forall w2 s1 s2,
  forallb iscased w1 = true -> forallb iscased w2 = true ->
  match s1 with x :: _ => iscased x = false | [] => True end ->
  match s2 with x :: _ => iscased x = false | [] => True end ->
  w1 ++ s1 = w2 ++ s2 -> w1 = w2 /\ s1 = s2.
Proof.
  induction w1 as [|a w1 IH]; intros w2 s1 s2 H1 H2 B1 B2 E.
  - destruct w2 as [|b w2]; [auto|].
    simpl in E. subst s1. simpl in H2. apply andb_true_iff in H2.
    destruct H2 as [Hb _]. congruence.
  - destruct w2 as [|b w2].
    + simpl in E. subst s2. simpl in H1. apply andb_true_iff in H1.
      destruct H1 as [Ha _]. congruence.
    + simpl in E. injection E as <- E.
      simpl in H1, H2. apply andb_true_iff in H1, H2.
      destruct (IH w2 s1 s2) as [-> ->]; tauto.
Qed.

(** The description determines the result. *)
Lemma title_spec_unique s t1 :
  title_spec s t1 -> forall t2, title_spec s t2 -> t1 = t2.
Proof.
  induction 1 as [|c s t Hc _ IH|c w s t Hc Hw Hb _ IH]; intros t2 H2.
  - inversion H2. reflexivity.
  - inversion H2; subst.
    + f_equal. now apply IH.
    + congruence.
  - inversion H2 as [| |c' w' s' t' Hc' Hw' Hb' Ht' Es]; subst.
    + congruence.
    + destruct (run_split_unique w w' s s') as [-> ->];
        try assumption; [now symmetry|].
      f_equal. f_equal. now apply IH.
Qed.

Lemma strip_spec_unique s t1 t2 : strip_spec s t1 -> strip_spec s t2 -> t1 = t2.
Proof.
  intros (l1 & r1 & E1 & Hl1 & Hr1 & A1 & B1) (l2 & r2 & E2 & Hl2 & Hr2 & A2 & B2).
  assert (Hstrip : forall l t r,
             forallb isspace l = true -> forallb isspace r = true ->
             no_leading_blank t -> no_leading_blank (rev t) ->
             strip (l ++ t ++ r) = t).
  { clear. intros l t r Hl Hr A B.
    assert (L : forall l x, forallb isspace l = true -> no_leading_blank x ->
                            lstrip (l ++ x) = x).
    { clear. induction l as [|c l IH]; intros x Hl Hx.
      - destruct x as [|c x]; [reflexivity|]. simpl in *. now rewrite Hx.
      - simpl in Hl. apply andb_true_iff in Hl. destruct Hl as [Hc Hl].
        simpl. rewrite Hc. now apply IH. }
    unfold strip, rstrip.
    destruct t as [|c t].
    - simpl.
      replace (lstrip (l ++ r)) with (@nil pychar).
      + reflexivity.
      + symmetry. rewrite <- (app_nil_r (l ++ r)). apply L; [|exact I].
        rewrite forallb_app. now rewrite Hl, Hr.
    - rewrite L; [|assumption|exact A].
      rewrite rev_app_distr. rewrite L.
      + apply rev_involutive.
      + rewrite forallb_forall in *. intros x Hx. apply Hr. now apply in_rev.
      + exact B. }
  rewrite <- (Hstrip l1 t1 r1), <- (Hstrip l2 t2 r2) by assumption.
  congruence.
Qed.

(** *** The characters of the rules are those of Python *)

Lemma below_256 (P : N -> bool) :
  forallb P (List.map N.of_nat (seq 0 256)) = true ->
  forall c, (c < 256)%N -> P c = true.
Proof.
  intros H c Hc. rewrite forallb_forall in H. apply H.
  apply in_map_iff. exists (N.to_nat c). split; [apply N2Nat.id|].
  apply in_seq. lia.
Qed.

(** Beyond Latin-1 every comparison with a character of Latin-1 fails. *)
Ltac beyond_latin1 c :=
  repeat match goal with
  | |- context [(c =? ?k)%N] =>
      replace (c =? k)%N with false by (symmetry; apply N.eqb_neq; lia)
  | |- context [(c <=? ?k)%N] =>
      replace (c <=? k)%N with false by (symmetry; apply N.leb_gt; lia)
  | |- context [(?k <=? c)%N] =>
      replace (k <=? c)%N with true by (symmetry; apply N.leb_le; lia)
  end.

Lemma blank_isspace c : blank c = isspace c.
Proof.
  destruct (N.lt_ge_cases c 256) as [Hc|Hc].
  - apply Bool.eqb_prop. revert c Hc.
    apply (below_256 (fun c => Bool.eqb (blank c) (isspace c))).
    vm_compute. reflexivity.
  - unfold blank, blanks, isspace, in_range. cbn [existsb].
    beyond_latin1 c. reflexivity.
Qed.

Lemma letter_iscased c : letter c = iscased c.
Proof.
  destruct (N.lt_ge_cases c 256) as [Hc|Hc].
  - apply Bool.eqb_prop. revert c Hc.
    apply (below_256 (fun c => Bool.eqb (letter c) (iscased c))).
    vm_compute. reflexivity.
  - unfold letter, letter_pairs, lone_letters, iscased, isupper, islower,
      in_range.
    cbn [existsb fst snd]. beyond_latin1 c. reflexivity.
Qed.

Lemma capital_title_char c : capital c = title_char c.
Proof.
  destruct (N.lt_ge_cases c 256) as [Hc|Hc].
  - apply str_eqb_eq. revert c Hc.
    apply (below_256 (fun c => str_eqb (capital c) (title_char c))).
    vm_compute. reflexivity.
  - unfold capital, letter_pairs, title_char, in_range.
    cbn [find fst snd]. beyond_latin1 c. reflexivity.
Qed.

Lemma small_lower_char c : small c = lower_char c.
Proof.
  destruct (N.lt_ge_cases c 256) as [Hc|Hc].
  - apply N.eqb_eq. revert c Hc.
    apply (below_256 (fun c => (small c =? lower_char c)%N)).
    vm_compute. reflexivity.
  - unfold small, letter_pairs, lower_char, isupper, in_range.
    cbn [find fst snd]. beyond_latin1 c. reflexivity.
Qed.

Lemma forallb_pointwise {A} (f g : A -> bool) l :
  (forall x, f x = g x) -> forallb f l = forallb g l.
Proof.
  intros H. induction l as [|x l IH]; [reflexivity|].
  cbn [forallb]. now rewrite H, IH.
Qed.

Lemma starts_clear_no_leading_blank s : starts_clear s <-> no_leading_blank s.
Proof.
  destruct s as [|c s]; [tauto|]. cbn [starts_clear no_leading_blank].
  now rewrite blank_isspace.
Qed.

(** *** The rules describe [strip] and [title] *)

Lemma Trimmed_strip_spec s t : Trimmed s t <-> strip_spec s t.
Proof.
  unfold Trimmed, strip_spec.
  split; intros (l & r & E & Hl & Hr & A & B); exists l, r;
    rewrite (forallb_pointwise _ _ l blank_isspace) in *;
    rewrite (forallb_pointwise _ _ r blank_isspace) in *;
    repeat split; try assumption;
    now apply starts_clear_no_leading_blank.
Qed.

Lemma TitleCased_title_spec s t : TitleCased s t <-> title_spec s t.
Proof.
  split.
  - induction 1 as [|c s t Hc _ IH|c w s t Hc Hw Hb _ IH].
    + constructor.
    + apply TS_other; [now rewrite <- letter_iscased|exact IH].
    + rewrite capital_title_char, (map_ext _ _ small_lower_char).
      apply TS_word; try assumption.
      * now rewrite <- letter_iscased.
      * now rewrite <- (forallb_pointwise _ _ w letter_iscased).
      * destruct s as [|x s]; [exact I|]. now rewrite <- letter_iscased.
  - induction 1 as [|c s t Hc _ IH|c w s t Hc Hw Hb _ IH].
    + constructor.
    + apply TC_other; [now rewrite letter_iscased|exact IH].
    + rewrite <- capital_title_char, <- (map_ext _ _ small_lower_char).
      apply TC_word; try assumption.
      * now rewrite letter_iscased.
      * now rewrite (forallb_pointwise _ _ w letter_iscased).
      * destruct s as [|x s]; [exact I|]. now rewrite letter_iscased.
Qed.



(** The rules determine the result. *)
Lemma Trimmed_unique s t1 t2 : Trimmed s t1 -> Trimmed s t2 -> t1 = t2.
Proof.
  rewrite !Trimmed_strip_spec. apply strip_spec_unique.
Qed.

Lemma TitleCased_unique s t1 t2 :
  TitleCased s t1 -> TitleCased s t2 -> t1 = t2.
Proof.
  rewrite !TitleCased_title_spec. intros H1 H2.
  exact (title_spec_unique _ _ H1 _ H2).
Qed.

Lemma nan_to_other_replace t : replace_exact other_table t = nan_to_other t.
Proof.
  unfold nan_to_other, other_table. simpl.
  destruct (str_eqb t (py "Nan")); [reflexivity|].
  destruct (str_eqb t (py "N/A")); reflexivity.
Qed.




(** ** The cleaned frame *)

Section CleanedFrame.

Context {R : FloatRepr}.


Lemma Normalized_unique c a b : Normalized c a -> Normalized c b -> a = b.
Proof.
  intros (t1 & u1 & T1 & C1 & ->) (t2 & u2 & T2 & C2 & ->).
  pose proof (Trimmed_unique _ _ _ T1 T2) as <-.
  now rewrite (TitleCased_unique _ _ _ C1 C2).
Qed.

Lemma amounts_not_nan data :
  Forall (fun x => isnan x = false) (List.map Amount (dataset data)).
Proof.
  apply Forall_forall. intros x Hx. apply in_map_iff in Hx.
  destruct Hx as (rec & <- & Hin).
  apply In_dataset in Hin. destruct Hin as (r & _ & Hr).
  apply clean_row_Some in Hr. destruct Hr as (d & _ & Hp & _ & ->).
  cbn [Amount]. now apply flt_isnan_r in Hp.
Qed.





(** Ranges that span what a frame without missing amounts holds keep all
    of it. *)
Lemma spanning_ranges_keep_all (df : list record) year_range cities
    funding_range :
  Forall (fun x => isnan x = false) (List.map Amount df) ->
  fst year_range <= min_Z (List.map Year df) ->
  max_Z (List.map Year df) <= snd year_range ->
  (forall r, In r df -> In (City r) cities) ->
  fle (fst funding_range) (min_float (List.map Amount df)) = true ->
  fle (max_float (List.map Amount df)) (snd funding_range) = true ->
  filtered_df df year_range cities funding_range = df.
Proof.
  intros Hnn Hlo Hhi Hc Hmin Hmax. apply filtered_df_all. intros r Hr.
  assert (Ha : In (Amount r) (List.map Amount df)) by now apply in_map.
  assert (Hy : In (Year r) (List.map Year df)) by now apply in_map.
  pose proof (min_Z_le _ _ Hy). pose proof (max_Z_ge _ _ Hy).
  repeat split; try lia.
  - now apply Hc.
  - eapply fle_trans; [exact Hmin|]. now apply min_float_le.
  - eapply fle_trans; [|exact Hmax]. now apply max_float_ge.
Qed.

(** C5.  On a cleaned frame, the filter of [main] with a year range that
    spans the years of the frame, a city selection that holds every city
    of the frame, and a funding range that spans its amounts, all ends
    included, returns the frame unchanged. *)
Theorem full_range_filter_is_identity data year_range cities funding_range :
  let df := dataset data in
  fst year_range <= min_Z (List.map Year df) ->
  max_Z (List.map Year df) <= snd year_range ->
  (forall r, In r df -> In (City r) cities) ->
  fle (fst funding_range) (min_float (List.map Amount df)) = true ->
  fle (max_float (List.map Amount df)) (snd funding_range) = true ->
  filtered_df df year_range cities funding_range = df.
Proof.
  intros df. apply spanning_ranges_keep_all. apply amounts_not_nan.
Qed.

(** The ranges the sliders of [main] start from, with every city
    selected, keep the whole frame. *)
Lemma main_default_ranges_keep_all data :
  let df := dataset data in
  filtered_df df (full_year_range df) (List.map City df)
              (full_funding_range df) = df.
Proof.
  intros df. destruct df as [|r0 df0] eqn:E; [reflexivity|]. rewrite <- E.
  pose proof (amounts_not_nan data) as Hnn. fold df in Hnn.
  assert (Hne : List.map Amount df <> []) by (rewrite E; discriminate).
  assert (Hmin : isnan (min_float (List.map Amount df)) = false /\
                 isnan (max_float (List.map Amount df)) = false).
  { destruct (List.map Amount df) as [|x xs]; [congruence|].
    inversion Hnn as [|? ? Hx Hxs]; subst. simpl.
    split; [apply (fold_fmin_spec xs x Hx Hxs)|apply (fold_fmax_spec xs x Hx Hxs)]. }
  apply spanning_ranges_keep_all; unfold full_year_range,
    full_funding_range; cbn [fst snd]; try lia.
  - exact Hnn.
  - intros r Hr. now apply in_map.
  - apply fle_refl, Hmin.
  - apply fle_refl, Hmin.
Qed.

End CleanedFrame.



Lemma full_range_filter_is_identity_witness :
  filtered_df (dataset (R := no_numeric_text) three_deals) (2014, 2016)
              [Bangalore; Delhi; Mumbai] (float_of_Z 1, float_of_Z 3)
  = dataset (R := no_numeric_text) three_deals.
Proof.
  apply (full_range_filter_is_identity (R := no_numeric_text) three_deals
           (2014, 2016) [Bangalore; Delhi; Mumbai]
           (float_of_Z 1, float_of_Z 3)).
  - apply Z.leb_le. vm_compute. reflexivity.
  - apply Z.leb_le. vm_compute. reflexivity.
  - intros r Hr. apply isin_In. revert r Hr. apply forallb_forall.
    vm_compute. reflexivity.
  - vm_compute. reflexivity.
  - vm_compute. reflexivity.
Defined.

(** ** Grouped sums *)

Lemma date_compare_Lt a b :
  date_compare a b = Lt <->
  year a < year b \/
  (year a = year b /\ (month a < month b \/
                       (month a = month b /\ day a < day b))).
Proof.
  unfold date_compare.
  destruct (Z.compare_spec (year a) (year b));
  destruct (Z.compare_spec (month a) (month b));
  destruct (Z.compare_spec (day a) (day b));
  split; intros Hyp; try discriminate; try reflexivity; lia.
Qed.

Lemma date_compare_Gt a b : date_compare a b = Gt <-> date_compare b a = Lt.
Proof.
  rewrite date_compare_Lt. unfold date_compare.
  destruct (Z.compare_spec (year a) (year b));
  destruct (Z.compare_spec (month a) (month b));
  destruct (Z.compare_spec (day a) (day b));
  split; intros Hyp; try discriminate; try reflexivity; lia.
Qed.

Lemma date_compare_Eq a b : date_compare a b = Eq <-> a = b.
Proof.
  split.
  - unfold date_compare. destruct a as [y m d], b as [y' m' d']. simpl.
    destruct (Z.compare_spec y y'); try discriminate.
    destruct (Z.compare_spec m m'); try discriminate.
    destruct (Z.compare_spec d d'); try discriminate.
    intros _. congruence.
  - intros <-. unfold date_compare. now rewrite !Z.compare_refl.
Qed.

Lemma date_eqb_eq a b : date_eqb a b = true <-> a = b.
Proof.
  unfold date_eqb. rewrite <- date_compare_Eq.
  destruct (date_compare a b); split; congruence.
Qed.

Lemma date_eqb_refl a : date_eqb a a = true.
Proof. now apply date_eqb_eq. Qed.

Lemma date_eqb_neq a b : date_eqb a b = false <-> a <> b.
Proof.
  rewrite <- date_eqb_eq. destruct (date_eqb a b); split; congruence.
Qed.

Lemma date_lt_trans a b c : date_lt a b -> date_lt b c -> date_lt a c.
Proof. unfold date_lt. rewrite !date_compare_Lt. lia. Qed.

Lemma date_lt_neq a b : date_lt a b -> a <> b.
Proof.
  unfold date_lt. intros H <-.
  assert (E : date_compare a a = Eq) by now apply date_compare_Eq.
  congruence.
Qed.

Lemma lookup_above {V} k (acc : list (date * V)) :
  Forall (fun x => date_lt k (fst x)) acc -> lookup k acc = None.
Proof.
  induction 1 as [|[k' t] acc Hk _ IH]; [reflexivity|].
  simpl in *. apply date_lt_neq, date_eqb_neq in Hk. now rewrite Hk.
Qed.

Lemma group_add_keys k v acc x :
  In x (group_add k v acc) -> fst x = k \/ exists y, In y acc /\ fst y = fst x.
Proof.
  induction acc as [|[k' t] acc IH]; simpl.
  - intros [<-|[]]. now left.
  - destruct (date_compare k k') eqn:E; simpl.
    + intros [<-|H].
      * right. exists (k', t). auto.
      * right. exists x. auto.
    + intros [<-|[<-|H]].
      * now left.
      * right. exists (k', t). auto.
      * right. exists x. auto.
    + intros [<-|H].
      * right. exists (k', t). auto.
      * destruct (IH H) as [Hk|(y & Hy & Ey)]; [now left|].
        right. exists y. auto.
Qed.

Lemma group_add_sorted k v acc :
  keys_increasing acc -> keys_increasing (group_add k v acc).
Proof.
  unfold keys_increasing.
  induction 1 as [|[k' t] acc Hs IH Hall]; simpl.
  - repeat constructor.
  - destruct (date_compare k k') eqn:E.
    + apply date_compare_Eq in E. subst k'.
      constructor; assumption.
    + constructor; [constructor; assumption|].
      constructor; [exact E|].
      eapply Forall_impl; [|exact Hall]. simpl. intros y Hy.
      eapply date_lt_trans; [exact E|exact Hy].
    + constructor; [exact IH|].
      apply Forall_forall. intros x Hx.
      destruct (group_add_keys _ _ _ _ Hx) as [->|(y & Hy & <-)].
      * simpl. now apply date_compare_Gt.
      * rewrite Forall_forall in Hall. now apply Hall.
Qed.

Lemma lookup_group_add k v acc k0 :
  keys_increasing acc ->
  lookup k0 (group_add k v acc) =
  if date_eqb k0 k then
    Some (kahan_add
            (match lookup k acc with Some t => t | None => kahan_zero end) v)
  else lookup k0 acc.
Proof.
  unfold keys_increasing.
  induction 1 as [|[k' t] acc Hs IH Hall]; simpl.
  - destruct (date_eqb k0 k); reflexivity.
  - destruct (date_compare k k') eqn:E.
    + apply date_compare_Eq in E. subst k'. rewrite date_eqb_refl. simpl.
      destruct (date_eqb k0 k); reflexivity.
    + assert (Hne : date_eqb k k' = false).
      { apply date_eqb_neq, date_lt_neq. exact E. }
      rewrite Hne. simpl.
      rewrite (lookup_above k acc).
      * destruct (date_eqb k0 k); reflexivity.
      * eapply Forall_impl; [|exact Hall]. simpl. intros y Hy.
        eapply date_lt_trans; [exact E|exact Hy].
    + assert (Hne : date_eqb k k' = false).
      { apply date_eqb_neq. intros ->.
        assert (date_compare k' k' = Eq) by now apply date_compare_Eq.
        congruence. }
      rewrite Hne. simpl. rewrite IH.
      destruct (date_eqb k0 k') eqn:E0; [|reflexivity].
      apply date_eqb_eq in E0. subst k0.
      assert (Hne' : date_eqb k' k = false).
      { apply date_eqb_neq. intros ->. rewrite date_eqb_refl in Hne. discriminate. }
      now rewrite Hne'.
Qed.

Lemma group_sum_snoc rows kv :
  group_sum (rows ++ [kv]) =
  match fst kv with
  | Some k => group_add k (snd kv) (group_sum rows)
  | None => group_sum rows
  end.
Proof. unfold group_sum. now rewrite fold_left_app. Qed.

Lemma group_values_snoc k rows kv :
  group_values k (rows ++ [kv]) =
  group_values k rows ++
  match fst kv with
  | Some k' => if date_eqb k k' then [snd kv] else []
  | None => []
  end.
Proof.
  unfold group_values. rewrite filter_app, map_app. f_equal. simpl.
  destruct (fst kv) as [k'|]; [|reflexivity].
  destruct (date_eqb k k'); reflexivity.
Qed.

Lemma group_sum_spec rows :
  keys_increasing (group_sum rows) /\
  forall k, lookup k (group_sum rows) =
            match group_values k rows with
            | [] => None
            | vs => Some (fold_left kahan_add vs kahan_zero)
            end.
Proof.
  induction rows as [|kv rows [IHs IHl]] using rev_ind.
  - split; [constructor|reflexivity].
  - rewrite group_sum_snoc. destruct kv as [[k|] v]; simpl fst; simpl snd.
    + split; [now apply group_add_sorted|].
      intros k0. rewrite lookup_group_add by assumption.
      rewrite group_values_snoc. simpl fst. simpl snd.
      destruct (date_eqb k0 k) eqn:E.
      * apply date_eqb_eq in E. subst k0. rewrite IHl, date_eqb_refl.
        destruct (group_values k rows) as [|x xs] eqn:G; [reflexivity|].
        cbn [app]. cbn [fold_left].
        now rewrite fold_left_app.
      * rewrite E, app_nil_r. apply IHl.
    + split; [assumption|]. intros k0. rewrite group_values_snoc.
      simpl. rewrite app_nil_r. apply IHl.
Qed.

Lemma lookup_map {V W} (f : V -> W) k (acc : list (date * V)) :
  lookup k (List.map (fun g => (fst g, f (snd g))) acc) =
  option_map f (lookup k acc).
Proof.
  induction acc as [|[k' t] acc IH]; [reflexivity|].
  simpl. destruct (date_eqb k k'); [reflexivity|exact IH].
Qed.

Lemma keys_increasing_map {V W} (f : V -> W) (acc : list (date * V)) :
  keys_increasing acc ->
  keys_increasing (List.map (fun g => (fst g, f (snd g))) acc).
Proof.
  unfold keys_increasing. induction 1 as [|x acc Hs IH Hall]; simpl.
  - constructor.
  - constructor; [exact IH|].
    rewrite Forall_map. eapply Forall_impl; [|exact Hall]. auto.
Qed.

Lemma groupby_sum_spec rows :
  keys_increasing (groupby_sum rows) /\
  forall k, lookup k (groupby_sum rows) =
            match group_values k rows with
            | [] => None
            | vs => Some (kahan_sum vs)
            end.
Proof.
  destruct (group_sum_spec rows) as [Hs Hl]. unfold groupby_sum. split.
  - now apply keys_increasing_map.
  - intros k. rewrite lookup_map, Hl.
    destruct (group_values k rows); reflexivity.
Qed.

Lemma lookup_In {V} k (t : V) acc :
  keys_increasing acc -> (In (k, t) acc <-> lookup k acc = Some t).
Proof.
  unfold keys_increasing.
  induction 1 as [|[k' t'] acc Hs IH Hall]; simpl.
  - split; [contradiction|discriminate].
  - destruct (date_eqb k k') eqn:E.
    + apply date_eqb_eq in E. subst k'. split.
      * intros [[= <-]|Hin]; [reflexivity|].
        rewrite Forall_forall in Hall. apply Hall in Hin. simpl in Hin.
        now apply date_lt_neq in Hin.
      * intros [= <-]. now left.
    + rewrite <- IH. split; [|tauto].
      intros [[= <- <-]|Hin]; [|assumption].
      rewrite date_eqb_refl in E. discriminate.
Qed.

Section MonthlyTotals.

Context {R : FloatRepr}.

Lemma dataset_Month data rec :
  In rec (dataset data) ->
  valid_date (Date rec) = true /\ Month rec = period_str (Date rec) /\
  Year rec = year (Date rec) /\
  to_datetime (Month rec) = Some (month_start (Date rec)).
Proof.
  intros Hin. apply In_dataset in Hin. destruct Hin as (r & _ & Hr).
  apply clean_row_Some in Hr. destruct Hr as (d & Hd & _ & _ & ->).
  cbn [Date Month Year].
  unfold clean_date in Hd. apply strptime_valid in Hd.
  repeat split; try assumption. now apply to_datetime_period_str.
Qed.

Lemma period_str_month_start d : period_str (month_start d) = period_str d.
Proof. reflexivity. Qed.

Lemma month_start_valid d :
  valid_date d = true -> valid_date (month_start d) = true.
Proof.
  intros Hv. apply valid_date_bounds in Hv.
  unfold valid_date, month_start. cbn [year month day].
  pose proof (days_in_month_le (year d) (month d)).
  rewrite !andb_true_iff, !Z.leb_le. lia.
Qed.

(** Two rows of the cleaned frame are in the same group exactly when
    their period texts agree. *)
Lemma same_group data S r k :
  incl S (dataset data) -> In r S ->
  (exists r0, In r0 S /\ k = month_start (Date r0)) ->
  (to_datetime (Month r) = Some k <-> Month r = period_str k).
Proof.
  intros HS Hr (r0 & Hr0 & ->).
  destruct (dataset_Month data r (HS _ Hr)) as (Hv & Hm & _ & Ht).
  destruct (dataset_Month data r0 (HS _ Hr0)) as (Hv0 & Hm0 & _ & Ht0).
  split.
  - rewrite Ht. unfold month_start. intros E. injection E as Ey Em.
    rewrite Hm. unfold period_str. cbn [year month]. now rewrite Ey, Em.
  - intros E. rewrite E. rewrite to_datetime_period_str.
    + reflexivity.
    + now apply month_start_valid.
Qed.

End MonthlyTotals.

Lemma perm3 {A} (a b c : A) l :
  NoDup [a; b; c] -> Permutation [a; b; c] l ->
  l = [a; b; c] \/ l = [a; c; b] \/ l = [b; a; c] \/
  l = [b; c; a] \/ l = [c; a; b] \/ l = [c; b; a].
Proof.
  intros Hnd Hp.
  pose proof (Permutation_length Hp) as Hlen.
  pose proof (Permutation_NoDup Hp Hnd) as Hnd'.
  destruct l as [|x [|y [|z [|? ?]]]]; try discriminate.
  assert (Hx : In x [a; b; c]) by (eapply Permutation_in; [symmetry; exact Hp|now left]).
  assert (Hy : In y [a; b; c]) by (eapply Permutation_in; [symmetry; exact Hp|right; now left]).
  assert (Hz : In z [a; b; c]) by (eapply Permutation_in; [symmetry; exact Hp|right; right; now left]).
  inversion Hnd' as [|? ? Nx Hnd'']; subst.
  inversion Hnd'' as [|? ? Ny _]; subst.
  simpl in Hx, Hy, Hz, Nx, Ny.
  destruct Hx as [<-|[<-|[<-|[]]]]; destruct Hy as [<-|[<-|[<-|[]]]];
    destruct Hz as [<-|[<-|[<-|[]]]]; tauto.
Qed.

Section MonthlyTotalsTheorem.

Context {R : FloatRepr}.

Lemma time_df_rows (S : list record) k :
  group_values k (List.map (fun r => (to_datetime (Month r), Amount r)) S) =
  List.map Amount (List.filter (in_group k) S).
Proof.
  unfold group_values, in_group. induction S as [|r S IH]; [reflexivity|].
  simpl. destruct (to_datetime (Month r)) as [k'|]; [|exact IH].
  destruct (date_eqb k k'); simpl; now rewrite IH.
Qed.

Lemma filter_nonempty {A} (f : A -> bool) l :
  List.filter f l <> [] <-> exists x, In x l /\ f x = true.
Proof.
  split.
  - intros H. destruct (List.filter f l) as [|x xs] eqn:E; [congruence|].
    exists x. apply filter_In. rewrite E. now left.
  - intros (x & Hx & Hf) E.
    assert (Hin : In x (List.filter f l)) by (apply filter_In; auto).
    rewrite E in Hin. contradiction.
Qed.

Lemma monthly_totals_general data (S : list record) :
  incl S (dataset data) ->
  keys_increasing (time_df S) /\
  forall k t,
    In (k, t) (time_df S) <->
    (exists r, In r S /\ k = month_start (Date r)) /\
    t = kahan_sum (List.map Amount (List.filter (in_period k) S)).
Proof.
  intros HS. unfold time_df.
  destruct (groupby_sum_spec
              (List.map (fun r => (to_datetime (Month r), Amount r)) S))
    as [Hs Hl].
  split; [exact Hs|]. intros k t.
  rewrite (lookup_In k t _ Hs), Hl, time_df_rows.
  set (f := in_group k).
  assert (Hobs : (exists r, In r S /\ f r = true) <->
                 (exists r, In r S /\ k = month_start (Date r))).
  { split; intros (r & Hr & H); exists r; (split; [assumption|]).
    - unfold f, in_group in H.
      destruct (dataset_Month data r (HS _ Hr)) as (_ & _ & _ & Ht).
      rewrite Ht in H. now apply date_eqb_eq in H.
    - unfold f, in_group.
      destruct (dataset_Month data r (HS _ Hr)) as (_ & _ & _ & Ht).
      rewrite Ht, H. apply date_eqb_refl. }
  assert (Hsame : (exists r, In r S /\ k = month_start (Date r)) ->
                  List.filter f S = List.filter (in_period k) S).
  { intros Hk. apply filter_ext_in. intros r Hr. unfold f, in_group, in_period.
    pose proof (same_group data S r k HS Hr Hk) as Hiff.
    destruct (str_eqb (Month r) (period_str k)) eqn:E.
    - apply str_eqb_eq in E. apply Hiff in E. rewrite E. apply date_eqb_refl.
    - destruct (to_datetime (Month r)) as [k'|] eqn:Et; [|reflexivity].
      apply date_eqb_neq. intros ->.
      assert (Month r = period_str k') by now apply Hiff.
      apply str_eqb_eq in H. congruence. }
  destruct (List.filter f S) as [|r0 rs] eqn:Ef.
  - cbn [List.map]. split; [intros Hd; discriminate Hd|]. intros [Hk _]. exfalso.
    apply Hobs in Hk. apply filter_nonempty in Hk. congruence.
  - assert (Hk : exists r, In r S /\ k = month_start (Date r)).
    { apply Hobs, filter_nonempty. congruence. }
    rewrite <- (Hsame Hk). cbn [List.map]. split.
    + intros [= <-]. auto.
    + intros [_ ->]. reflexivity.
Qed.

(** The compensation at work: 0.1, 0.2 and 0.3 add up to 0.6 in any
    order, where plain addition from left to right gives the next double
    above. *)
Example kahan_sum_tenths :
  let tenth n := fdiv (float_of_Z n) (float_of_Z 10) in
  kahan_sum [tenth 1; tenth 2; tenth 3] = tenth 6 /\
  kahan_sum [tenth 3; tenth 2; tenth 1] = tenth 6 /\
  kahan_sum [tenth 2; tenth 3; tenth 1] = tenth 6 /\
  fold_left fadd [tenth 1; tenth 2; tenth 3] fzero <> tenth 6.
Proof.
  repeat split; try (vm_compute; reflexivity).
  vm_compute. discriminate.
Qed.

Lemma time_df_pairs (S : list record) :
  time_df S =
  groupby_sum (List.map (fun p => (to_datetime (fst p), snd p))
                        (List.map (fun r : record => (Month r, Amount r)) S)).
Proof. unfold time_df. now rewrite map_map. Qed.

(** C6.  Over any part [S] of a cleaned frame, the monthly totals come out
    with their periods strictly increasing; a period is there exactly when
    a record of [S] falls in it, and its total is the sum of the amounts of
    the records of [S] with that period text, added in row order with the
    compensation of the library's grouped sum.  Over records with amounts
    1.0 and 2.0 in 2015-01 and 3.0 in 2015-02, in any order, the totals
    are 3.0 for 2015-01 and 3.0 for 2015-02. *)
Theorem monthly_funding_total :
  (forall data (S : list record),
     incl S (dataset data) ->
     keys_increasing (time_df S) /\
     forall k t,
       In (k, t) (time_df S) <->
       (exists r, In r S /\ k = month_start (Date r)) /\
       t = kahan_sum (List.map Amount (List.filter (in_period k) S)))
  /\
  (forall S : list record,
     Permutation [(py "2015-01", float_of_Z 1); (py "2015-01", float_of_Z 2);
                  (py "2015-02", float_of_Z 3)]
                 (List.map (fun r : record => (Month r, Amount r)) S) ->
     period_totals S =
     [(py "2015-01", float_of_Z 3); (py "2015-02", float_of_Z 3)]).
Proof.
  split; [apply monthly_totals_general|].
  intros S Hp. unfold period_totals. rewrite time_df_pairs.
  apply perm3 in Hp.
  - destruct Hp as [E|[E|[E|[E|[E|E]]]]]; rewrite E; vm_compute; reflexivity.
  - repeat constructor; simpl; intros H;
      repeat (destruct H as [H|H]; [discriminate H|]); exact H.
Qed.

End MonthlyTotalsTheorem.

Lemma monthly_funding_total_witness :
  period_totals (dataset (R := no_numeric_text) three_deals) =
  [(py "2015-01", float_of_Z 3); (py "2015-02", float_of_Z 3)].
Proof.
  apply (proj2 (monthly_funding_total (R := no_numeric_text))).
  vm_compute. apply Permutation_refl.
Defined.

(** ** Deal counts *)

Lemma str_eqb_neq a b : str_eqb a b = false <-> a <> b.
Proof. rewrite <- str_eqb_eq. destruct (str_eqb a b); split; congruence. Qed.

Lemma str_eqb_sym a b : str_eqb a b = str_eqb b a.
Proof.
  destruct (str_eqb a b) eqn:E.
  - apply str_eqb_eq in E. subst. symmetry. apply str_eqb_refl.
  - symmetry. apply str_eqb_neq. apply str_eqb_neq in E. congruence.
Qed.

Lemma clookup_count_add c t c' :
  clookup c' (count_add c t) =
  if str_eqb c' c
  then Some (S (match clookup c t with Some n => n | None => O end))
  else clookup c' t.
Proof.
  induction t as [|[k n] t IH]; simpl.
  - destruct (str_eqb c' c); reflexivity.
  - destruct (str_eqb c k) eqn:E; simpl.
    + apply str_eqb_eq in E. subst k.
      destruct (str_eqb c' c); reflexivity.
    + rewrite IH. destruct (str_eqb c' k) eqn:E'; [|reflexivity].
      apply str_eqb_eq in E'. subst k.
      rewrite str_eqb_sym, E. reflexivity.
Qed.

Lemma count_add_keys c t x :
  In x (List.map fst (count_add c t)) <-> x = c \/ In x (List.map fst t).
Proof.
  induction t as [|[k n] t IH]; simpl.
  - split; [intros [<-|[]]; auto|intros [->|[]]; auto].
  - destruct (str_eqb c k) eqn:E; simpl.
    + apply str_eqb_eq in E. subst k. split; [tauto|].
      intros [->|H]; tauto.
    + rewrite IH. tauto.
Qed.

Lemma count_add_NoDup c t :
  NoDup (List.map fst t) -> NoDup (List.map fst (count_add c t)).
Proof.
  induction t as [|[k n] t IH]; simpl; intros H.
  - repeat constructor. simpl. tauto.
  - inversion H as [|? ? Hk Hnd]; subst.
    destruct (str_eqb c k) eqn:E; simpl.
    + constructor; assumption.
    + constructor; [|now apply IH].
      rewrite count_add_keys. intros [->|Hin]; [|contradiction].
      rewrite str_eqb_refl in E. discriminate.
Qed.

Lemma count_table_snoc xs c :
  count_table (xs ++ [c]) = count_add c (count_table xs).
Proof. unfold count_table. now rewrite fold_left_app. Qed.

Lemma deal_count_snoc c' xs c :
  deal_count c' (xs ++ [c]) =
  (deal_count c' xs + if str_eqb c' c then 1 else 0)%nat.
Proof.
  unfold deal_count. rewrite filter_app, length_app. simpl.
  destruct (str_eqb c' c); reflexivity.
Qed.

Lemma count_table_spec xs :
  NoDup (List.map fst (count_table xs)) /\
  forall c, clookup c (count_table xs) =
            match deal_count c xs with
            | O => None
            | n => Some n
            end.
Proof.
  induction xs as [|x xs [IHn IHl]] using rev_ind.
  - split; [constructor|reflexivity].
  - rewrite count_table_snoc. split; [now apply count_add_NoDup|].
    intros c. rewrite clookup_count_add, deal_count_snoc.
    destruct (str_eqb c x) eqn:E.
    + apply str_eqb_eq in E. subst x. rewrite IHl.
      destruct (deal_count c xs) as [|n]; simpl; [reflexivity|].
      rewrite Nat.add_1_r. reflexivity.
    + rewrite Nat.add_0_r. apply IHl.
Qed.

Lemma clookup_In c n t :
  NoDup (List.map fst t) -> (In (c, n) t <-> clookup c t = Some n).
Proof.
  induction t as [|[k m] t IH]; simpl; intros H.
  - split; [contradiction|discriminate].
  - inversion H as [|? ? Hk Hnd]; subst.
    destruct (str_eqb c k) eqn:E.
    + apply str_eqb_eq in E. subst k. split.
      * intros [[= <-]|Hin]; [reflexivity|].
        exfalso. apply Hk. apply in_map_iff. now exists (c, n).
      * intros [= <-]. now left.
    + rewrite <- (IH Hnd). split; [|tauto].
      intros [[= <- <-]|Hin]; [|assumption].
      rewrite str_eqb_refl in E. discriminate.
Qed.

Lemma count_table_In xs c n :
  In (c, n) (count_table xs) <-> n = deal_count c xs /\ (0 < n)%nat.
Proof.
  destruct (count_table_spec xs) as [Hnd Hl].
  rewrite (clookup_In c n _ Hnd), Hl.
  destruct (deal_count c xs) as [|m]; split.
  - discriminate.
  - intros [-> H]. lia.
  - intros [= <-]. split; [reflexivity|lia].
  - intros [-> _]. reflexivity.
Qed.

Lemma deal_count_pos c xs : In c xs <-> (0 < deal_count c xs)%nat.
Proof.
  unfold deal_count. split.
  - intros H. assert (Hin : In c (List.filter (str_eqb c) xs)).
    { apply filter_In. split; [assumption|apply str_eqb_refl]. }
    destruct (List.filter (str_eqb c) xs); [contradiction|simpl; lia].
  - intros H. destruct (List.filter (str_eqb c) xs) as [|y ys] eqn:E;
      [simpl in H; lia|].
    assert (Hy : In y (List.filter (str_eqb c) xs)) by (rewrite E; now left).
    apply filter_In in Hy. destruct Hy as [Hy Ey].
    apply str_eqb_eq in Ey. now subst.
Qed.

(** ** The stable sort *)

Lemma insert_desc_perm x t : Permutation (x :: t) (insert_desc x t).
Proof.
  induction t as [|y t IH]; simpl; [reflexivity|].
  destruct (snd x <? snd y)%nat; [|reflexivity].
  rewrite perm_swap. now constructor.
Qed.

Lemma stable_sort_desc_perm t : Permutation t (stable_sort_desc t).
Proof.
  induction t as [|x t IH]; simpl; [constructor|].
  rewrite <- insert_desc_perm. now constructor.
Qed.

Lemma insert_desc_sorted x t :
  StronglySorted count_ge t -> StronglySorted count_ge (insert_desc x t).
Proof.
  induction 1 as [|y t Hs IH Hall]; simpl.
  - repeat constructor.
  - destruct (Nat.ltb_spec (snd x) (snd y)).
    + constructor; [exact IH|].
      apply Forall_forall. intros z Hz.
      apply (Permutation_in _ (Permutation_sym (insert_desc_perm x t))) in Hz.
      destruct Hz as [<-|Hz].
      * unfold count_ge. lia.
      * rewrite Forall_forall in Hall. now apply Hall.
    + constructor; [constructor; assumption|].
      constructor; [exact H|].
      eapply Forall_impl; [|exact Hall]. unfold count_ge. simpl. intros; lia.
Qed.

Lemma stable_sort_desc_sorted t : StronglySorted count_ge (stable_sort_desc t).
Proof.
  induction t as [|x t IH]; simpl; [constructor|].
  now apply insert_desc_sorted.
Qed.

(** Sorting leaves a sorted table as it is: the order among equal counts
    is kept. *)
Lemma stable_sort_desc_id t :
  StronglySorted count_ge t -> stable_sort_desc t = t.
Proof.
  induction 1 as [|y t Hs IH Hall]; [reflexivity|].
  simpl. rewrite IH. destruct t as [|z t]; [reflexivity|].
  simpl. inversion Hall as [|? ? Hz _]; subst. unfold count_ge in Hz.
  destruct (Nat.ltb_spec (snd y) (snd z)); [lia|reflexivity].
Qed.

Lemma In_firstn {A} n (l : list A) x : In x (firstn n l) -> In x l.
Proof.
  intros H. rewrite <- (firstn_skipn n l). apply in_or_app. now left.
Qed.

Lemma sorted_firstn {A} (P : A -> A -> Prop) n : forall l,
  StronglySorted P l -> StronglySorted P (firstn n l).
Proof.
  induction n as [|n IH]; intros l H; [constructor|].
  destruct H as [|x l Hs Hall]; [constructor|]. simpl.
  constructor; [now apply IH|].
  apply Forall_forall. intros y Hy. apply In_firstn in Hy.
  rewrite Forall_forall in Hall. now apply Hall.
Qed.

Lemma sorted_app_cross {A} (P : A -> A -> Prop) a : forall b,
  StronglySorted P (a ++ b) -> forall x y, In x a -> In y b -> P x y.
Proof.
  induction a as [|z a IH]; intros b H x y Hx Hy; [contradiction|].
  simpl in H. inversion H as [|? ? Hs Hall]; subst.
  destruct Hx as [<-|Hx].
  - rewrite Forall_forall in Hall. apply Hall. apply in_or_app. now right.
  - now apply (IH b).
Qed.

Lemma NoDup_firstn {A} n (l : list A) : NoDup l -> NoDup (firstn n l).
Proof.
  intros H. rewrite <- (firstn_skipn n l) in H.
  now apply NoDup_app_remove_r in H.
Qed.

(** ** The table of [plot_top_cities] *)

Section TopCitiesFacts.

Context {S : SortValues}.
Hypothesis sort_values_ok : sorts_by_count sort_values.

Lemma sort_values_perm t : Permutation t (sort_values t).
Proof. apply sort_values_ok. Qed.

Lemma sort_values_desc t : StronglySorted count_ge (sort_values t).
Proof. apply sort_values_ok. Qed.

Lemma nlargest_sorted_perm n t :
  exists l, Permutation t l /\ StronglySorted count_ge l /\
            nlargest n t = firstn n l.
Proof.
  unfold nlargest. destruct (List.length t <=? n)%nat.
  - exists (sort_values t).
    auto using sort_values_perm, sort_values_desc.
  - exists (stable_sort_desc t).
    auto using stable_sort_desc_perm, stable_sort_desc_sorted.
Qed.

Lemma city_df_sorted_perm (df : list record) :
  exists l, Permutation (count_table (List.map City df)) l /\
            StronglySorted count_ge l /\ city_df df = firstn 10 l.
Proof.
  unfold city_df, value_counts.
  destruct (nlargest_sorted_perm 10 (sort_values (count_table (List.map City df))))
    as (l & Hp & Hs & E).
  exists l. split; [|auto].
  etransitivity; [apply sort_values_perm|exact Hp].
Qed.

(** The [n] largest of the counts of a column: the first [n] entries of
    the count table in some order of decreasing count. *)
Lemma top_n_sorted_perm n (xs : list pystr) :
  exists l, Permutation (count_table xs) l /\
            StronglySorted count_ge l /\
            nlargest n (value_counts xs) = firstn n l.
Proof.
  unfold value_counts.
  destruct (nlargest_sorted_perm n (sort_values (count_table xs)))
    as (l & Hp & Hs & E).
  exists l. split; [|auto].
  etransitivity; [apply sort_values_perm|exact Hp].
Qed.

Lemma top_cities_general n (df : list record) :
  let xs := List.map City df in
  let out := nlargest n (value_counts xs) in
  (List.length out <= n)%nat /\
  StronglySorted count_ge out /\
  NoDup (List.map fst out) /\
  (forall c k, In (c, k) out -> k = deal_count c xs /\ (0 < k)%nat) /\
  (forall c, In c xs -> ~ In c (List.map fst out) ->
             forall c' k', In (c', k') out -> (deal_count c xs <= k')%nat).
Proof.
  intros xs out. subst out.
  destruct (top_n_sorted_perm n xs) as (l & Hp & Hs & ->).
  destruct (count_table_spec xs) as [Hnd _].
  assert (Hndl : NoDup (List.map fst l)).
  { eapply Permutation_NoDup; [|exact Hnd]. now apply Permutation_map. }
  split; [apply firstn_le_length|].
  split; [now apply sorted_firstn|].
  split; [rewrite <- firstn_map; now apply NoDup_firstn|].
  split.
  - intros c k Hin. apply In_firstn in Hin.
    apply (Permutation_in _ (Permutation_sym Hp)) in Hin.
    now apply count_table_In.
  - intros c Hc Hout c' k' Hin'.
    assert (Hin : In (c, deal_count c xs) l).
    { apply (Permutation_in _ Hp). apply count_table_In.
      split; [reflexivity|now apply deal_count_pos]. }
    rewrite <- (firstn_skipn n l) in Hin, Hs.
    apply in_app_or in Hin. destruct Hin as [Hin|Hin].
    + exfalso. apply Hout. apply in_map_iff.
      now exists (c, deal_count c xs).
    + apply (sorted_app_cross _ _ _ Hs _ _ Hin' Hin).
Qed.

(** Fewer cities asked for than there are: the table of [value_counts] is
    cut, and the order it has among equal counts is kept. *)
Lemma top_cities_cut n (xs : list pystr) :
  (n < List.length (value_counts xs))%nat ->
  nlargest n (value_counts xs) = firstn n (value_counts xs).
Proof.
  intros Hn. unfold nlargest.
  destruct (Nat.leb_spec (List.length (value_counts xs)) n); [lia|].
  rewrite stable_sort_desc_id; [reflexivity|].
  unfold value_counts. apply sort_values_desc.
Qed.

Lemma count_table_three (xs : list pystr) :
  deal_count Bangalore xs = 5%nat ->
  deal_count Mumbai xs = 5%nat ->
  deal_count Delhi xs = 3%nat ->
  (forall c, In c xs -> c = Bangalore \/ c = Mumbai \/ c = Delhi) ->
  Permutation [(Bangalore, 5%nat); (Mumbai, 5%nat); (Delhi, 3%nat)]
              (count_table xs).
Proof.
  intros HB HM HD Hall.
  destruct (count_table_spec xs) as [Hnd _].
  apply NoDup_Permutation.
  - repeat constructor; simpl; intros H;
      repeat (destruct H as [H|H]; [discriminate H|]); exact H.
  - eapply NoDup_map_inv. exact Hnd.
  - intros [c n]. rewrite count_table_In. simpl. split.
    + intros [ [= <- <-] | [ [= <- <-] | [ [= <- <-] | [] ] ] ]; split; auto; lia.
    + intros [-> Hpos]. apply deal_count_pos in Hpos.
      destruct (Hall c Hpos) as [-> | [-> | ->]];
        [rewrite HB|rewrite HM|rewrite HD]; auto.
Qed.

(** What [nlargest(2)] would return on such a table: the two cities
    with five deals. *)
Lemma nlargest_2_of_three t :
  Permutation [(Bangalore, 5%nat); (Mumbai, 5%nat); (Delhi, 3%nat)] t ->
  nlargest 2 t = [(Bangalore, 5%nat); (Mumbai, 5%nat)] \/
  nlargest 2 t = [(Mumbai, 5%nat); (Bangalore, 5%nat)].
Proof.
  intros Hp.
  destruct (nlargest_sorted_perm 2 t) as (l & Hl & Hs & ->).
  pose proof (Permutation_trans Hp Hl) as H3l.
  apply perm3 in H3l.
  2:{ repeat constructor; simpl; intros H;
        repeat (destruct H as [H|H]; [discriminate H|]); exact H. }
  destruct H3l as [E|[E|[E|[E|[E|E]]]]]; subst l; simpl; auto;
    exfalso;
    repeat match goal with
    | H : StronglySorted _ (_ :: _) |- _ => inversion H; clear H; subst
    | H : Forall _ (_ :: _) |- _ => inversion H; clear H; subst
    end;
    unfold count_ge in *; simpl in *; lia.
Qed.

(** C7.  The [n] cities of most deals, [value_counts().nlargest(n)] over
    the column City, of which [plot_top_cities] takes the case of ten:
    whatever order the sorting method gives to equal counts, the table
    has at most [n] entries, by decreasing deal count, each city once
    with its number of deals, and no city left out has more deals than
    one in the table.  Equal counts come in the order that
    [value_counts] gave them when fewer cities are asked for than there
    are.  For [n] of 2 over rows with five deals in Bangalore, five in
    Mumbai and three in Delhi the table has two entries, Bangalore and
    Mumbai in one order or the other; Delhi is left out. *)
Theorem top_cities_by_deal_count :
  (forall (n : nat) (df : list record),
     let xs := List.map City df in
     let out := nlargest n (value_counts xs) in
     (List.length out <= n)%nat /\
     StronglySorted count_ge out /\
     NoDup (List.map fst out) /\
     (forall c k, In (c, k) out -> k = deal_count c xs /\ (0 < k)%nat) /\
     (forall c, In c xs -> ~ In c (List.map fst out) ->
                forall c' k', In (c', k') out ->
                              (deal_count c xs <= k')%nat) /\
     ((n < List.length (value_counts xs))%nat ->
      out = firstn n (value_counts xs))) /\
  (forall df : list record,
     city_df df = nlargest 10 (value_counts (List.map City df))) /\
  (forall df : list record,
     let xs := List.map City df in
     deal_count Bangalore xs = 5%nat ->
     deal_count Mumbai xs = 5%nat ->
     deal_count Delhi xs = 3%nat ->
     (forall c, In c xs -> c = Bangalore \/ c = Mumbai \/ c = Delhi) ->
     nlargest 2 (value_counts xs) = [(Bangalore, 5%nat); (Mumbai, 5%nat)] \/
     nlargest 2 (value_counts xs) = [(Mumbai, 5%nat); (Bangalore, 5%nat)]).
Proof.
  split; [|split].
  - intros n df xs out.
    destruct (top_cities_general n df) as (H1 & H2 & H3 & H4 & H5).
    repeat split; try assumption.
    + now apply H4 in H.
    + now apply H4 in H.
    + apply top_cities_cut.
  - reflexivity.
  - intros df xs HB HM HD Hall. apply nlargest_2_of_three.
    etransitivity; [apply (count_table_three xs HB HM HD Hall)|].
    unfold value_counts. apply sort_values_perm.
Qed.

End TopCitiesFacts.

Lemma stable_sort_ok : sorts_by_count (sort_values (SortValues := stable_sort)).
Proof.
  split; [exact stable_sort_desc_perm|exact stable_sort_desc_sorted].
Qed.

Lemma top_cities_by_deal_count_witness :
  nlargest (S := stable_sort) 2
    (value_counts (S := stable_sort)
       (List.map City (dataset (R := no_numeric_text) thirteen_deals)))
  = [(Bangalore, 5%nat); (Mumbai, 5%nat)] \/
  nlargest (S := stable_sort) 2
    (value_counts (S := stable_sort)
       (List.map City (dataset (R := no_numeric_text) thirteen_deals)))
  = [(Mumbai, 5%nat); (Bangalore, 5%nat)].
Proof.
  apply (proj2 (proj2 (top_cities_by_deal_count (S := stable_sort)
                         stable_sort_ok))
           (dataset (R := no_numeric_text) thirteen_deals)).
  - vm_compute. reflexivity.
  - vm_compute. reflexivity.
  - vm_compute. reflexivity.
  - intros c Hc.
    assert (Hin : In c [Bangalore; Mumbai; Delhi]).
    { apply isin_In. revert c Hc. apply forallb_forall.
      vm_compute. reflexivity. }
    clear Hc. simpl in Hin.
    destruct Hin as [<- | [<- | [<- | []]]]; auto.
Defined.

(* ================================================================== *)
(** * Further properties of the pipeline *)
(* ================================================================== *)

Section MoreDatasetFacts.

Context {R : FloatRepr}.

Lemma dataset_length_le w (rs : list (list cell)) :
  (List.length (dataset (mkframe w rs)) <= List.length rs)%nat.
Proof.
  destruct (Nat.lt_ge_cases w 21) as [Hw|Hw].
  - rewrite dataset_narrow by exact Hw. simpl. lia.
  - rewrite dataset_rows by exact Hw. cbn [rows].
    induction rs as [|r rs IH]; [simpl; lia|].
    cbn [flat_map]. rewrite length_app. cbn [List.length].
    destruct (clean_row r); simpl; lia.
Qed.

Lemma clean_row_amount_kept r rec :
  clean_row r = Some rec -> amount_kept r = true.
Proof.
  unfold clean_row. fold (amount_kept r).
  destruct (amount_kept r); [reflexivity|discriminate].
Qed.

Lemma no_amount_no_record (rs : list (list cell)) :
  existsb amount_kept rs = false ->
  flat_map (fun r => olist (clean_row r)) rs = [].
Proof.
  induction rs as [|r rs IH]; [reflexivity|].
  cbn [existsb flat_map]. intros E. apply orb_false_iff in E.
  destruct E as [Er E]. rewrite (IH E).
  destruct (clean_row r) as [rec|] eqn:Ec; [|reflexivity].
  apply clean_row_amount_kept in Ec. congruence.
Qed.

(** X1.  Over a frame of 21 columns or more, [load_data] raises
    [AttributeError] when no row has an amount that is a number above 0,
    and returns a frame, of no more records than rows, otherwise.  It
    judges each row by itself: over rows put one after the other it
    returns the frames of the two parts put one after the other, a part
    over which it raises counting for no record, and it raises only when
    it raises over both parts. *)
Theorem rows_cleaned_one_by_one w (rows1 rows2 : list (list cell)) :
  (21 <= w)%nat ->
  let load rs := snd (load_data (Some (mkframe w rs))) in
  (forall rs, existsb amount_kept rs = false ->
              load rs = raises AttributeError) /\
  (forall rs, existsb amount_kept rs = true ->
              exists df, load rs = returns df /\
                         (List.length df <= List.length rs)%nat) /\
  load (rows1 ++ rows2) =
  match load rows1, load rows2 with
  | raises e, raises _ => raises e
  | l1, l2 => returns (frame_of l1 ++ frame_of l2)
  end.
Proof.
  intros Hw load.
  assert (Hload : forall rs,
             load rs =
             if existsb amount_kept rs
             then returns (flat_map (fun r => olist (clean_row r)) rs)
             else raises AttributeError).
  { intros rs. unfold load.
    now rewrite (load_data_wide (mkframe w rs) Hw). }
  split; [|split].
  - intros rs E. now rewrite Hload, E.
  - intros rs E. rewrite Hload, E. eexists. split; [reflexivity|].
    pose proof (dataset_length_le w rs) as H.
    now rewrite (dataset_rows (mkframe w rs) Hw) in H.
  - rewrite !Hload, existsb_app, flat_map_app.
    destruct (existsb amount_kept rows1) eqn:E1,
             (existsb amount_kept rows2) eqn:E2;
      cbn [orb frame_of]; try reflexivity.
    + now rewrite (no_amount_no_record rows2 E2).
    + now rewrite (no_amount_no_record rows1 E1).
Qed.

Lemma amount_text_separator l c r :
  c = code "," \/ c = code "$" ->
  amount_text (l ++ c :: r) = amount_text (l ++ r).
Proof.
  intros Hc. unfold amount_text. rewrite !remove_char_app.
  replace (remove_char (code "$") (remove_char (code ",") (c :: r)))
    with (remove_char (code "$") (remove_char (code ",") r)); [reflexivity|].
  destruct Hc as [-> | ->]; reflexivity.
Qed.

(** X2.  A comma or a dollar sign at any place of a text amount is
    ignored by [clean_amount]: the cell with the sign and the cell without
    it give the same amount. *)
Theorem amount_separators_ignored (l r : pystr) (c : pychar) :
  c = code "," \/ c = code "$" ->
  clean_amount (CStr (l ++ c :: r)) = clean_amount (CStr (l ++ r)).
Proof.
  intros Hc. unfold clean_amount. now rewrite amount_text_separator.
Qed.

(** X3.  The period text that [load_data] writes in [Month] is read back
    by [plot_funding_trend] as the first day of the month of the record's
    date, for every record of the cleaned frame: no record is without a
    month in the trend, and the text has seven characters. *)
Theorem month_reads_back data rec :
  In rec (dataset data) ->
  to_datetime (Month rec) = Some (month_start (Date rec)) /\
  List.length (Month rec) = 7%nat.
Proof.
  intros Hin. destruct (dataset_Month data rec Hin) as (_ & Hm & _ & Ht).
  split; [exact Ht|].
  rewrite Hm. unfold period_str.
  rewrite !length_app, !pad_digits_length. reflexivity.
Qed.

End MoreDatasetFacts.

Lemma amount_separators_ignored_witness :
  clean_amount (text "1,5") = clean_amount (text "15").
Proof.
  apply (amount_separators_ignored (py "1") (py "5") (code ",")).
  now left.
Defined.

Lemma month_reads_back_witness :
  In first_deal (dataset (R := no_numeric_text) three_deals) /\
  to_datetime (Month first_deal) = Some (month_start (Date first_deal)) /\
  List.length (Month first_deal) = 7%nat.
Proof.
  assert (Hin : In first_deal (dataset (R := no_numeric_text) three_deals)).
  { vm_compute. left. reflexivity. }
  split; [exact Hin|].
  exact (month_reads_back (R := no_numeric_text) three_deals first_deal Hin).
Defined.

(** ** Cleaning text that is already clean *)

Lemma ascii_upper c :
  (65 <= c <= 90)%N ->
  isupper c = true /\ islower c = false /\ isspace c = false.
Proof.
  intros H. unfold isupper, islower, isspace. repeat split; bprop; lia.
Qed.

Lemma ascii_lower_letter c :
  (97 <= c <= 122)%N ->
  isupper c = false /\ islower c = true /\ isspace c = false.
Proof.
  intros H. unfold isupper, islower, isspace. repeat split; bprop; lia.
Qed.

Lemma ascii_other c :
  (c < 128)%N -> ~ (65 <= c <= 90)%N -> ~ (97 <= c <= 122)%N ->
  isupper c = false /\ islower c = false.
Proof.
  intros H H1 H2. unfold isupper, islower. repeat split; bprop; lia.
Qed.

(** One step of [str.title] on an ASCII character. *)
Lemma title_from_ascii_cons b c s :
  (c <? 128)%N = true ->
  exists o,
    title_from b (c :: s) = o :: title_from (iscased c) s /\
    (o <? 128)%N = true /\ iscased o = iscased c /\
    isspace o = isspace c /\
    (if b then [lower_char o] else title_char o) = [o].
Proof.
  intros Hc. apply N.ltb_lt in Hc.
  assert (Hcls : (65 <= c <= 90)%N \/ (97 <= c <= 122)%N \/
                 (~ (65 <= c <= 90)%N /\ ~ (97 <= c <= 122)%N)) by lia.
  assert (Ht : forall x, (97 <= x <= 122)%N -> title_char x = [(x - 32)%N]).
  { intros x Hx. unfold title_char.
    replace (in_range 97 122 x) with true; [reflexivity|].
    symmetry. bprop. lia. }
  assert (Hn : forall x, (x < 97)%N -> title_char x = [x]).
  { intros x Hx. unfold title_char.
    repeat match goal with
    | |- context [if ?t then _ else _] =>
        let E := fresh "E" in destruct t eqn:E; [exfalso; bprop; lia|]
    end. reflexivity. }
  destruct Hcls as [Hu|[Hl|[Hnu Hnl]]].
  - (* an upper-case letter *)
    destruct (ascii_upper c Hu) as (U1 & U2 & U3).
    destruct (ascii_lower_letter (c + 32)%N ltac:(lia)) as (L1 & L2 & L3).
    destruct b.
    + exists (c + 32)%N. cbn [title_from]. unfold lower_char, iscased.
      rewrite U1, U2, U3, L1, L2, L3. repeat split. apply N.ltb_lt. lia.
    + exists c. cbn [title_from]. unfold iscased.
      rewrite (Hn c) by lia. repeat split. apply N.ltb_lt. lia.
  - (* a lower-case letter *)
    destruct (ascii_lower_letter c Hl) as (L1 & L2 & L3).
    destruct (ascii_upper (c - 32)%N ltac:(lia)) as (U1 & U2 & U3).
    destruct b.
    + exists c. cbn [title_from]. unfold lower_char, iscased.
      rewrite L1, L2. repeat split. apply N.ltb_lt. lia.
    + exists (c - 32)%N. cbn [title_from]. unfold iscased.
      rewrite (Ht c Hl), (Hn (c - 32)%N) by lia.
      rewrite U1, U2, U3, L1, L2, L3. repeat split. apply N.ltb_lt. lia.
  - (* no letter *)
    destruct (ascii_other c Hc Hnu Hnl) as (O1 & O2).
    exists c. cbn [title_from]. unfold lower_char, iscased.
    rewrite O1, O2. cbn [orb].
    assert (Hx : title_char c = [c]).
    { unfold title_char.
      repeat match goal with
      | |- context [if ?t then _ else _] =>
          let E := fresh "E" in destruct t eqn:E; [exfalso; bprop; lia|]
      end. reflexivity. }
    rewrite Hx. destruct b; repeat split; apply N.ltb_lt; lia.
Qed.

Lemma title_from_ascii s : forall b,
  is_ascii s = true ->
  title_from b (title_from b s) = title_from b s /\
  is_ascii (title_from b s) = true /\
  List.map isspace (title_from b s) = List.map isspace s.
Proof.
  induction s as [|c s IH]; intros b Hs; [repeat split|].
  cbn [is_ascii forallb] in Hs. apply andb_true_iff in Hs.
  destruct Hs as [Hc Hs].
  destruct (title_from_ascii_cons b c s Hc) as (o & E & Ho & Hcased & Hsp & Hfix).
  destruct (IH (iscased c) Hs) as (IH1 & IH2 & IH3).
  unfold pystr, pychar in *. rewrite E. repeat split.
  - cbn [title_from]. unfold pystr, pychar in *.
    rewrite Hfix, Hcased, IH1. reflexivity.
  - cbn [is_ascii forallb]. rewrite Ho. exact IH2.
  - cbn [List.map]. rewrite Hsp, IH3. reflexivity.
Qed.

Lemma no_leading_blank_map s t :
  List.map isspace s = List.map isspace t ->
  no_leading_blank t -> no_leading_blank s.
Proof.
  destruct s as [|a s], t as [|b t]; simpl; try discriminate; auto.
  intros [= -> _]. auto.
Qed.

Lemma strip_fixed t :
  no_leading_blank t -> no_leading_blank (rev t) -> strip t = t.
Proof.
  intros Hl Hr.
  assert (L : forall u, no_leading_blank u -> lstrip u = u).
  { intros [|c u]; simpl; [reflexivity|]. now intros ->. }
  unfold strip, rstrip. rewrite (L t Hl), (L _ Hr). apply rev_involutive.
Qed.

Lemma is_ascii_app a b : is_ascii (a ++ b) = is_ascii a && is_ascii b.
Proof. apply forallb_app. Qed.

Lemma strip_ascii s : is_ascii s = true -> is_ascii (strip s) = true.
Proof.
  intros Hs. destruct (strip_shape s) as (l & r & E & _).
  rewrite E, !is_ascii_app, !andb_true_iff in Hs. tauto.
Qed.

(** The title-cased trimmed text is left alone by trimming and by
    title-casing. *)
Lemma title_strip_fixed s :
  is_ascii s = true ->
  let t := title (strip s) in
  strip t = t /\ title t = t /\ is_ascii t = true.
Proof.
  intros Hs t.
  destruct (title_from_ascii (strip s) false (strip_ascii s Hs))
    as (H1 & H2 & H3).
  fold (title (strip s)) in H1, H2, H3. fold t in H1, H2, H3.
  destruct (strip_shape s) as (l & r & _ & _ & _ & Ha & Hb).
  repeat split; try assumption.
  apply strip_fixed.
  - now apply (no_leading_blank_map _ _ H3).
  - apply (no_leading_blank_map _ (rev (strip s))); [|exact Hb].
    rewrite !map_rev. now f_equal.
Qed.

Section StableText.

Context {R : FloatRepr}.

Lemma clean_text_fixed (c : cell) :
  is_ascii (str_of_cell c) = true ->
  clean_text (CStr (clean_text c)) = clean_text c /\
  is_ascii (clean_text c) = true.
Proof.
  intros Hs.
  destruct (title_strip_fixed _ Hs) as (H1 & H2 & H3).
  set (t := title (strip (str_of_cell c))) in *.
  assert (Hc : clean_text c = nan_to_other t)
    by (unfold clean_text; apply nan_to_other_replace).
  rewrite Hc. unfold nan_to_other.
  destruct (str_eqb t (py "Nan") || str_eqb t (py "N/A")) eqn:E.
  - split; reflexivity.
  - split; [|exact H3].
    unfold clean_text. cbn [str_of_cell]. rewrite H1, H2.
    rewrite nan_to_other_replace. unfold nan_to_other. now rewrite E.
Qed.

Lemma alias_fixed table (u : pystr) :
  clean_text (CStr u) = u ->
  Forall (fun kv => clean_text (CStr (snd kv)) = snd kv /\
                    replace_exact table (snd kv) = snd kv) table ->
  replace_exact table
    (clean_text (CStr (replace_exact table u))) = replace_exact table u.
Proof.
  intros Hu Ht.
  assert (G : forall t',
    Forall (fun kv => clean_text (CStr (snd kv)) = snd kv /\
                      replace_exact table (snd kv) = snd kv) t' ->
    replace_exact t' u = u \/
    (clean_text (CStr (replace_exact t' u)) = replace_exact t' u /\
     replace_exact table (replace_exact t' u) = replace_exact t' u)).
  { induction t' as [|[k v] t' IH]; intros Ht'; [now left|].
    inversion Ht' as [|? ? [Hv1 Hv2] Ht'']; subst. simpl.
    destruct (str_eqb u k); [right; split; assumption|now apply IH]. }
  destruct (G table Ht) as [E|[E1 E2]].
  - rewrite E, Hu. exact E.
  - rewrite E1. exact E2.
Qed.

(** X4.  Cleaning is stable on ASCII text: the normalised text of a cell
    is its own normalised text, and a city or an investment type that
    went through its alias table comes out of normalisation and the table
    again unchanged.  Loading a cleaned frame again changes none of its
    text. *)
Theorem cleaned_text_is_stable (c : cell) :
  is_ascii (str_of_cell c) = true ->
  let name := clean_text c in
  let city := replace_exact city_table (clean_text c) in
  let kind := replace_exact investment_table (clean_text c) in
  clean_text (CStr name) = name /\
  replace_exact city_table (clean_text (CStr city)) = city /\
  replace_exact investment_table (clean_text (CStr kind)) = kind.
Proof.
  intros Hs name city kind.
  destruct (clean_text_fixed c Hs) as [Hfix _].
  split; [exact Hfix|]. split.
  - apply alias_fixed; [exact Hfix|].
    repeat constructor.
  - apply alias_fixed; [exact Hfix|].
    repeat constructor.
Qed.

End StableText.

Lemma cleaned_text_is_stable_witness :
  clean_text (R := no_numeric_text) (text " new delhi ") = py "New Delhi" /\
  replace_exact city_table
    (clean_text (R := no_numeric_text) (CStr (py "Delhi"))) = py "Delhi".
Proof.
  split; [reflexivity|].
  exact (proj1 (proj2 (cleaned_text_is_stable (R := no_numeric_text)
                         (text " new delhi ") eq_refl))).
Defined.

(** ** The order of texts, [unique] and [sorted] *)

Lemma str_compare_eq a : forall b, str_compare a b = Eq <-> a = b.
Proof.
  induction a as [|x a IH]; intros [|y b]; simpl;
    try (split; [discriminate|discriminate]); [tauto|].
  destruct (N.compare_spec x y) as [->|H|H].
  - rewrite IH. split; [now intros ->|now intros [= ->]].
  - split; [discriminate|]. intros [= -> _]. lia.
  - split; [discriminate|]. intros [= -> _]. lia.
Qed.

Lemma str_compare_antisym a : forall b,
  str_compare b a = CompOpp (str_compare a b).
Proof.
  induction a as [|x a IH]; intros [|y b]; simpl; try reflexivity.
  rewrite (N.compare_antisym x y).
  destruct (x ?= y)%N; simpl; auto.
Qed.

Lemma str_compare_trans a : forall b c,
  str_compare a b = Lt -> str_compare b c = Lt -> str_compare a c = Lt.
Proof.
  induction a as [|x a IH]; intros [|y b] [|z c]; simpl; try discriminate;
    try reflexivity.
  destruct (x ?= y)%N eqn:E1; destruct (y ?= z)%N eqn:E2; try discriminate;
    intros Ha Hb.
  - apply N.compare_eq_iff in E1, E2. subst. rewrite N.compare_refl. eauto.
  - apply N.compare_eq_iff in E1. subst. now rewrite E2.
  - apply N.compare_eq_iff in E2. subst. now rewrite E1.
  - apply N.compare_lt_iff in E1, E2.
    replace (x ?= z)%N with Lt; [reflexivity|].
    symmetry. apply N.compare_lt_iff. eapply N.lt_trans; eassumption.
Qed.

Lemma unique_fold xs : forall seen,
  NoDup seen ->
  NoDup (fold_left unique_step xs seen) /\
  forall x, In x (fold_left unique_step xs seen) <-> In x seen \/ In x xs.
Proof.
  induction xs as [|a xs IH]; intros seen Hnd; simpl.
  - split; [assumption|]. tauto.
  - assert (Hstep : NoDup (unique_step seen a) /\
                    forall x, In x (unique_step seen a) <-> In x seen \/ a = x).
    { unfold unique_step. destruct (isin a seen) eqn:E.
      - apply isin_In in E. split; [assumption|].
        intros x. split; [tauto|]. intros [H|<-]; assumption.
      - assert (Hn : ~ In a seen).
        { intros H. apply isin_In in H. congruence. }
        split.
        + apply NoDup_app.
          * assumption.
          * repeat constructor. simpl. tauto.
          * intros x Hx [<-|[]]. contradiction.
        + intros x. rewrite in_app_iff. simpl. tauto. }
    destruct Hstep as [Hnd' Hin'].
    destruct (IH _ Hnd') as [H1 H2]. split; [assumption|].
    intros x. rewrite H2, Hin'. tauto.
Qed.

Lemma unique_NoDup xs : NoDup (unique xs).
Proof. apply (unique_fold xs []). constructor. Qed.

Lemma unique_In xs x : In x (unique xs) <-> In x xs.
Proof.
  destruct (unique_fold xs [] (NoDup_nil _)) as [_ H].
  unfold unique, unique_step in *. rewrite H. simpl. tauto.
Qed.

Lemma insort_In a l x : In x (insort a l) <-> a = x \/ In x l.
Proof.
  induction l as [|y l IH]; simpl; [tauto|].
  destruct (str_compare a y); simpl; rewrite ?IH; tauto.
Qed.

Lemma sorted_In xs x : In x (sorted xs) <-> In x xs.
Proof.
  induction xs as [|a xs IH]; simpl; [tauto|].
  rewrite insort_In, IH. tauto.
Qed.

Lemma insort_perm a l : Permutation (a :: l) (insort a l).
Proof.
  induction l as [|y l IH]; simpl; [reflexivity|].
  destruct (str_compare a y); try reflexivity.
  rewrite perm_swap. now constructor.
Qed.

Lemma sorted_perm xs : Permutation xs (sorted xs).
Proof.
  induction xs as [|a xs IH]; simpl; [constructor|].
  rewrite <- insort_perm. now constructor.
Qed.

Lemma str_le_trans a b c : str_le a b -> str_le b c -> str_le a c.
Proof.
  unfold str_le. intros H1 H2.
  destruct (str_compare a b) eqn:E1; [| |congruence].
  - apply str_compare_eq in E1. now subst.
  - destruct (str_compare b c) eqn:E2; [| |congruence].
    + apply str_compare_eq in E2. subst. congruence.
    + rewrite (str_compare_trans _ _ _ E1 E2). discriminate.
Qed.

Lemma insort_sorted a l :
  StronglySorted str_le l -> StronglySorted str_le (insort a l).
Proof.
  induction 1 as [|y l Hs IH Hy]; simpl.
  - repeat constructor.
  - destruct (str_compare a y) eqn:E.
    + constructor; [now constructor|].
      assert (Hay : str_le a y) by (unfold str_le; congruence).
      constructor; [assumption|].
      eapply Forall_impl; [|exact Hy]. intros z. now apply str_le_trans.
    + constructor; [now constructor|].
      assert (Hay : str_le a y) by (unfold str_le; congruence).
      constructor; [assumption|].
      eapply Forall_impl; [|exact Hy]. intros z. now apply str_le_trans.
    + constructor; [assumption|].
      apply Forall_forall. intros z Hz. apply insort_In in Hz.
      destruct Hz as [<-|Hz].
      * unfold str_le. rewrite str_compare_antisym, E. discriminate.
      * rewrite Forall_forall in Hy. now apply Hy.
Qed.

Lemma sorted_sorted xs : StronglySorted str_le (sorted xs).
Proof.
  induction xs as [|a xs IH]; simpl; [constructor|]. now apply insort_sorted.
Qed.

Lemma sorted_strict l :
  NoDup l -> StronglySorted str_le l ->
  StronglySorted (fun a b => str_compare a b = Lt) l.
Proof.
  intros Hnd Hs. induction Hs as [|a l Hs IH Ha]; [constructor|].
  inversion Hnd as [|? ? Hna Hnd']; subst.
  constructor; [now apply IH|].
  apply Forall_forall. intros z Hz. rewrite Forall_forall in Ha.
  specialize (Ha z Hz). unfold str_le in Ha.
  destruct (str_compare a z) eqn:E; [|reflexivity|congruence].
  apply str_compare_eq in E. now subst.
Qed.

(** X5.  The cities offered in the sidebar are the cities of the frame,
    each once, in increasing order of their text. *)
Theorem city_options_are_the_cities (xs : list pystr) :
  let all_cities := sorted (unique xs) in
  StronglySorted (fun a b => str_compare a b = Lt) all_cities /\
  forall c, In c all_cities <-> In c xs.
Proof.
  intros all_cities. split.
  - apply sorted_strict; [|apply sorted_sorted].
    eapply Permutation_NoDup; [apply sorted_perm|apply unique_NoDup].
  - intros c. unfold all_cities. now rewrite sorted_In, unique_In.
Qed.

(** ** Deal counts and distinct values *)

Lemma count_add_unique_step c t :
  List.map fst (count_add c t) = unique_step (List.map fst t) c.
Proof.
  unfold unique_step. induction t as [|[k n] t IH]; [reflexivity|].
  cbn [count_add List.map fst isin existsb].
  fold (isin c (List.map fst t)).
  destruct (str_eqb c k) eqn:E; cbn [orb List.map fst].
  - reflexivity.
  - rewrite IH. destruct (isin c (List.map fst t)); reflexivity.
Qed.

Lemma count_fold_unique xs : forall t,
  List.map fst (fold_left (fun t c => count_add c t) xs t) =
  fold_left unique_step xs (List.map fst t).
Proof.
  induction xs as [|x xs IH]; intros t; [reflexivity|].
  cbn [fold_left]. rewrite IH, count_add_unique_step. reflexivity.
Qed.

Lemma count_table_unique xs : List.map fst (count_table xs) = unique xs.
Proof. apply (count_fold_unique xs []). Qed.

Lemma count_table_length xs : List.length (count_table xs) = nunique xs.
Proof.
  unfold nunique. rewrite <- count_table_unique. now rewrite length_map.
Qed.

Lemma deal_total_count_add c t : deal_total (count_add c t) = S (deal_total t).
Proof.
  induction t as [|[k n] t IH]; [reflexivity|].
  cbn [count_add]. destruct (str_eqb c k); cbn [deal_total fold_right snd].
  - reflexivity.
  - fold (deal_total (count_add c t)). fold (deal_total t). rewrite IH. lia.
Qed.

Lemma deal_total_count_table xs : deal_total (count_table xs) = List.length xs.
Proof.
  induction xs as [|x xs IH] using rev_ind; [reflexivity|].
  rewrite count_table_snoc, deal_total_count_add, IH, length_app.
  simpl. lia.
Qed.

Lemma deal_total_app a b : deal_total (a ++ b) = (deal_total a + deal_total b)%nat.
Proof.
  induction a as [|x a IH]; [reflexivity|].
  simpl. fold (deal_total (a ++ b)). fold (deal_total a). rewrite IH. lia.
Qed.

Lemma deal_total_perm a b : Permutation a b -> deal_total a = deal_total b.
Proof.
  induction 1; simpl; lia.
Qed.

Lemma deal_total_pos t :
  Forall (fun kn => (0 < snd kn)%nat) t -> t <> [] -> (0 < deal_total t)%nat.
Proof.
  intros H Hne. destruct H as [|x t Hx _]; [congruence|]. simpl. lia.
Qed.

Lemma nunique_bounds xs :
  (nunique xs <= List.length xs)%nat /\ (xs <> [] -> (1 <= nunique xs)%nat).
Proof.
  split.
  - rewrite <- count_table_length, <- deal_total_count_table.
    assert (H : Forall (fun kn => (0 < snd kn)%nat) (count_table xs)).
    { apply Forall_forall. intros [c n] Hin. apply count_table_In in Hin.
      simpl. lia. }
    induction H as [|x t Hx _ IH]; simpl; [lia|].
    fold (deal_total t). lia.
  - intros Hne. destruct xs as [|x xs]; [congruence|].
    assert (Hin : In x (unique (x :: xs))) by (apply unique_In; now left).
    unfold nunique. destruct (unique (x :: xs)); [contradiction|simpl; lia].
Qed.

Section TopCitiesCounts.

Context {S : SortValues}.
Hypothesis sort_values_ok : sorts_by_count sort_values.

Lemma city_df_length (df : list record) :
  List.length (city_df df) = Nat.min 10 (nunique (List.map City df)).
Proof.
  destruct (city_df_sorted_perm sort_values_ok df) as (l & Hp & _ & ->).
  rewrite length_firstn, <- (Permutation_length Hp), count_table_length.
  reflexivity.
Qed.

(** X6.  The bar chart of cities has as many bars as the frame has cities,
    up to ten.  The deals it shows add up to the rows of the frame exactly
    when the frame has at most ten cities; with more, the deals of the
    cities left out are missing from the chart. *)
Theorem top_cities_cover (df : list record) :
  let cities := List.map City df in
  let out := city_df df in
  List.length out = Nat.min 10 (nunique cities) /\
  (deal_total out <= List.length df)%nat /\
  (deal_total out = List.length df <-> (nunique cities <= 10)%nat).
Proof.
  intros cities out. subst out.
  destruct (city_df_sorted_perm sort_values_ok df) as (l & Hp & _ & ->).
  fold cities in Hp.
  assert (Hlen : List.length l = nunique cities).
  { rewrite <- (Permutation_length Hp). apply count_table_length. }
  assert (Htot : deal_total l = List.length df).
  { rewrite <- (deal_total_perm _ _ Hp), deal_total_count_table.
    apply length_map. }
  assert (Hpos : Forall (fun kn => (0 < snd kn)%nat) l).
  { apply Forall_forall. intros [c n] Hin.
    apply (Permutation_in _ (Permutation_sym Hp)) in Hin.
    apply count_table_In in Hin. simpl. lia. }
  pose proof (deal_total_app (firstn 10 l) (skipn 10 l)) as Hsplit.
  rewrite firstn_skipn in Hsplit.
  pose proof (length_firstn 10 l) as Hfirst.
  assert (Hskip : (deal_total (skipn 10 l) = 0 <-> List.length l <= 10)%nat).
  { split.
    - intros H0. destruct (skipn 10 l) as [|x r] eqn:E.
      + apply (f_equal (@List.length _)) in E. rewrite length_skipn in E.
        simpl in E. lia.
      + assert (Hx : (0 < deal_total (x :: r))%nat).
        { apply deal_total_pos; [|discriminate]. rewrite <- E.
          rewrite <- (firstn_skipn 10 l) in Hpos.
          now apply Forall_app in Hpos. }
        lia.
    - intros Hl. now rewrite skipn_all2. }
  lia.
Qed.

End TopCitiesCounts.

Lemma top_cities_cover_witness :
  List.length (city_df (S := stable_sort)
                 (dataset (R := no_numeric_text) thirteen_deals)) = 3%nat /\
  deal_total (city_df (S := stable_sort)
                (dataset (R := no_numeric_text) thirteen_deals)) =
  List.length (dataset (R := no_numeric_text) thirteen_deals).
Proof.
  destruct (top_cities_cover (S := stable_sort) stable_sort_ok
              (dataset (R := no_numeric_text) thirteen_deals))
    as (Hlen & _ & Htot).
  split.
  - rewrite Hlen. vm_compute. reflexivity.
  - apply (proj2 Htot). apply Nat.leb_le. vm_compute. reflexivity.
Defined.

(** ** The groups of [plot_investment_pie] *)

Lemma str_lt_neq a b : str_compare a b = Lt -> a <> b.
Proof.
  intros H <-. assert (E : str_compare a a = Eq) by now apply str_compare_eq.
  congruence.
Qed.

Lemma glookup_above k acc :
  Forall (fun x => str_compare k (fst x) = Lt) acc -> glookup k acc = None.
Proof.
  induction 1 as [|[k' t] acc Hk _ IH]; [reflexivity|].
  simpl in *. apply str_lt_neq, str_eqb_neq in Hk. now rewrite Hk.
Qed.

Lemma group_append_keys k v acc x :
  In x (group_append k v acc) ->
  fst x = k \/ exists y, In y acc /\ fst y = fst x.
Proof.
  induction acc as [|[k' t] acc IH]; simpl.
  - intros [<-|[]]. now left.
  - destruct (str_compare k k') eqn:E; simpl.
    + intros [<-|H].
      * right. exists (k', t). auto.
      * right. exists x. auto.
    + intros [<-|[<-|H]].
      * now left.
      * right. exists (k', t). auto.
      * right. exists x. auto.
    + intros [<-|H].
      * right. exists (k', t). auto.
      * destruct (IH H) as [Hk|(y & Hy & Ey)]; [now left|].
        right. exists y. auto.
Qed.

Lemma group_append_sorted k v acc :
  gkeys_increasing acc -> gkeys_increasing (group_append k v acc).
Proof.
  unfold gkeys_increasing.
  induction 1 as [|[k' t] acc Hs IH Hall]; simpl.
  - repeat constructor.
  - destruct (str_compare k k') eqn:E.
    + apply str_compare_eq in E. subst k'.
      constructor; assumption.
    + constructor; [constructor; assumption|].
      constructor; [exact E|].
      eapply Forall_impl; [|exact Hall]. simpl. intros y Hy.
      eapply str_compare_trans; [exact E|exact Hy].
    + constructor; [exact IH|].
      apply Forall_forall. intros x Hx.
      destruct (group_append_keys _ _ _ _ Hx) as [->|(y & Hy & <-)].
      * simpl. rewrite str_compare_antisym, E. reflexivity.
      * rewrite Forall_forall in Hall. now apply Hall.
Qed.

Lemma glookup_group_append k v acc k0 :
  gkeys_increasing acc ->
  glookup k0 (group_append k v acc) =
  if str_eqb k0 k then
    Some ((match glookup k acc with Some vs => vs | None => [] end) ++ [v])
  else glookup k0 acc.
Proof.
  unfold gkeys_increasing.
  induction 1 as [|[k' t] acc Hs IH Hall]; simpl.
  - destruct (str_eqb k0 k); reflexivity.
  - destruct (str_compare k k') eqn:E.
    + apply str_compare_eq in E. subst k'. rewrite str_eqb_refl. simpl.
      destruct (str_eqb k0 k); reflexivity.
    + assert (Hne : str_eqb k k' = false).
      { apply str_eqb_neq, str_lt_neq. exact E. }
      rewrite Hne. simpl.
      rewrite (glookup_above k acc).
      * destruct (str_eqb k0 k); reflexivity.
      * eapply Forall_impl; [|exact Hall]. simpl. intros y Hy.
        eapply str_compare_trans; [exact E|exact Hy].
    + assert (Hne : str_eqb k k' = false).
      { apply str_eqb_neq. intros ->.
        assert (str_compare k' k' = Eq) by now apply str_compare_eq.
        congruence. }
      rewrite Hne. simpl. rewrite IH.
      destruct (str_eqb k0 k') eqn:E0; [|reflexivity].
      apply str_eqb_eq in E0. subst k0.
      rewrite str_eqb_sym, Hne. reflexivity.
Qed.

Lemma groupby_Investment_Type_snoc df r :
  groupby_Investment_Type (df ++ [r]) =
  group_append (Investment_Type r) (Amount r) (groupby_Investment_Type df).
Proof. unfold groupby_Investment_Type. now rewrite fold_left_app. Qed.

Lemma amounts_of_snoc k df r :
  amounts_of k (df ++ [r]) =
  amounts_of k df ++ (if str_eqb (Investment_Type r) k then [Amount r] else []).
Proof.
  unfold amounts_of. rewrite filter_app, map_app. f_equal. simpl.
  destruct (str_eqb (Investment_Type r) k); reflexivity.
Qed.

Lemma groupby_Investment_Type_spec df :
  gkeys_increasing (groupby_Investment_Type df) /\
  forall k, glookup k (groupby_Investment_Type df) =
            match amounts_of k df with
            | [] => None
            | vs => Some vs
            end.
Proof.
  induction df as [|r df [IHs IHl]] using rev_ind.
  - split; [constructor|reflexivity].
  - rewrite groupby_Investment_Type_snoc.
    split; [now apply group_append_sorted|].
    intros k0. rewrite glookup_group_append by assumption.
    rewrite amounts_of_snoc, (str_eqb_sym (Investment_Type r) k0).
    destruct (str_eqb k0 (Investment_Type r)) eqn:E.
    + apply str_eqb_eq in E. subst k0. rewrite IHl.
      destruct (amounts_of (Investment_Type r) df) as [|x xs]; reflexivity.
    + rewrite app_nil_r. apply IHl.
Qed.

Lemma glookup_In k vs acc :
  gkeys_increasing acc -> (In (k, vs) acc <-> glookup k acc = Some vs).
Proof.
  unfold gkeys_increasing.
  induction 1 as [|[k' t'] acc Hs IH Hall]; simpl.
  - split; [contradiction|discriminate].
  - destruct (str_eqb k k') eqn:E.
    + apply str_eqb_eq in E. subst k'. split.
      * intros [[= <-]|Hin]; [reflexivity|].
        rewrite Forall_forall in Hall. apply Hall in Hin. simpl in Hin.
        now apply str_lt_neq in Hin.
      * intros [= <-]. now left.
    + rewrite <- IH. split; [|tauto].
      intros [[= <- <-]|Hin]; [|assumption].
      rewrite str_eqb_refl in E. discriminate.
Qed.

Lemma gkeys_NoDup acc : gkeys_increasing acc -> NoDup (List.map fst acc).
Proof.
  unfold gkeys_increasing.
  induction 1 as [|[k t] acc Hs IH Hall]; simpl; constructor; [|assumption].
  rewrite in_map_iff. intros ([k' t'] & E & Hin). simpl in E. subst k'.
  rewrite Forall_forall in Hall. apply Hall in Hin. simpl in Hin.
  now apply str_lt_neq in Hin.
Qed.

Lemma map_nonempty {A B} (g : A -> B) l : List.map g l <> [] <-> l <> [].
Proof. destruct l; simpl; split; congruence. Qed.

Lemma amounts_of_nonempty k df :
  amounts_of k df <> [] <-> In k (List.map Investment_Type df).
Proof.
  unfold amounts_of. rewrite map_nonempty, filter_nonempty, in_map_iff.
  split.
  - intros (r & Hr & Hk). apply str_eqb_eq in Hk. now exists r.
  - intros (r & Hk & Hr). exists r. split; [assumption|].
    now apply str_eqb_eq.
Qed.

Lemma groups_In df k vs :
  In (k, vs) (groupby_Investment_Type df) <->
  vs = amounts_of k df /\ In k (List.map Investment_Type df).
Proof.
  destruct (groupby_Investment_Type_spec df) as [Hs Hl].
  rewrite (glookup_In _ _ _ Hs), Hl, <- amounts_of_nonempty.
  destruct (amounts_of k df) as [|x xs]; split.
  - discriminate.
  - intros [_ H]. congruence.
  - intros [= <-]. split; [reflexivity|discriminate].
  - intros [-> _]. reflexivity.
Qed.

Lemma insert_amount_perm x t : Permutation (x :: t) (insert_amount x t).
Proof.
  induction t as [|y t IH]; simpl; [reflexivity|].
  destruct (flt (snd x) (snd y)); [|reflexivity].
  rewrite perm_swap. now constructor.
Qed.

Lemma row_order_sort_perm t :
  Permutation t (sort_values_Amount (Pandas := row_order_sums) t).
Proof.
  simpl. induction t as [|x t IH]; simpl; [constructor|].
  rewrite <- insert_amount_perm. now constructor.
Qed.

Section Pie.

Context {P : Pandas}.
Hypothesis sort_values_Amount_perm :
  forall t, Permutation t (sort_values_Amount t).

Lemma pie_df_perm df :
  Permutation
    (List.map (fun g => (fst g, GroupBy_sum (snd g))) (groupby_Investment_Type df))
    (pie_df df).
Proof. apply sort_values_Amount_perm. Qed.

Lemma pie_df_keys df :
  Permutation (List.map fst (groupby_Investment_Type df))
              (List.map fst (pie_df df)).
Proof.
  rewrite <- (pie_df_perm df), map_map. simpl. reflexivity.
Qed.

Lemma pie_df_length (df : list record) :
  List.length (pie_df df) = nunique (List.map Investment_Type df).
Proof.
  rewrite <- (length_map fst), <- (Permutation_length (pie_df_keys df)).
  unfold nunique. apply Permutation_length.
  destruct (groupby_Investment_Type_spec df) as [Hs _].
  apply NoDup_Permutation; [now apply gkeys_NoDup|apply unique_NoDup|].
  intros k. rewrite unique_In, in_map_iff. split.
  - intros ([k' vs] & E & Hin). simpl in E. subst k'.
    now apply groups_In in Hin.
  - intros Hk. exists (k, amounts_of k df). split; [reflexivity|].
    now apply groups_In.
Qed.

(** X7.  The pie has one slice for each investment type of the frame and
    no other: whatever the library's summation and whatever order its
    sort gives, the slice of a type holds the total of the amounts of the
    rows of that type, taken in row order. *)
Theorem pie_slices (df : list record) :
  let kinds := List.map Investment_Type df in
  let out := pie_df df in
  NoDup (List.map fst out) /\
  (forall k, In k (List.map fst out) <-> In k kinds) /\
  List.length out = nunique kinds /\
  (forall k v, In (k, v) out -> v = GroupBy_sum (amounts_of k df)).
Proof.
  intros kinds out. subst out.
  destruct (groupby_Investment_Type_spec df) as [Hs _].
  assert (Hkeys : forall k, In k (List.map fst (groupby_Investment_Type df))
                            <-> In k kinds).
  { intros k. rewrite in_map_iff. split.
    - intros ([k' vs] & E & Hin). simpl in E. subst k'.
      now apply groups_In in Hin.
    - intros Hk. exists (k, amounts_of k df). split; [reflexivity|].
      now apply groups_In. }
  assert (Hnd : NoDup (List.map fst (pie_df df))).
  { eapply Permutation_NoDup; [apply pie_df_keys|now apply gkeys_NoDup]. }
  split; [exact Hnd|]. split; [|split].
  - intros k. rewrite <- Hkeys.
    split; apply Permutation_in; [symmetry|]; apply pie_df_keys.
  - rewrite <- (length_map fst), <- (Permutation_length (pie_df_keys df)).
    unfold nunique. apply Permutation_length.
    apply NoDup_Permutation; [now apply gkeys_NoDup|apply unique_NoDup|].
    intros k. now rewrite Hkeys, unique_In.
  - intros k v Hin.
    apply (Permutation_in _ (Permutation_sym (pie_df_perm df))) in Hin.
    apply in_map_iff in Hin. destruct Hin as ([k' vs] & [= -> <-] & Hin).
    apply groups_In in Hin. now destruct Hin as [-> _].
Qed.

End Pie.

Lemma pie_slices_witness :
  List.map fst
    (pie_df (P := row_order_sums) (dataset (R := no_numeric_text) three_deals))
  = [py "Seed Funding"; py "Private Equity"; py "Seed/Angel Funding"] /\
  NoDup (List.map fst
    (pie_df (P := row_order_sums)
       (dataset (R := no_numeric_text) three_deals))).
Proof.
  split; [vm_compute; reflexivity|].
  exact (proj1 (pie_slices (P := row_order_sums) row_order_sort_perm
                  (dataset (R := no_numeric_text) three_deals))).
Defined.

(** ** The page of [main] *)

Lemma filtered_df_no_city df year_range funding_range :
  filtered_df df year_range [] funding_range = [].
Proof.
  unfold filtered_df. induction df as [|r rs IH]; [reflexivity|].
  cbn [List.filter isin existsb]. rewrite andb_false_r. cbn [andb].
  exact IH.
Qed.

Section MainFacts.

Context {R : FloatRepr} {S : SortValues} {P : Pandas} {W : Sidebar}.

(** [load_data] shows an error only when it returns an empty frame. *)
Lemma load_data_quiet read_csv :
  snd (load_data read_csv) <> returns [] -> fst (load_data read_csv) = [].
Proof.
  unfold load_data. destruct read_csv as [data|]; [|simpl; congruence].
  destruct (iloc_columns data); [|simpl; congruence].
  intros _.
  match goal with
  | |- fst (match ?l with [] => _ | _ :: _ => _ end) = _ =>
      destruct l; reflexivity
  end.
Qed.

(** [main] by cases: on how [load_data] ends, on what the widgets
    return. *)
Lemma main_cases read_csv :
  let df := frame_of (snd (load_data read_csv)) in
  let min_year := min_Z (List.map Year df) in
  let max_year := max_Z (List.map Year df) in
  let all_cities := sorted (unique (List.map City df)) in
  let min_amt := min_float (List.map Amount df) in
  let max_amt := max_float (List.map Amount df) in
  main read_csv =
  match snd (load_data read_csv) with
  | raises _ => (header, Raise)
  | returns [] =>
      (header ++ List.map error (fst (load_data read_csv)), Return)
  | returns (_ :: _) =>
      match slider_year min_year max_year (min_year, max_year) with
      | None => (header ++ firstn 1 (sidebar_of df), Raise)
      | Some year_range =>
          match multiselect all_cities default_cities with
          | None => (header ++ firstn 2 (sidebar_of df), Raise)
          | Some cities =>
              match slider_funding min_amt max_amt (min_amt, max_amt) with
              | None => (header ++ firstn 3 (sidebar_of df), Raise)
              | Some funding_range =>
                  let filtered :=
                    filtered_df df year_range cities funding_range in
                  (header ++ sidebar_of df ++ fst (results filtered),
                   snd (results filtered))
              end
          end
      end
  end.
Proof.
  intros df min_year max_year all_cities min_amt max_amt.
  unfold main, call_load_data, results. fold default_cities.
  subst min_year max_year all_cities min_amt max_amt df.
  pose proof (load_data_quiet read_csv) as Hq.
  destruct (load_data read_csv) as [shown [df|e]] eqn:E.
  2:{ cbn [fst snd] in *. rewrite Hq by discriminate.
      unfold header. reflexivity. }
  cbn [fst snd frame_of] in *.
  destruct df as [|r0 df0].
  { unfold header. cbn [bind st return_ fst snd app empty].
    now rewrite app_nil_r. }
  rewrite Hq by discriminate. clear Hq.
  set (df := r0 :: df0) in *.
  unfold sidebar_of, header, full_year_range, full_funding_range.
  cbn [bind st widget return_ fst snd List.map app empty].
  change (empty df) with false. cbn iota.
  cbn [bind st widget return_ fst snd List.map app empty].
  destruct (slider_year _ _ _) as [year_range|];
    cbn [bind st widget return_ fst snd List.map app empty firstn];
    [|reflexivity].
  destruct (multiselect _ _) as [cities|];
    cbn [bind st widget return_ fst snd List.map app empty firstn];
    [|reflexivity].
  destruct (slider_funding _ _ _) as [funding_range|];
    cbn [bind st widget return_ fst snd List.map app empty firstn];
    [|reflexivity].
  destruct (filtered_df df year_range cities funding_range) as [|r rs];
    reflexivity.
Qed.

Lemma main_below_sidebar read_csv year_range cities funding_range :
  let df := frame_of (snd (load_data read_csv)) in
  df <> [] ->
  slider_year (min_Z (List.map Year df)) (max_Z (List.map Year df))
              (full_year_range df) = Some year_range ->
  multiselect (sorted (unique (List.map City df))) default_cities
    = Some cities ->
  slider_funding (min_float (List.map Amount df))
                 (max_float (List.map Amount df))
                 (full_funding_range df) = Some funding_range ->
  main read_csv =
  (header ++ sidebar_of df ++
     fst (results (filtered_df df year_range cities funding_range)),
   snd (results (filtered_df df year_range cities funding_range))).
Proof.
  intros df Hne Hy Hc Hf. rewrite main_cases. fold df.
  unfold full_year_range, full_funding_range in Hy, Hf.
  subst df.
  destruct (snd (load_data read_csv)) as [[|r0 df0]|e];
    cbn [frame_of] in *; [congruence| |congruence].
  rewrite Hy, Hc, Hf. reflexivity.
Qed.

(** X8.  When [load_data] returns an empty frame, because the file could
    not be read, because it has fewer than 21 columns, or because no row
    passed the cleaning, [main] draws the title, the subtitle, a rule and
    what [load_data] showed, and returns.  When [load_data] raises, [main]
    draws the title, the subtitle and the rule, and ends with the
    exception.  No widget, no metric and no chart is drawn either way.  A
    frame of 21 columns or more gives no message: the run ends with
    [AttributeError] when no row of it has an amount that is a number
    above 0, and [main] returns when some row has one and still no row
    passes the cleaning. *)
Theorem main_nothing_loaded read_csv :
  (snd (load_data read_csv) = returns [] ->
   main read_csv =
   (header ++ List.map error (fst (load_data read_csv)), Return)) /\
  (forall e, snd (load_data read_csv) = raises e ->
             main read_csv = (header, Raise)) /\
  (forall data,
      read_csv = Some data -> (21 <= width data)%nat ->
      (existsb amount_kept (rows data) = false ->
       load_data read_csv = ([], raises AttributeError) /\
       main read_csv = (header, Raise)) /\
      (existsb amount_kept (rows data) = true -> dataset data = [] ->
       main read_csv = (header, Return))).
Proof.
  split; [|split].
  - intros E. rewrite main_cases, E. reflexivity.
  - intros e E. rewrite main_cases, E. reflexivity.
  - intros data -> Hw. split.
    + intros Hk. rewrite main_cases.
      rewrite (load_data_wide data Hw), Hk. split; reflexivity.
    + intros Hk He. rewrite main_cases.
      rewrite (dataset_rows data Hw) in He.
      rewrite (load_data_wide data Hw), Hk. cbn [snd fst].
      rewrite He. reflexivity.
Qed.

(** X9.  When the widgets have given their values and no row passes the
    filter, [main] draws the sidebar, the line "Showing results for 0
    startups", a rule and the warning that no data matches, and returns:
    no metric and no chart is drawn.  So it is when no city is
    selected. *)
Theorem main_no_match read_csv year_range cities funding_range :
  let df := frame_of (snd (load_data read_csv)) in
  df <> [] ->
  slider_year (min_Z (List.map Year df)) (max_Z (List.map Year df))
              (full_year_range df) = Some year_range ->
  multiselect (sorted (unique (List.map City df))) default_cities
    = Some cities ->
  slider_funding (min_float (List.map Amount df))
                 (max_float (List.map Amount df))
                 (full_funding_range df) = Some funding_range ->
  filtered_df df year_range cities funding_range = [] \/ cities = [] ->
  main read_csv =
  (header ++ sidebar_of df ++
     [markdown_showing_results 0; markdown_hr; warning_no_data],
   Return).
Proof.
  intros df Hne Hy Hc Hf Hnone.
  rewrite (main_below_sidebar read_csv year_range cities funding_range
             Hne Hy Hc Hf).
  fold df.
  assert (E : filtered_df df year_range cities funding_range = []).
  { destruct Hnone as [E| ->]; [exact E|apply filtered_df_no_city]. }
  rewrite E. reflexivity.
Qed.

Lemma loaded_frame read_csv :
  frame_of (snd (load_data read_csv)) = [] \/
  exists data, frame_of (snd (load_data read_csv)) = dataset data.
Proof.
  destruct read_csv as [data|]; [right; now exists data|now left].
Qed.

(** With the sliders at their full range, only the city selection
    filters. *)
Lemma full_ranges_filter_by_city read_csv cities :
  let df := frame_of (snd (load_data read_csv)) in
  filtered_df df (full_year_range df) cities (full_funding_range df) =
  List.filter (fun r => isin (City r) cities) df.
Proof.
  intros df. unfold filtered_df. apply filter_ext_in. intros r Hr.
  assert (Hnn : Forall (fun x => isnan x = false) (List.map Amount df)).
  { destruct (loaded_frame read_csv) as [E|(data & E)]; fold df in E;
      rewrite E; [constructor|apply amounts_not_nan]. }
  assert (Ha : In (Amount r) (List.map Amount df)) by now apply in_map.
  assert (Hy : In (Year r) (List.map Year df)) by now apply in_map.
  unfold full_year_range, full_funding_range, between. cbn [fst snd].
  rewrite (min_float_le _ _ Hnn Ha), (max_float_ge _ _ Hnn Ha).
  pose proof (min_Z_le _ _ Hy) as H1. pose proof (max_Z_ge _ _ Hy) as H2.
  apply Z.leb_le in H1, H2. rewrite H1, H2.
  cbn [andb]. now rewrite andb_true_r.
Qed.

(** X10.  On the first run, when the widgets give their defaults, the
    page shows the rows of Bangalore, Mumbai and Delhi only: the two
    sliders at their full range exclude no row, and the default city
    selection excludes every other city. *)
Theorem main_first_view read_csv :
  let df := frame_of (snd (load_data read_csv)) in
  df <> [] ->
  slider_year (min_Z (List.map Year df)) (max_Z (List.map Year df))
              (full_year_range df) = Some (full_year_range df) ->
  multiselect (sorted (unique (List.map City df))) default_cities
    = Some default_cities ->
  slider_funding (min_float (List.map Amount df))
                 (max_float (List.map Amount df))
                 (full_funding_range df) = Some (full_funding_range df) ->
  let shown := List.filter (fun r => isin (City r) default_cities) df in
  main read_csv =
  (header ++ sidebar_of df ++ fst (results shown), snd (results shown)).
Proof.
  intros df Hne Hy Hc Hf shown.
  rewrite (main_below_sidebar read_csv _ _ _ Hne Hy Hc Hf).
  fold df. unfold shown, df. now rewrite full_ranges_filter_by_city.
Qed.

End MainFacts.

Lemma main_nothing_loaded_witness :
  main (R := no_numeric_text) (S := stable_sort) (P := row_order_sums)
       (W := first_run) (Some (mkframe 20 [repeat (text "1000000") 20])) =
  (header ++
     [error (st_error "Column mismatch. Please check your CSV format. "
                      IndexError)],
   Return) /\
  main (R := no_numeric_text) (S := stable_sort) (P := row_order_sums)
       (W := first_run) (Some no_amount) = (header, Raise) /\
  main (R := no_numeric_text) (S := stable_sort) (P := row_order_sums)
       (W := first_run) (Some no_date) = (header, Return).
Proof.
  split; [|split].
  - apply (proj1 (main_nothing_loaded (R := no_numeric_text)
                    (S := stable_sort) (P := row_order_sums)
                    (W := first_run)
                    (Some (mkframe 20 [repeat (text "1000000") 20])))).
    reflexivity.
  - apply (proj1 (proj2 (proj2 (main_nothing_loaded (R := no_numeric_text)
                    (S := stable_sort) (P := row_order_sums)
                    (W := first_run) (Some no_amount)))
                    no_amount eq_refl (le_n 21))).
    vm_compute. reflexivity.
  - apply (proj2 (proj2 (proj2 (main_nothing_loaded (R := no_numeric_text)
                    (S := stable_sort) (P := row_order_sums)
                    (W := first_run) (Some no_date)))
                    no_date eq_refl (le_n 21))).
    + vm_compute. reflexivity.
    + vm_compute. reflexivity.
Defined.

Lemma main_no_match_witness :
  main (R := no_numeric_text) (S := stable_sort) (P := row_order_sums)
       (W := no_city_selected) (Some four_cities) =
  (header ++
     sidebar_of
       (frame_of (snd (load_data (R := no_numeric_text)
                         (Some four_cities)))) ++
     [markdown_showing_results 0; markdown_hr; warning_no_data],
   Return).
Proof.
  apply (main_no_match (R := no_numeric_text) (S := stable_sort)
           (P := row_order_sums) (W := no_city_selected)
           (Some four_cities)
           (full_year_range
              (frame_of (snd (load_data (R := no_numeric_text)
                                (Some four_cities)))))
           []
           (full_funding_range
              (frame_of (snd (load_data (R := no_numeric_text)
                                (Some four_cities)))))).
  - vm_compute. discriminate.
  - vm_compute. reflexivity.
  - vm_compute. reflexivity.
  - vm_compute. reflexivity.
  - right. reflexivity.
Defined.

Lemma main_first_view_witness :
  main (R := no_numeric_text) (S := stable_sort) (P := row_order_sums)
       (W := first_run) (Some four_cities) =
  (header ++
     sidebar_of
       (frame_of (snd (load_data (R := no_numeric_text)
                         (Some four_cities)))) ++
     fst (results (S := stable_sort) (P := row_order_sums)
            (List.filter (fun r => isin (City r) default_cities)
               (frame_of (snd (load_data (R := no_numeric_text)
                                 (Some four_cities)))))),
   snd (results (S := stable_sort) (P := row_order_sums)
          (List.filter (fun r => isin (City r) default_cities)
             (frame_of (snd (load_data (R := no_numeric_text)
                               (Some four_cities))))))).
Proof.
  apply (main_first_view (R := no_numeric_text) (S := stable_sort)
           (P := row_order_sums) (W := first_run) (Some four_cities)).
  - vm_compute. discriminate.
  - vm_compute. reflexivity.
  - vm_compute. reflexivity.
  - vm_compute. reflexivity.
Defined.

(** ** What [main] never draws *)

Lemma time_df_nonempty {R : FloatRepr} data (S : list record) :
  incl S (dataset data) -> S <> [] -> time_df S <> [].
Proof.
  intros HS Hne. destruct S as [|r S']; [congruence|].
  destruct (monthly_totals_general data (r :: S') HS) as [_ H].
  intros E.
  assert (Hin : In (month_start (Date r),
                    kahan_sum
                      (List.map Amount
                         (List.filter (in_period (month_start (Date r)))
                                      (r :: S'))))
                   (time_df (r :: S'))).
  { apply H. split; [|reflexivity]. exists r. split; [now left|reflexivity]. }
  rewrite E in Hin. contradiction.
Qed.

Section PageInvariant.

Context {R : FloatRepr} {S : SortValues} {P : Pandas} {W : Sidebar}.
Hypothesis sort_values_ok : sorts_by_count sort_values.
Hypothesis sort_values_Amount_perm :
  forall t, Permutation t (sort_values_Amount t).

Lemma results_well_filled data (filtered : list record) :
  incl filtered (dataset data) ->
  Forall well_filled (fst (results filtered)).
Proof.
  intros Hincl. unfold results.
  destruct filtered as [|r rs] eqn:E.
  { cbn [bind st return_ fst snd app empty].
    repeat (apply Forall_cons; [exact I|]). apply Forall_nil. }
  rewrite <- E in *.
  assert (Hne : filtered <> []) by (rewrite E; discriminate).
  replace (empty filtered) with false by (rewrite E; reflexivity).
  unfold display_kpis, plot_funding_trend, plot_top_cities,
    plot_investment_pie.
  cbn [bind st return_ fst snd app].
  repeat (apply Forall_cons; [cbn [well_filled]|]);
    try apply Forall_nil; try exact I.
  - apply nunique_bounds. now apply map_nonempty.
  - now apply (time_df_nonempty data).
  - intros E0. apply (f_equal (@List.length _)) in E0.
    rewrite (city_df_length sort_values_ok) in E0. cbn [List.length] in E0.
    assert (H1 : (1 <= nunique (List.map City filtered))%nat)
      by (apply nunique_bounds; now apply map_nonempty).
    lia.
  - split; [|apply repeat_length].
    intros E0. apply (f_equal (@List.length _)) in E0.
    rewrite (pie_df_length sort_values_Amount_perm) in E0.
    cbn [List.length] in E0.
    assert (H1 : (1 <= nunique (List.map Investment_Type filtered))%nat)
      by (apply nunique_bounds; now apply map_nonempty).
    lia.
Qed.

(** X11.  Whatever the file holds and whatever the widgets return,
    [main] never draws a chart or a count over nothing: the trend has at
    least one month, the bar chart at least one city, the pie at least
    one slice and one pull value for each slice, and the number of
    startups shown among the metrics is at least one. *)
Theorem main_draws_no_empty_chart read_csv :
  Forall well_filled (fst (main read_csv)).
Proof.
  rewrite main_cases.
  assert (Hquiet : Forall well_filled
                     (header ++ List.map error (fst (load_data read_csv)))).
  { apply Forall_app. split; [repeat constructor|].
    apply Forall_forall. intros e He. apply in_map_iff in He.
    destruct He as (x & <- & _). exact I. }
  destruct (loaded_frame read_csv) as [E|(data & E)].
  { destruct (snd (load_data read_csv)) as [[|r0 df0]|e];
      [exact Hquiet|discriminate E|repeat constructor]. }
  destruct (snd (load_data read_csv)) as [df|e] eqn:El;
    [|repeat constructor].
  cbn [frame_of] in *.
  assert (Hside : Forall well_filled (header ++ sidebar_of df))
    by (repeat constructor).
  assert (Hpre : forall n, Forall well_filled
                             (header ++ firstn n (sidebar_of df))).
  { intros n. apply Forall_forall. intros e He.
    rewrite Forall_forall in Hside. apply Hside.
    apply in_app_or in He. apply in_or_app.
    destruct He as [He|He]; [now left|right].
    now apply In_firstn in He. }
  destruct df as [|r0 df0] eqn:Edf; [exact Hquiet|].
  rewrite <- Edf in *.
  destruct (slider_year _ _ _) as [year_range|]; [|apply Hpre].
  destruct (multiselect _ _) as [cities|]; [|apply Hpre].
  destruct (slider_funding _ _ _) as [funding_range|]; [|apply Hpre].
  cbn [fst]. rewrite app_assoc. apply Forall_app. split; [exact Hside|].
  apply (results_well_filled data).
  intros r Hr. unfold filtered_df in Hr. apply filter_In in Hr.
  rewrite <- E. tauto.
Qed.

End PageInvariant.

Lemma main_draws_no_empty_chart_witness :
  Forall well_filled
    (fst (main (R := no_numeric_text) (S := stable_sort)
               (P := row_order_sums) (W := first_run)
               (Some four_cities))).
Proof.
  exact (main_draws_no_empty_chart (R := no_numeric_text)
           (S := stable_sort) (P := row_order_sums) (W := first_run)
           stable_sort_ok row_order_sort_perm (Some four_cities)).
Defined.

(** ** The metrics and the bounds of the sliders *)

Lemma nunique_same_values xs ys :
  (forall x, In x xs <-> In x ys) -> nunique xs = nunique ys.
Proof.
  intros H. unfold nunique. apply Permutation_length.
  apply NoDup_Permutation; try apply unique_NoDup.
  intros x. now rewrite !unique_In.
Qed.

(** X12.  The number of startups among the metrics is the number of
    different names of the frame: at most the number of rows, at least one
    when there is a row, and the same for two frames that hold the same
    names, however often and in whatever order. *)
Theorem kpi_counts_distinct_names {P : Pandas} (df df' : list record) :
  let n := nunique (List.map Startup_Name df) in
  In (markdown_total_startups n) (fst (display_kpis df)) /\
  (n <= List.length df)%nat /\
  (df <> [] -> (1 <= n)%nat) /\
  ((forall name, In name (List.map Startup_Name df') <->
                 In name (List.map Startup_Name df)) ->
   nunique (List.map Startup_Name df') = n).
Proof.
  intros n. split; [|split; [|split]].
  - unfold display_kpis. cbn [bind st fst snd app]. simpl. tauto.
  - pose proof (nunique_bounds (List.map Startup_Name df)) as [H _].
    now rewrite length_map in H.
  - intros Hne. apply nunique_bounds. now apply map_nonempty.
  - apply nunique_same_values.
Qed.

Lemma fold_min_Z_In rest : forall m,
  In (fold_left Z.min rest m) (m :: rest).
Proof.
  induction rest as [|y rest IH]; intros m; simpl; [now left|].
  destruct (IH (Z.min m y)) as [E|Hin]; [|now right; right].
  rewrite <- E. destruct (Z.min_spec m y) as [[_ ->]|[_ ->]]; auto.
Qed.

Lemma fold_max_Z_In rest : forall m,
  In (fold_left Z.max rest m) (m :: rest).
Proof.
  induction rest as [|y rest IH]; intros m; simpl; [now left|].
  destruct (IH (Z.max m y)) as [E|Hin]; [|now right; right].
  rewrite <- E. destruct (Z.max_spec m y) as [[_ ->]|[_ ->]]; auto.
Qed.

Lemma fold_fmin_In rest : forall m,
  In (fold_left fmin rest m) (m :: rest).
Proof.
  induction rest as [|y rest IH]; intros m; simpl; [now left|].
  destruct (IH (fmin m y)) as [E|Hin]; [|now right; right].
  rewrite <- E. unfold fmin. destruct (flt y m); auto.
Qed.

Lemma fold_fmax_In rest : forall m,
  In (fold_left fmax rest m) (m :: rest).
Proof.
  induction rest as [|y rest IH]; intros m; simpl; [now left|].
  destruct (IH (fmax m y)) as [E|Hin]; [|now right; right].
  rewrite <- E. unfold fmax. destruct (flt m y); auto.
Qed.

Section SliderBounds.

Context {R : FloatRepr}.

(** X13.  Over a cleaned frame with at least one row, the bounds that
    [main] gives to its sliders are in order and within what cleaning
    lets through: the years run from a year of 1 or more to a year of
    9999 or less, the amounts from above 0 to below 1000. *)
Theorem slider_bounds_in_range data :
  let df := dataset data in
  df <> [] ->
  1 <= min_Z (List.map Year df) /\
  min_Z (List.map Year df) <= max_Z (List.map Year df) /\
  max_Z (List.map Year df) <= 9999 /\
  flt (float_of_Z 0) (min_float (List.map Amount df)) = true /\
  fle (min_float (List.map Amount df)) (max_float (List.map Amount df)) = true /\
  flt (max_float (List.map Amount df)) (float_of_Z 1000) = true.
Proof.
  intros df Hne.
  assert (Hy : forall y, In y (List.map Year df) -> 1 <= y <= 9999).
  { intros y Hy. apply in_map_iff in Hy. destruct Hy as (rec & <- & Hin).
    destruct (dataset_Month data rec Hin) as (Hv & _ & -> & _).
    apply valid_date_bounds in Hv. lia. }
  assert (Ha : forall a, In a (List.map Amount df) ->
                         flt (float_of_Z 0) a = true /\
                         flt a (float_of_Z 1000) = true).
  { intros a Ha. apply in_map_iff in Ha. destruct Ha as (rec & <- & Hin).
    apply In_dataset in Hin. destruct Hin as (r & _ & Hr).
    apply clean_row_Some in Hr. destruct Hr as (d & _ & Hp & Hq & ->).
    cbn [Amount]. auto. }
  pose proof (amounts_not_nan data) as Hnn. fold df in Hnn.
  destruct df as [|r0 rs]; [congruence|]. cbn [List.map] in *.
  unfold min_Z, max_Z, min_float, max_float.
  pose proof (fold_min_Z_In (List.map Year rs) (Year r0)) as H1.
  pose proof (fold_max_Z_In (List.map Year rs) (Year r0)) as H2.
  pose proof (fold_fmin_In (List.map Amount rs) (Amount r0)) as H3.
  pose proof (fold_fmax_In (List.map Amount rs) (Amount r0)) as H4.
  pose proof (min_Z_le _ _ H2) as H5. unfold min_Z in H5.
  pose proof (min_float_le _ _ Hnn H4) as H6. unfold min_float in H6.
  apply Hy in H1, H2. apply Ha in H3, H4.
  repeat split; try lia; tauto.
Qed.

End SliderBounds.

Lemma slider_bounds_in_range_witness :
  min_Z (List.map Year (dataset (R := no_numeric_text) three_deals)) = 2015 /\
  1 <= min_Z (List.map Year (dataset (R := no_numeric_text) three_deals)).
Proof.
  split; [vm_compute; reflexivity|].
  apply (slider_bounds_in_range (R := no_numeric_text) three_deals).
  vm_compute. discriminate.
Defined.

Lemma kpi_counts_distinct_names_witness :
  nunique (List.map Startup_Name
             (dataset (R := no_numeric_text) thirteen_deals)) = 1%nat /\
  (1 <= nunique (List.map Startup_Name
                   (dataset (R := no_numeric_text) thirteen_deals)))%nat.
Proof.
  split; [vm_compute; reflexivity|].
  apply (kpi_counts_distinct_names (P := row_order_sums)
           (dataset (R := no_numeric_text) thirteen_deals) []).
  vm_compute. discriminate.
Defined.

(** ** The module run as a script *)

Lemma run_step builtins s rest i i' :
  exec builtins s i = inl i' ->
  run builtins (s :: rest) i = run builtins rest i'.
Proof. intros H. cbn [run]. now rewrite H. Qed.

Lemma run_unbound builtins name literal callee rest i :
  assoc name (globals i) = None ->
  existsb (String.eqb name) builtins = false ->
  run builtins (if_eq_call name literal callee :: rest) i =
  (calls i, NameError name).
Proof.
  intros Hg Hb. cbn [run exec]. unfold load_name. now rewrite Hg, Hb.
Qed.

(** X14.  Run as a script, the module configures the page, writes its
    style sheet and defines its functions; its last statement then reads
    the name [_name_], which is neither a global of the module nor a
    builtin, and raises [NameError].  [main] is not called: no file is
    read and nothing of the dashboard is drawn. *)
Theorem script_stops_before_main (builtins : list string) :
  existsb (String.eqb "_name_") builtins = false ->
  run builtins dashboard at_start =
  (["st.set_page_config"; "st.markdown"]%string, NameError "_name_").
Proof.
  intros Hb. unfold dashboard.
  do 13 (erewrite run_step by reflexivity).
  rewrite run_unbound; [reflexivity|reflexivity|exact Hb].
Qed.

Lemma script_stops_before_main_witness :
  run ["__name__"; "__doc__"; "print"; "len"; "str"; "int"; "float";
       "sorted"; "isinstance"; "any"]%string dashboard at_start =
  (["st.set_page_config"; "st.markdown"]%string, NameError "_name_").
Proof.
  apply script_stops_before_main. reflexivity.
Defined.

(** ** Selections within selections, and the columns not read *)

Lemma filter_filter {A} (f g : A -> bool) l :
  List.filter g (List.filter f l) = List.filter (fun x => f x && g x) l.
Proof.
  induction l as [|a l IH]; [reflexivity|]. simpl.
  destruct (f a); simpl; [destruct (g a)|]; now rewrite IH.
Qed.

(** X15.  Narrowing a selection never brings rows back: filtering by a
    year range, a city selection and a funding range that lie within
    those of a first filter gives, on the rows the first filter kept,
    the rows it gives on the whole frame. *)
Theorem narrower_selection_of_selection (df : list record)
    year_range year_range' cities cities' funding_range funding_range' :
  fst year_range <= fst year_range' ->
  snd year_range' <= snd year_range ->
  incl cities' cities ->
  fle (fst funding_range) (fst funding_range') = true ->
  fle (snd funding_range') (snd funding_range) = true ->
  filtered_df (filtered_df df year_range cities funding_range)
              year_range' cities' funding_range' =
  filtered_df df year_range' cities' funding_range'.
Proof.
  intros Hlo Hhi Hc Hflo Hfhi. unfold filtered_df.
  rewrite filter_filter. apply filter_ext. intros r.
  match goal with |- ?a && ?b = ?b => destruct b eqn:E end;
    [|apply andb_false_r].
  rewrite andb_true_r.
  rewrite !andb_true_iff in E. destruct E as [[[H1 H2] H3] H4].
  unfold between in *. apply andb_true_iff in H4. destruct H4 as [H4 H5].
  apply Z.leb_le in H1, H2. apply isin_In in H3.
  rewrite !andb_true_iff. repeat split.
  - apply Z.leb_le. lia.
  - apply Z.leb_le. lia.
  - apply isin_In. now apply Hc.
  - eapply fle_trans; eassumption.
  - eapply fle_trans; eassumption.
Qed.

Lemma narrower_selection_of_selection_witness :
  filtered_df
    (filtered_df (dataset (R := no_numeric_text) thirteen_deals)
                 (2014, 2016) default_cities
                 (float_of_Z 0, float_of_Z 1000))
    (2015, 2015) [py "Delhi"] (float_of_Z 1, float_of_Z 2) =
  filtered_df (dataset (R := no_numeric_text) thirteen_deals)
              (2015, 2015) [py "Delhi"] (float_of_Z 1, float_of_Z 2).
Proof.
  apply narrower_selection_of_selection.
  - simpl. lia.
  - simpl. lia.
  - intros c [<-|[]]. simpl. tauto.
  - vm_compute. reflexivity.
  - vm_compute. reflexivity.
Defined.

Section ColumnsRead.

Context {R : FloatRepr}.

Lemma clean_row_same_six r r' :
  same_six_columns r r' -> clean_row r = clean_row r'.
Proof.
  unfold same_six_columns. rewrite !Forall_cons_iff.
  intros (H13 & H14 & H15 & H17 & H19 & H20 & _).
  unfold clean_row. rewrite H13, H14, H15, H17, H19, H20. reflexivity.
Qed.

(** X16.  [load_data] reads six columns and nothing else: two frames of
    the same width whose rows agree, one by one, on the columns 13, 14,
    15, 17, 19 and 20 give the same cleaned frame, whatever their other
    cells hold. *)
Theorem other_columns_ignored w (rows1 rows2 : list (list cell)) :
  Forall2 same_six_columns rows1 rows2 ->
  dataset (mkframe w rows1) = dataset (mkframe w rows2).
Proof.
  intros H.
  destruct (Nat.lt_ge_cases w 21) as [Hw|Hw].
  - rewrite !dataset_narrow by exact Hw. reflexivity.
  - rewrite !dataset_rows by exact Hw. cbn [rows].
    induction H as [|r r' rs rs' Hr _ IH]; [reflexivity|].
    cbn [flat_map]. now rewrite (clean_row_same_six r r' Hr), IH.
Qed.

End ColumnsRead.

Lemma other_columns_ignored_witness :
  dataset (R := no_numeric_text)
    (mkframe 21 [text "x" :: tl (city_deal "Pune")]) =
  dataset (R := no_numeric_text) (mkframe 21 [city_deal "Pune"]).
Proof.
  apply (other_columns_ignored (R := no_numeric_text)).
  repeat constructor.
Defined.

(** ** A widget that raises, and cells that are missing *)

Section WidgetRaises.

Context {R : FloatRepr} {S : SortValues} {P : Pandas} {W : Sidebar}.

(** X17.  [main] catches nothing: when a sidebar widget raises over a
    loaded frame, the run ends with that exception, and the page holds
    what was drawn before that widget and nothing else.  When the year
    slider raises, that is the sidebar heading; when the city selection
    raises, the heading and the year slider; when the funding slider
    raises, the heading, the year slider and the city selection.  The
    widget that raised and the results are not drawn. *)
Theorem main_stops_where_a_widget_raises read_csv :
  let df := frame_of (snd (load_data read_csv)) in
  let year_range :=
    slider_year (min_Z (List.map Year df)) (max_Z (List.map Year df))
                (full_year_range df) in
  let cities :=
    multiselect (sorted (unique (List.map City df))) default_cities in
  let funding_range :=
    slider_funding (min_float (List.map Amount df))
                   (max_float (List.map Amount df))
                   (full_funding_range df) in
  df <> [] ->
  (year_range = None ->
   main read_csv = (header ++ [sidebar_header], Raise)) /\
  (year_range <> None -> cities = None ->
   main read_csv = (header ++ firstn 2 (sidebar_of df), Raise)) /\
  (year_range <> None -> cities <> None -> funding_range = None ->
   main read_csv = (header ++ firstn 3 (sidebar_of df), Raise)).
Proof.
  intros df year_range cities funding_range Hne.
  pose proof (main_cases read_csv) as Hm. cbv zeta in Hm.
  subst year_range cities funding_range df.
  unfold full_year_range, full_funding_range. revert Hm Hne.
  destruct (snd (load_data read_csv)) as [[|r0 df0]|e];
    cbn [frame_of]; intros Hm Hne; try congruence.
  rewrite Hm.
  destruct (slider_year _ _ _) as [y|];
    [|repeat split; intros; try congruence; reflexivity].
  destruct (multiselect _ _) as [c|];
    [|repeat split; intros; try congruence; reflexivity].
  destruct (slider_funding _ _ _) as [f|];
    repeat split; intros; try congruence; reflexivity.
Qed.

End WidgetRaises.

Lemma main_stops_where_a_widget_raises_witness :
  main (R := no_numeric_text) (S := stable_sort) (P := row_order_sums)
       (W := first_run) (Some one_city_frame) =
  (header ++ [sidebar_header], Raise) /\
  main (R := no_numeric_text) (S := stable_sort) (P := row_order_sums)
       (W := first_run) (Some two_in_pune) =
  (header ++
     firstn 2 (sidebar_of
                 (frame_of (snd (load_data (R := no_numeric_text)
                                   (Some two_in_pune))))),
   Raise) /\
  main (R := no_numeric_text) (S := stable_sort) (P := row_order_sums)
       (W := no_city_selected) (Some one_amount) =
  (header ++
     firstn 3 (sidebar_of
                 (frame_of (snd (load_data (R := no_numeric_text)
                                   (Some one_amount))))),
   Raise).
Proof.
  split; [|split].
  - apply (main_stops_where_a_widget_raises (R := no_numeric_text)
             (S := stable_sort) (P := row_order_sums) (W := first_run)
             (Some one_city_frame)).
    + vm_compute. discriminate.
    + vm_compute. reflexivity.
  - apply (main_stops_where_a_widget_raises (R := no_numeric_text)
             (S := stable_sort) (P := row_order_sums) (W := first_run)
             (Some two_in_pune)).
    + vm_compute. discriminate.
    + vm_compute. discriminate.
    + vm_compute. reflexivity.
  - apply (main_stops_where_a_widget_raises (R := no_numeric_text)
             (S := stable_sort) (P := row_order_sums)
             (W := no_city_selected) (Some one_amount)).
    + vm_compute. discriminate.
    + vm_compute. discriminate.
    + vm_compute. discriminate.
    + vm_compute. reflexivity.
Defined.

Section MissingCells.

Context {R : FloatRepr}.


End MissingCells.

Lemma rows_cleaned_one_by_one_witness :
  snd (load_data (R := no_numeric_text)
         (Some (mkframe 21 (rows no_amount ++ rows three_deals)))) =
  match snd (load_data (R := no_numeric_text)
               (Some (mkframe 21 (rows no_amount)))),
        snd (load_data (R := no_numeric_text)
               (Some (mkframe 21 (rows three_deals)))) with
  | raises e, raises _ => raises e
  | l1, l2 => returns (frame_of l1 ++ frame_of l2)
  end /\
  snd (load_data (R := no_numeric_text)
         (Some (mkframe 21 (rows no_amount)))) = raises AttributeError.
Proof.
  destruct (rows_cleaned_one_by_one (R := no_numeric_text) 21
              (rows no_amount) (rows three_deals) (le_n 21))
    as (Hraise & _ & Happ).
  split; [exact Happ|]. apply Hraise. vm_compute. reflexivity.
Defined.


